(** * argon2-browser: the JavaScript wrapper [dist/argon2.js]

    The file embeds the two entry points of [dist/argon2.js], [argon2Hash]
    and [argon2Verify], together with the part of the JavaScript and
    Emscripten runtime they touch:

    - JavaScript values, truthiness, [||], [===], property lookup on plain
      objects (own properties first, then [Object.prototype]), exceptions
      and [try]/[catch];
    - the Emscripten heap [Module.HEAP8] as a flat array of signed bytes,
      [Module.allocate], [Module._free], [Module.intArrayFromString] and
      [Module.Pointer_stringify];
    - the compiled module [argon2-asm.min.js] as a record [Core] of the
      three exported functions the wrapper calls.  Arguments cross that
      boundary as 32-bit integers ([to_int32]).

    [loadScript] is embedded over a model of promises and of the scope it
    runs in ([importScripts], [document.body]).

    Statements about the wrapper alone quantify over every [Core].
    Statements that need the behaviour of the compiled module use
    [ref_core], which follows the specification's Parameter & Encoding
    layer and is parametric in the memory-hard function. *)

From Stdlib Require Import ZArith String Ascii List Lia DecimalString.
From Stdlib Require DecimalN.
From stdpp Require Import base numbers option list strings gmap.

#[local] Set Warnings "-register-all,-clear-no-such-hyp".
Local Open Scope string_scope.
Local Open Scope Z_scope.

(** ** JavaScript values *)

Module JS.

(** Numbers are the integral ones; strings have code units below 256.
    [JUtf8 b] is the string [UTF8ToString] yields for the non-ASCII,
    NUL-free byte sequence [b]; its characters are not represented. *)
Inductive jsval :=
| JUndefined
| JNum (n : Z)
| JStr (s : string)
| JUtf8 (b : list Z)
| JBytes (b : list Z)
| JObj (fields : list (string * jsval))
| JFun (name : string)
| JErr (kind msg : string).

(** ToBoolean *)
Definition truthy (v : jsval) : bool :=
  match v with
  | JUndefined => false
  | JNum n => negb (n =? 0)
  | JStr s => negb (String.eqb s "")
  | JUtf8 b => match b with [] => false | _ => true end
  | _ => true
  end.

(** [a || b] on already evaluated operands *)
Definition js_or (a b : jsval) : jsval := if truthy a then a else b.

(** [v === 0] *)
Definition strict_eq_zero (v : jsval) : bool :=
  match v with JNum n => n =? 0 | _ => false end.

(** [v === undefined] *)
Definition is_undefined (v : jsval) : bool :=
  match v with JUndefined => true | _ => false end.

(** An optional numeric field of a parameter object. *)
Definition opt_num (o : option Z) : jsval :=
  match o with Some n => JNum n | None => JUndefined end.

(** [o || d] for an optional numeric field and a numeric default *)
Definition num_or (o : option Z) (d : Z) : Z :=
  match o with
  | Some n => if n =? 0 then d else n
  | None => d
  end.

(** ToInt32 on integral numbers: wrap around modulo 2^32 into
    [-2^31, 2^31). *)
Definition wrap32 (n : Z) : Z := (n + 2147483648) mod 4294967296 - 2147483648.

(** ToInt32, the coercion [x | 0] that asm.js applies to every argument of
    an exported function.  [undefined], functions, plain objects and
    non-numeric strings convert to NaN and so to 0.  Strings and arrays
    never reach the boundary in this wrapper. *)
Definition to_int32 (v : jsval) : Z :=
  match v with
  | JNum n => wrap32 n
  | _ => 0
  end.

(** The names every plain object inherits from [Object.prototype]. *)
Definition object_prototype : list string :=
  [ "constructor"; "toString"; "toLocaleString"; "valueOf";
    "hasOwnProperty"; "isPrototypeOf"; "propertyIsEnumerable";
    "__defineGetter__"; "__defineSetter__"; "__lookupGetter__";
    "__lookupSetter__" ].

Fixpoint own_property (fields : list (string * jsval)) (name : string)
  : option jsval :=
  match fields with
  | [] => None
  | (k, v) :: rest => if String.eqb k name then Some v else own_property rest name
  end.

(** [obj[name]] for a plain object with the given own properties *)
Definition get_property (fields : list (string * jsval)) (name : string)
  : jsval :=
  match own_property fields name with
  | Some v => v
  | None =>
      if String.eqb name "__proto__" then JObj []
      else if existsb (String.eqb name) object_prototype then JFun name
      else JUndefined
  end.

(** ** Strings *)

Definition code (c : ascii) : Z := Z.of_N (N_of_ascii c).
Definition chr (n : Z) : ascii := ascii_of_N (Z.to_N (n mod 256)).

Definition codes (s : string) : list Z := map code (list_ascii_of_string s).
Definition of_codes (l : list Z) : string :=
  string_of_list_ascii (map chr l).

(** [s.split(sep)] for a one-character separator, on the characters *)
Fixpoint split_on (sep : ascii) (s : list ascii) : list (list ascii) :=
  match s with
  | [] => [[]]
  | c :: rest =>
      if Ascii.eqb c sep then [] :: split_on sep rest
      else match split_on sep rest with
           | [] => [[c]]
           | f :: fs => (c :: f) :: fs
           end
  end.

Definition split (s : string) (sep : ascii) : list string :=
  map string_of_list_ascii (split_on sep (list_ascii_of_string s)).

(** [s.replace(a, b)] for one-character strings: the first occurrence *)
Fixpoint replace_first (a b : ascii) (s : string) : string :=
  match s with
  | EmptyString => EmptyString
  | String c rest =>
      if Ascii.eqb c a then String b rest else String c (replace_first a b rest)
  end.

(** [n.toString(16)] for [0 <= n < 256] *)
Definition hex_digit (d : Z) : ascii :=
  if d <? 10 then chr (48 + d) else chr (87 + d).

Definition toString16 (n : Z) : string :=
  if n <? 16 then String (hex_digit n) EmptyString
  else String (hex_digit (n / 16)) (String (hex_digit (n mod 16)) EmptyString).

(** [s.slice(-2)]: the last two characters (all of [s] when shorter) *)
Definition slice_last2 (s : string) : string :=
  let n := String.length s in
  String.substring (n - 2) 2 s.

End JS.
Export JS.

(** ** Machine state, exceptions and the Emscripten runtime *)

(** The thirteen arguments of [_argon2_hash] and the four of
    [_argon2_verify], as the compiled module receives them. *)
Record hash_args := HashArgs {
  a_t_cost : Z; a_m_cost : Z; a_parallelism : Z;
  a_pwd : Z; a_pwdlen : Z; a_salt : Z; a_saltlen : Z;
  a_hash : Z; a_hashlen : Z; a_encoded : Z; a_encodedlen : Z;
  a_type : Z; a_version : Z }.

Record verify_args := VerifyArgs {
  v_encoded : Z; v_pwd : Z; v_pwdlen : Z; v_type : Z }.

(** How a call ends: it returns a value or throws one. *)
Inductive outcome (A : Type) :=
| Ret (a : A)
| Throw (e : jsval).
Arguments Ret {A} a.
Arguments Throw {A} e.

(** The calls into the compiled module, newest first. *)
Inductive event :=
| EvHash (a : hash_args) (r : outcome Z)
| EvVerify (a : verify_args) (r : outcome Z).

Record state := State {
  HEAP8 : list Z;                 (* Module.HEAP8, index = address *)
  live : gset Z;                  (* blocks malloc'ed and not yet freed *)
  globals : gmap string jsval;    (* the global scope *)
  trace : list event }.

Definition M (A : Type) : Type := state -> outcome A * state.

Definition ret {A} (a : A) : M A := fun st => (Ret a, st).
Definition throw {A} (e : jsval) : M A := fun st => (Throw e, st).
Definition bind {A B} (m : M A) (k : A -> M B) : M B :=
  fun st => match m st with
            | (Ret a, st') => k a st'
            | (Throw e, st') => (Throw e, st')
            end.
(** [try { m } catch (e) { handler e }] *)
Definition try_catch {A} (m : M A) (handler : jsval -> M A) : M A :=
  fun st => match m st with
            | (Ret a, st') => (Ret a, st')
            | (Throw e, st') => handler e st'
            end.

Notation "x <- m ;; k" := (bind m (fun x => k))
  (at level 20, m at level 99, k at level 200, only parsing).
Notation "' p <- m ;; k" := (bind m (fun p => k))
  (at level 20, p pattern, m at level 99, k at level 200, only parsing).

(** The value a call hands to its caller, returned or thrown. *)
Definition value_of (o : outcome jsval) : jsval :=
  match o with Ret v => v | Throw v => v end.

Module Runtime.

(** A value stored through an [i8] view. *)
Definition to_i8 (n : Z) : Z := (n + 128) mod 256 - 128.
(** The same byte through [HEAPU8]. *)
Definition to_u8 (n : Z) : Z := n mod 256.

(** [Module.HEAP8[a]]: [undefined] outside the array *)
Definition heap_get (heap : list Z) (a : Z) : jsval :=
  if a <? 0 then JUndefined
  else match heap !! Z.to_nat a with
       | Some b => JNum b
       | None => JUndefined
       end.

(** [_malloc]: a bump allocator at the end of the heap, at least one byte.
    It never fails and never hands out a freed block again. *)
Definition malloc_bytes (bytes : list Z) : list Z :=
  match bytes with [] => [0] | _ => bytes end.

(** [Module.allocate(slab, 'i8', Module.ALLOC_NORMAL)]: a fresh block of
    [max(slab.length, 1)] bytes holding the elements of [slab]. *)
Definition allocate (slab : list Z) : M Z := fun st =>
  let ptr := Z.of_nat (length (HEAP8 st)) in
  (Ret ptr,
   State (HEAP8 st ++ malloc_bytes (map to_i8 slab))
         ({[ ptr ]} ∪ live st) (globals st) (trace st)).

(** [Module._free(ptr)] *)
Definition _free (ptr : Z) : M unit := fun st =>
  (Ret tt, State (HEAP8 st) (live st ∖ {[ ptr ]}) (globals st) (trace st)).

(** [new Array(n)]: [n] holes, which [allocate] stores as 0. *)
Definition new_Array (n : Z) : M (list Z) :=
  if (n <? 0) || (4294967295 <? n)
  then throw (JErr "RangeError" "Invalid array length")
  else ret (replicate (Z.to_nat n) 0).

(** UTF-8 of one code unit below 256 *)
Definition utf8_char (c : Z) : list Z :=
  if c <? 128 then [c] else [192 + c / 64; 128 + c mod 64].

(** [Module.intArrayFromString(s)]: the UTF-8 bytes of [s] and a final 0 *)
Definition intArrayFromString (s : string) : list Z :=
  concat (map utf8_char (codes s)) ++ [0].

(** The bytes of the C string that starts the list, through [HEAPU8]. *)
Fixpoint c_string (mem : list Z) : list Z :=
  match mem with
  | [] => []
  | b :: rest => if to_u8 b =? 0 then [] else to_u8 b :: c_string rest
  end.

Definition c_string_at (heap : list Z) (ptr : Z) : list Z :=
  c_string (drop (Z.to_nat ptr) heap).

(** [Module.Pointer_stringify(ptr)], for [ptr] inside the heap: the empty
    string for a null pointer, one character per byte for 7-bit text, and
    [UTF8ToString] otherwise. *)
Definition Pointer_stringify (ptr : Z) : M jsval := fun st =>
  if ptr =? 0 then (Ret (JStr ""), st)
  else
    let bytes := c_string_at (HEAP8 st) ptr in
    if forallb (fun b => b <? 128) bytes
    then (Ret (JStr (of_codes bytes)), st)
    else (Ret (JUtf8 bytes), st).

(** Reading an identifier that no enclosing scope declares. *)
Definition global_var (name : string) : M jsval := fun st =>
  match globals st !! name with
  | Some v => (Ret v, st)
  | None => (Throw (JErr "ReferenceError" (name +:+ " is not defined")), st)
  end.

(** [v.name] for the names [ArgonType] and [Argon2d]: no primitive,
    function or array has a property of either name. *)
Definition get_member (v : jsval) (name : string) : M jsval :=
  match v with
  | JUndefined =>
      throw (JErr "TypeError" ("Cannot read property '" +:+ name +:+ "' of undefined"))
  | JObj fields => ret (get_property fields name)
  | _ => ret JUndefined
  end.

End Runtime.
Export Runtime.

(** ** The compiled module *)

(** The functions [argon2-asm.min.js] exports.  Each runs on the heap and
    returns a 32-bit integer or throws (Emscripten's [abort]). *)
Record Core := {
  _argon2_hash : hash_args -> list Z -> outcome Z * list Z;
  _argon2_verify : verify_args -> list Z -> outcome Z * list Z;
  _argon2_error_message : Z -> list Z -> outcome Z * list Z }.

Definition set_heap (st : state) (heap : list Z) : state :=
  State heap (live st) (globals st) (trace st).
Definition log (ev : event) (st : state) : state :=
  State (HEAP8 st) (live st) (globals st) (ev :: trace st).

Section Boundary.
Variable core : Core.

Definition call_argon2_hash (a : hash_args) : M jsval := fun st =>
  let '(r, heap) := _argon2_hash core a (HEAP8 st) in
  let st' := log (EvHash a r) (set_heap st heap) in
  match r with
  | Ret n => (Ret (JNum n), st')
  | Throw e => (Throw e, st')
  end.

Definition call_argon2_verify (a : verify_args) : M jsval := fun st =>
  let '(r, heap) := _argon2_verify core a (HEAP8 st) in
  let st' := log (EvVerify a r) (set_heap st heap) in
  match r with
  | Ret n => (Ret (JNum n), st')
  | Throw e => (Throw e, st')
  end.

Definition call_argon2_error_message (res : jsval) : M Z := fun st =>
  let '(r, heap) := _argon2_error_message core (to_int32 res) (HEAP8 st) in
  (r, set_heap st heap).

End Boundary.

(** ** The wrapper: [dist/argon2.js] *)

(** [var ArgonType = { Argon2d: 0, Argon2i: 1, Argon2id: 2 }] *)
Definition ArgonType : list (string * jsval) :=
  [ ("Argon2d", JNum 0); ("Argon2i", JNum 1); ("Argon2id", JNum 2) ].

(** A [{string|Uint8Array}] parameter. *)
Inductive strOrArr :=
| Str (s : string)
| Arr (b : list Z).

(** The parameter object of [argon2Hash]; [None] is an omitted field. *)
Record hash_params := HashParams {
  hp_pass : strOrArr;
  hp_salt : strOrArr;
  hp_time : option Z;
  hp_mem : option Z;
  hp_hashLen : option Z;
  hp_parallelism : option Z;
  hp_type : option Z }.

(** The parameter object of [argon2Verify]. *)
Record verify_params := VerifyParams {
  vp_pass : strOrArr;
  vp_encoded : strOrArr;
  vp_type : option Z }.

(** [x.length] *)
Definition js_length (x : strOrArr) : Z :=
  match x with
  | Str s => Z.of_nat (String.length s)
  | Arr b => Z.of_nat (length b)
  end.

(** [x.split('$')[1]]; a [Uint8Array] has no method [split]. *)
Definition split_dollar_1 (x : strOrArr) : M jsval :=
  match x with
  | Str s =>
      ret (match split s "$" !! 1%nat with
           | Some f => JStr f
           | None => JUndefined
           end)
  | Arr _ => throw (JErr "TypeError" "params.encoded.split is not a function")
  end.

(** ToUint8, the conversion of a store into a [Uint8Array] *)
Definition to_uint8 (v : jsval) : Z :=
  match v with JNum n => n mod 256 | _ => 0 end.

Definition get_heap : M (list Z) := fun st => (Ret (HEAP8 st), st).

(** Lines 79-85 of [argon2Hash]: the loop over the digest buffer, from
    [hashArr = new Uint8Array(hashlen)] and [hashStr = '']. *)
Definition hash_loop (heap : list Z) (hash hashlen : Z) : list Z * string :=
  fold_left
    (fun '(hashArr, hashStr) i =>
       let byte := heap_get heap (hash + i) in
       (<[ Z.to_nat i := to_uint8 byte ]> hashArr,
        hashStr +:+ slice_last2 ("0" +:+ toString16 (Z.land 255 (to_int32 byte)))))
    (seqZ 0 hashlen)
    (replicate (Z.to_nat hashlen) 0, "").

(** The expression [argon2.ArgonType.Argon2d] of line 68.  The file
    declares no [argon2]: the identifier is looked up in the global scope. *)
Definition argon2_ArgonType_Argon2d : M jsval :=
  argon2 <- global_var "argon2" ;;
  t <- get_member argon2 "ArgonType" ;;
  get_member t "Argon2d".

Section Wrapper.
Variable core : Core.

Definition allocateArray (strOrArr : strOrArr) : M Z :=
  let arr := match strOrArr with
             | Arr b => b
             | Str s => intArrayFromString s
             end in
  allocate arr.

(** Lines 89-95 and 146-152: the error branch shared by both functions. *)
Definition error_result (res err : jsval) : M (jsval * jsval) :=
  err <- try_catch
           (if negb (truthy err)
            then (msg <- call_argon2_error_message core res ;;
                  Pointer_stringify msg)
            else ret err)
           (fun _ => ret err) ;;
  ret (JObj [("message", err); ("code", res)], err).

(** Lines 77-107 of [argon2Hash], from [var result] on. *)
Definition hash_result (pwd salt hash encoded hashlen : Z) (res err : jsval)
  : M jsval :=
  '(result, err) <-
    (if strict_eq_zero res && negb (truthy err) then
       heap <- get_heap ;;
       let '(hashArr, hashStr) := hash_loop heap hash hashlen in
       encodedStr <- Pointer_stringify encoded ;;
       ret (JObj [("hash", JBytes hashArr); ("hashHex", JStr hashStr);
                  ("encoded", encodedStr)], err)
     else error_result res err) ;;
  _ <- try_catch
         (_ <- _free pwd ;; _ <- _free salt ;; _ <- _free hash ;; _free encoded)
         (fun _ => ret tt) ;;
  if truthy err then throw result else ret result.

Definition argon2Hash (params : hash_params) : M jsval :=
  let tCost := num_or (hp_time params) 1 in
  let mCost := num_or (hp_mem params) 1024 in
  let parallelism := num_or (hp_parallelism params) 1 in
  pwd <- allocateArray (hp_pass params) ;;
  let pwdlen := js_length (hp_pass params) in
  salt <- allocateArray (hp_salt params) ;;
  let saltlen := js_length (hp_salt params) in
  slab <- new_Array (num_or (hp_hashLen params) 24) ;;
  hash <- allocate slab ;;
  let hashlen := num_or (hp_hashLen params) 24 in
  slab <- new_Array 512 ;;
  encoded <- allocate slab ;;
  let encodedlen := 512 in
  argon2Type <-
    (if truthy (opt_num (hp_type params)) then ret (opt_num (hp_type params))
     else argon2_ArgonType_Argon2d) ;;
  let version := 19 in
  '(res, err) <-
    try_catch
      (res <- call_argon2_hash core
                (HashArgs (wrap32 tCost) (wrap32 mCost) (wrap32 parallelism)
                          (wrap32 pwd) (wrap32 pwdlen) (wrap32 salt)
                          (wrap32 saltlen) (wrap32 hash) (wrap32 hashlen)
                          (wrap32 encoded) (wrap32 encodedlen)
                          (to_int32 argon2Type) (wrap32 version)) ;;
       ret (res, JUndefined))
      (fun e => ret (JUndefined, e)) ;;
  hash_result pwd salt hash encoded hashlen res err.

(** Lines 144-162 of [argon2Verify], from [var result] on. *)
Definition verify_result (pwd enc : Z) (res err : jsval) : M jsval :=
  '(result, err) <-
    (if truthy res || truthy err then error_result res err
     else ret (JUndefined, err)) ;;
  _ <- try_catch (_ <- _free pwd ;; _free enc) (fun _ => ret tt) ;;
  if truthy err then throw result else ret result.

(** Lines 130-137 of [argon2Verify]: the variant handed to the module. *)
Definition verify_argon2Type (params : verify_params) : M jsval :=
  let argon2Type := opt_num (vp_type params) in
  if is_undefined argon2Type then
    typeStr <- split_dollar_1 (vp_encoded params) ;;
    match typeStr with
    | JStr s =>
        if truthy typeStr then
          let typeStr := replace_first "a" "A" s in
          ret (js_or (get_property ArgonType typeStr)
                     (get_property ArgonType "Argon2d"))
        else ret argon2Type
    | _ => ret argon2Type
    end
  else ret argon2Type.

Definition argon2Verify (params : verify_params) : M jsval :=
  pwd <- allocateArray (vp_pass params) ;;
  let pwdlen := js_length (vp_pass params) in
  enc <- allocateArray (vp_encoded params) ;;
  argon2Type <- verify_argon2Type params ;;
  '(res, err) <-
    try_catch
      (res <- call_argon2_verify core
                (VerifyArgs (wrap32 enc) (wrap32 pwd) (wrap32 pwdlen)
                            (to_int32 argon2Type)) ;;
       ret (res, JUndefined))
      (fun e => ret (JUndefined, e)) ;;
  verify_result pwd enc res err.

End Wrapper.

(** ** The Parameter & Encoding layer of the compiled module *)

Module Encoding.

(** Modelled from the spec: the encoded string of section 3,
    [$argon2{d,i,id}$v=19$m=...,t=...,p=...$<salt>$<hash>], salt and digest
    in base64 without padding.  The encoder and the decoder are part of
    [argon2-asm.min.js], which is not among the source files.  The format
    is taken as the specification gives it: every field is required, the
    version included. *)

Definition type_tag (ty : Z) : option (list ascii) :=
  if ty =? 0 then Some (list_ascii_of_string "argon2d")
  else if ty =? 1 then Some (list_ascii_of_string "argon2i")
  else if ty =? 2 then Some (list_ascii_of_string "argon2id")
  else None.

Definition tag_type (tag : list ascii) : option Z :=
  let s := string_of_list_ascii tag in
  if String.eqb s "argon2d" then Some 0
  else if String.eqb s "argon2i" then Some 1
  else if String.eqb s "argon2id" then Some 2
  else None.

(** Decimal numerals *)
Definition dec (n : Z) : list ascii :=
  list_ascii_of_string (NilZero.string_of_uint (N.to_uint (Z.to_N n))).

Definition parse_dec (s : list ascii) : option Z :=
  match NilZero.uint_of_string (string_of_list_ascii s) with
  | Some d => Some (Z.of_N (N.of_uint d))
  | None => None
  end.

(** Base64, alphabet [A-Za-z0-9+/], no padding *)
Definition b64_char (v : Z) : ascii :=
  if v <? 26 then chr (65 + v)
  else if v <? 52 then chr (71 + v)
  else if v <? 62 then chr (v - 4)
  else if v =? 62 then "+"%char
  else "/"%char.

Definition b64_value (c : ascii) : option Z :=
  let n := code c in
  if (65 <=? n) && (n <=? 90) then Some (n - 65)
  else if (97 <=? n) && (n <=? 122) then Some (n - 71)
  else if (48 <=? n) && (n <=? 57) then Some (n + 4)
  else if n =? 43 then Some 62
  else if n =? 47 then Some 63
  else None.

Fixpoint b64_encode (l : list Z) : list ascii :=
  match l with
  | [] => []
  | [a] => [b64_char (a / 4); b64_char (a mod 4 * 16)]
  | [a; b] =>
      [b64_char (a / 4); b64_char (a mod 4 * 16 + b / 16);
       b64_char (b mod 16 * 4)]
  | a :: b :: c :: rest =>
      b64_char (a / 4) :: b64_char (a mod 4 * 16 + b / 16)
        :: b64_char (b mod 16 * 4 + c / 64) :: b64_char (c mod 64)
        :: b64_encode rest
  end.

Fixpoint b64_decode (s : list ascii) : option (list Z) :=
  match s with
  | [] => Some []
  | [_] => None
  | [c0; c1] =>
      v0 ← b64_value c0; v1 ← b64_value c1;
      Some [v0 * 4 + v1 / 16]
  | [c0; c1; c2] =>
      v0 ← b64_value c0; v1 ← b64_value c1; v2 ← b64_value c2;
      Some [v0 * 4 + v1 / 16; v1 mod 16 * 16 + v2 / 4]
  | c0 :: c1 :: c2 :: c3 :: rest =>
      v0 ← b64_value c0; v1 ← b64_value c1; v2 ← b64_value c2;
      v3 ← b64_value c3; tl ← b64_decode rest;
      Some (v0 * 4 + v1 / 16 :: v1 mod 16 * 16 + v2 / 4
              :: v2 mod 4 * 64 + v3 :: tl)
  end.

(** What an encoded string carries. *)
Record decoded := Decoded {
  d_type : Z; d_version : Z; d_m_cost : Z; d_t_cost : Z; d_parallelism : Z;
  d_salt : list Z; d_digest : list Z }.

Definition lit (s : string) : list ascii := list_ascii_of_string s.

Definition encode_string (tag : list ascii) (version m t p : Z)
    (salt digest : list Z) : list ascii :=
  lit "$" ++ tag ++ lit "$v=" ++ dec version
    ++ lit "$m=" ++ dec m ++ lit ",t=" ++ dec t ++ lit ",p=" ++ dec p
    ++ lit "$" ++ b64_encode salt ++ lit "$" ++ b64_encode digest.

(** [strip_prefix p s]: [s] without its prefix [p] *)
Fixpoint strip_prefix (p s : list ascii) : option (list ascii) :=
  match p, s with
  | [], _ => Some s
  | a :: p', b :: s' => if Ascii.eqb a b then strip_prefix p' s' else None
  | _ :: _, [] => None
  end.

Definition field (name : string) (s : list ascii) : option Z :=
  strip_prefix (lit name) s ≫= parse_dec.

Definition decode_string (s : list ascii) : option decoded :=
  match split_on "$" s with
  | [[]; tag; version; costs; salt; digest] =>
      match split_on "," costs with
      | [m; t; p] =>
          ty ← tag_type tag;
          version ← field "v=" version;
          m ← field "m=" m;
          t ← field "t=" t;
          p ← field "p=" p;
          salt ← b64_decode salt;
          digest ← b64_decode digest;
          Some (Decoded ty version m t p salt digest)
      | _ => None
      end
  | _ => None
  end.

End Encoding.

Module Reference.
Import Encoding.

(** Modelled from the spec: the error taxonomy of section 7 and the
    validation of section 4.5.  The codes and messages are those of the
    Argon2 reference implementation that [argon2-asm.min.js] is compiled
    from; only the ones this layer produces have an entry. *)
Inductive argon2_error :=
| ARGON2_OK
| ARGON2_OUTPUT_TOO_SHORT
| ARGON2_TIME_TOO_SMALL
| ARGON2_MEMORY_TOO_LITTLE
| ARGON2_MEMORY_TOO_MUCH
| ARGON2_LANES_TOO_FEW
| ARGON2_LANES_TOO_MANY
| ARGON2_INCORRECT_TYPE
| ARGON2_ENCODING_FAIL
| ARGON2_DECODING_FAIL
| ARGON2_VERIFY_MISMATCH
| ARGON2_UNKNOWN.

Definition error_code (e : argon2_error) : Z :=
  match e with
  | ARGON2_OK => 0
  | ARGON2_OUTPUT_TOO_SHORT => -2
  | ARGON2_TIME_TOO_SMALL => -12
  | ARGON2_MEMORY_TOO_LITTLE => -14
  | ARGON2_MEMORY_TOO_MUCH => -15
  | ARGON2_LANES_TOO_FEW => -16
  | ARGON2_LANES_TOO_MANY => -17
  | ARGON2_INCORRECT_TYPE => -26
  | ARGON2_ENCODING_FAIL => -31
  | ARGON2_DECODING_FAIL => -32
  | ARGON2_VERIFY_MISMATCH => -35
  | ARGON2_UNKNOWN => 1
  end.

Definition error_text (e : argon2_error) : string :=
  match e with
  | ARGON2_OK => "OK"
  | ARGON2_OUTPUT_TOO_SHORT => "Output is too short"
  | ARGON2_TIME_TOO_SMALL => "Time cost is too small"
  | ARGON2_MEMORY_TOO_LITTLE => "Memory cost is too small"
  | ARGON2_MEMORY_TOO_MUCH => "Memory cost is too large"
  | ARGON2_LANES_TOO_FEW => "Too few lanes"
  | ARGON2_LANES_TOO_MANY => "Too many lanes"
  | ARGON2_INCORRECT_TYPE => "There is no such version of Argon2"
  | ARGON2_ENCODING_FAIL => "Encoding failed"
  | ARGON2_DECODING_FAIL => "Decoding failed"
  | ARGON2_VERIFY_MISMATCH => "The password does not match the supplied hash"
  | ARGON2_UNKNOWN => "Unknown error code"
  end.

Definition all_errors : list argon2_error :=
  [ ARGON2_OK; ARGON2_OUTPUT_TOO_SHORT; ARGON2_TIME_TOO_SMALL;
    ARGON2_MEMORY_TOO_LITTLE; ARGON2_MEMORY_TOO_MUCH; ARGON2_LANES_TOO_FEW;
    ARGON2_LANES_TOO_MANY; ARGON2_INCORRECT_TYPE; ARGON2_ENCODING_FAIL;
    ARGON2_DECODING_FAIL; ARGON2_VERIFY_MISMATCH; ARGON2_UNKNOWN ].

Definition error_of_code (c : Z) : argon2_error :=
  match find (fun e => error_code e =? c) all_errors with
  | Some e => e
  | None => ARGON2_UNKNOWN
  end.

(** The kinds of section 7. *)
Inductive error_kind :=
| ParameterError
| AllocationError
| ParseError
| VerificationMismatch
| OtherError.

Definition kind_of_code (c : Z) : error_kind :=
  match error_of_code c with
  | ARGON2_OUTPUT_TOO_SHORT | ARGON2_TIME_TOO_SMALL
  | ARGON2_MEMORY_TOO_LITTLE | ARGON2_MEMORY_TOO_MUCH
  | ARGON2_LANES_TOO_FEW | ARGON2_LANES_TOO_MANY
  | ARGON2_INCORRECT_TYPE => ParameterError
  | ARGON2_DECODING_FAIL => ParseError
  | ARGON2_VERIFY_MISMATCH => VerificationMismatch
  | _ => OtherError
  end.

(** The read-only data of the module: eight reserved bytes (address 0 is
    the null pointer), then the messages, each closed by a NUL. *)
Definition message_bytes (e : argon2_error) : list Z :=
  codes (error_text e) ++ [0].

Definition rodata : list Z :=
  replicate 8 0 ++ concat (map message_bytes all_errors).

Fixpoint message_offset (e : argon2_error) (table : list argon2_error) (base : Z) : Z :=
  match table with
  | [] => 0
  | e' :: rest =>
      if error_code e' =? error_code e then base
      else message_offset e rest (base + Z.of_nat (length (message_bytes e')))
  end.

Definition message_ptr (e : argon2_error) : Z := message_offset e all_errors 8.

(** An unsigned 32-bit argument. *)
Definition u32 (x : Z) : Z := x mod 4294967296.

Definition read_bytes (heap : list Z) (ptr len : Z) : list Z :=
  map to_u8 (take (Z.to_nat len) (drop (Z.to_nat ptr) heap)).

(** Stores past the end of the heap are dropped. *)
Definition write_bytes (heap : list Z) (ptr : Z) (bytes : list Z) : list Z :=
  list_inserts (Z.to_nat ptr) (map to_i8 bytes) heap.

(** Constant-time comparison: the differences of all bytes are or'ed
    together, whatever the position of the first one. *)
Definition ct_diff (a b : list Z) : Z :=
  fold_left Z.lor (zip_with Z.lxor a b) 0.

Definition digests_equal (a b : list Z) : bool :=
  (length a =? length b)%nat && (ct_diff a b =? 0).

Section Core.
(** The memory-hard function (components 1-4 of the specification):
    variant, version, time cost, memory cost, lanes, password, salt and
    output length to digest. *)
Variable kdf : Z -> Z -> Z -> Z -> Z -> list Z -> list Z -> Z -> list Z.
(** The configured ceiling on the memory cost, in KiB. *)
Variable mem_ceiling : Z.

Definition validate (outlen m t p : Z) : option argon2_error :=
  if outlen <? 4 then Some ARGON2_OUTPUT_TOO_SHORT
  else if m <? 8 * p then Some ARGON2_MEMORY_TOO_LITTLE
  else if mem_ceiling <? m then Some ARGON2_MEMORY_TOO_MUCH
  else if t <? 1 then Some ARGON2_TIME_TOO_SMALL
  else if p <? 1 then Some ARGON2_LANES_TOO_FEW
  else if 16777215 <? p then Some ARGON2_LANES_TOO_MANY
  else None.

Definition ref_hash (a : hash_args) (heap : list Z) : outcome Z * list Z :=
  let t := u32 (a_t_cost a) in
  let m := u32 (a_m_cost a) in
  let p := u32 (a_parallelism a) in
  let outlen := u32 (a_hashlen a) in
  match validate outlen m t p with
  | Some e => (Ret (error_code e), heap)
  | None =>
      match type_tag (a_type a) with
      | None => (Ret (error_code ARGON2_INCORRECT_TYPE), heap)
      | Some tag =>
          let pwd := read_bytes heap (u32 (a_pwd a)) (u32 (a_pwdlen a)) in
          let salt := read_bytes heap (u32 (a_salt a)) (u32 (a_saltlen a)) in
          let version := u32 (a_version a) in
          let digest := kdf (a_type a) version t m p pwd salt outlen in
          let text := encode_string tag version m t p salt digest in
          if Z.of_nat (length text) <? u32 (a_encodedlen a) then
            let heap := write_bytes heap (u32 (a_hash a)) digest in
            let heap := write_bytes heap (u32 (a_encoded a))
                                    (map code text ++ [0]) in
            (Ret (error_code ARGON2_OK), heap)
          else (Ret (error_code ARGON2_ENCODING_FAIL), heap)
      end
  end.

(** The string is decoded for the variant asked for: one with another tag
    does not decode.  What was decoded is validated as the parameters of a
    hash are, the length of the digest being the output length, before
    the digest is recomputed. *)
Definition ref_verify (a : verify_args) (heap : list Z) : outcome Z * list Z :=
  match type_tag (v_type a) with
  | None => (Ret (error_code ARGON2_INCORRECT_TYPE), heap)
  | Some _ =>
      let text := map chr (c_string_at heap (u32 (v_encoded a))) in
      match decode_string text with
      | None => (Ret (error_code ARGON2_DECODING_FAIL), heap)
      | Some d =>
          if negb (d_type d =? v_type a)
          then (Ret (error_code ARGON2_DECODING_FAIL), heap)
          else
            match validate (Z.of_nat (length (d_digest d))) (d_m_cost d)
                           (d_t_cost d) (d_parallelism d) with
            | Some e => (Ret (error_code e), heap)
            | None =>
                let pwd := read_bytes heap (u32 (v_pwd a)) (u32 (v_pwdlen a)) in
                let digest :=
                  kdf (v_type a) (d_version d) (d_t_cost d) (d_m_cost d)
                      (d_parallelism d) pwd (d_salt d)
                      (Z.of_nat (length (d_digest d))) in
                if digests_equal digest (d_digest d)
                then (Ret (error_code ARGON2_OK), heap)
                else (Ret (error_code ARGON2_VERIFY_MISMATCH), heap)
            end
      end
  end.

Definition ref_error_message (c : Z) (heap : list Z) : outcome Z * list Z :=
  (Ret (message_ptr (error_of_code c)), heap).

Definition ref_core : Core :=
  {| _argon2_hash := ref_hash;
     _argon2_verify := ref_verify;
     _argon2_error_message := ref_error_message |}.

End Core.

(** The state of a freshly loaded module in a scope that declares none of
    the wrapper's free identifiers. *)
Definition state0 : state := State rodata ∅ ∅ [].

(** A small instance of the memory-hard function, to run the model: byte
    [i] of the digest is a checksum of all inputs plus [i]. *)
Definition checksum_kdf (ty version t m p : Z) (pwd salt : list Z) (outlen : Z)
  : list Z :=
  let sum := fold_right Z.add 0 in
  map (fun i => (ty + version + t + m + p + sum pwd + 3 * sum salt + 7 * i) mod 256)
      (seqZ 0 outlen).

End Reference.

Import Encoding Reference.
Local Open Scope list_scope.

(** ** Notions used in the statements *)

(** *** The runs of the wrapper *)

(** The array [allocateArray] copies to the heap. *)
Definition array_of (x : strOrArr) : list Z :=
  match x with Arr b => b | Str s => intArrayFromString s end.

(** The next address [_malloc] hands out. *)
Definition ptr_of (st : state) : Z := Z.of_nat (length (HEAP8 st)).

(** The state after [Module.allocate(slab, ...)]. *)
Definition st_alloc (st : state) (slab : list Z) : state :=
  State (HEAP8 st ++ malloc_bytes (map to_i8 slab))
        ({[ Z.of_nat (length (HEAP8 st)) ]} ∪ live st) (globals st) (trace st).

(** The state after [Module._free] of each of [ptrs]. *)
Definition st_free (st : state) (ptrs : list Z) : state :=
  State (HEAP8 st) (foldl (fun s p => s ∖ {[ p ]}) (live st) ptrs)
        (globals st) (trace st).

(** The value of [Module.Pointer_stringify(ptr)] on a heap. *)
Definition stringify (heap : list Z) (ptr : Z) : jsval :=
  if ptr =? 0 then JStr ""
  else
    let bytes := c_string_at heap ptr in
    if forallb (fun b => b <? 128) bytes then JStr (of_codes bytes)
    else JUtf8 bytes.

(** [{ message: msg, code: res }] *)
Definition error_object (msg res : jsval) : jsval :=
  JObj [("message", msg); ("code", res)].

(** [if (err) throw result; else return result] *)
Definition finish (msg result : jsval) : outcome jsval :=
  if truthy msg then Throw result else Ret result.

(** [res] and [err] after the [try] around the call of the module. *)
Definition res_of (r : outcome Z) : jsval :=
  match r with Ret n => JNum n | Throw _ => JUndefined end.
Definition err_of (r : outcome Z) : jsval :=
  match r with Ret _ => JUndefined | Throw e => e end.

(** The value of [params.type || argon2.ArgonType.Argon2d] in a state, or
    the exception its evaluation throws. *)
Definition hash_type (params : hash_params) (st : state) : outcome jsval :=
  fst ((if truthy (opt_num (hp_type params)) then ret (opt_num (hp_type params))
        else argon2_ArgonType_Argon2d) st).

(** [params.hashLen || 24] *)
Definition hash_len (params : hash_params) : Z := num_or (hp_hashLen params) 24.

(** The lengths [new Array] accepts. *)
Definition array_length_ok (n : Z) : Prop := 0 <= n <= 4294967295.

(** The states of [argon2Hash] after each of its four allocations. *)
Definition hash_st1 (params : hash_params) (st : state) : state :=
  st_alloc st (array_of (hp_pass params)).
Definition hash_st2 (params : hash_params) (st : state) : state :=
  st_alloc (hash_st1 params st) (array_of (hp_salt params)).
Definition hash_st3 (params : hash_params) (st : state) : state :=
  st_alloc (hash_st2 params st) (replicate (Z.to_nat (hash_len params)) 0).
Definition hash_st4 (params : hash_params) (st : state) : state :=
  st_alloc (hash_st3 params st) (replicate 512 0).

(** The arguments [argon2Hash] calls [_argon2_hash] with. *)
Definition hash_call_args (params : hash_params) (st : state) (argon2Type : jsval)
  : hash_args :=
  HashArgs (wrap32 (num_or (hp_time params) 1))
           (wrap32 (num_or (hp_mem params) 1024))
           (wrap32 (num_or (hp_parallelism params) 1))
           (wrap32 (ptr_of st)) (wrap32 (js_length (hp_pass params)))
           (wrap32 (ptr_of (hash_st1 params st)))
           (wrap32 (js_length (hp_salt params)))
           (wrap32 (ptr_of (hash_st2 params st))) (wrap32 (hash_len params))
           (wrap32 (ptr_of (hash_st3 params st))) (wrap32 512)
           (to_int32 argon2Type) (wrap32 19).

(** The call of [_argon2_hash] and the state it leaves. *)
Definition hash_call (core : Core) (params : hash_params) (st : state)
    (argon2Type : jsval) : outcome Z * list Z :=
  _argon2_hash core (hash_call_args params st argon2Type)
               (HEAP8 (hash_st4 params st)).
Definition hash_st5 (core : Core) (params : hash_params) (st : state)
    (argon2Type : jsval) : state :=
  log (EvHash (hash_call_args params st argon2Type)
              (hash_call core params st argon2Type).1)
      (set_heap (hash_st4 params st) (hash_call core params st argon2Type).2).

(** The states of [argon2Verify] after its two allocations. *)
Definition verify_st1 (params : verify_params) (st : state) : state :=
  st_alloc st (array_of (vp_pass params)).
Definition verify_st2 (params : verify_params) (st : state) : state :=
  st_alloc (verify_st1 params st) (array_of (vp_encoded params)).

(** The arguments [argon2Verify] calls [_argon2_verify] with. *)
Definition verify_call_args (params : verify_params) (st : state)
    (argon2Type : jsval) : verify_args :=
  VerifyArgs (wrap32 (ptr_of (verify_st1 params st))) (wrap32 (ptr_of st))
             (wrap32 (js_length (vp_pass params))) (to_int32 argon2Type).

(** The call of [_argon2_verify] and the state it leaves. *)
Definition verify_call (core : Core) (params : verify_params) (st : state)
    (argon2Type : jsval) : outcome Z * list Z :=
  _argon2_verify core (verify_call_args params st argon2Type)
                 (HEAP8 (verify_st2 params st)).
Definition verify_st3 (core : Core) (params : verify_params) (st : state)
    (argon2Type : jsval) : state :=
  log (EvVerify (verify_call_args params st argon2Type)
                (verify_call core params st argon2Type).1)
      (set_heap (verify_st2 params st) (verify_call core params st argon2Type).2).

(** The variant [argon2Verify] resolves, or the exception it throws; the
    state plays no part in it. *)
Definition verify_type (params : verify_params) : outcome jsval :=
  (verify_argon2Type params (State [] ∅ ∅ [])).1.

(** *** The specification's side *)

(** The variant a name stands for: the keys of [ArgonType]. *)
Definition variant_of_name (name : string) : option Z :=
  if String.eqb name "Argon2d" then Some 0
  else if String.eqb name "Argon2i" then Some 1
  else if String.eqb name "Argon2id" then Some 2
  else None.

(** The tag field of an encoded string: what follows the first [$]. *)
Definition tag_field (encoded : string) : option string :=
  split encoded "$" !! 1%nat.

(** The precedence rule: an explicit type wins; otherwise the tag decides,
    its first [a] in upper case; an unrecognised or missing tag gives
    Argon2d, which is 0. *)
Definition verify_variant (explicit : option Z) (encoded : string) : Z :=
  match explicit with
  | Some t => wrap32 t
  | None =>
      match tag_field encoded with
      | Some tag => default 0 (variant_of_name (replace_first "a" "A" tag))
      | None => 0
      end
  end.

(** Two lower-case hexadecimal digits per byte. *)
Definition lower_hex (d : Z) : ascii :=
  match String.get (Z.to_nat d) "0123456789abcdef" with
  | Some c => c
  | None => "?"%char
  end.

Definition hex2 (b : Z) : string :=
  String (lower_hex (b / 16)) (String (lower_hex (b mod 16)) EmptyString).

Definition hex_of_bytes (l : list Z) : string :=
  fold_right (fun b s => hex2 b +:+ s) "" l.

(** The [hashlen] bytes at [hash], as a [Uint8Array] holds them. *)
Definition digest_at (heap : list Z) (hash hashlen : Z) : list Z :=
  map (fun i => to_uint8 (heap_get heap (hash + i))) (seqZ 0 hashlen).

Definition byte_list (l : list Z) : Prop := Forall (fun b => 0 <= b < 256) l.

(** *** Invariants of the heap *)

(** Every live block lies below the end of the heap, where [_malloc]
    takes the next one from. *)
Definition live_ok (st : state) : Prop :=
  forall p, p ∈ live st -> p < ptr_of st.

(** The heap lies within the 32-bit address space. *)
Definition addressable (st : state) : Prop := ptr_of st <= 4294967296.

(** The module's read-only data is where it was loaded. *)
Definition rodata_ok (st : state) : Prop := exists k, HEAP8 st = rodata ++ k.

(** The module's own exports bound to a global [argon2]. *)
Definition exports : jsval :=
  JObj [("ArgonType", JObj ArgonType); ("hash", JFun "argon2Hash");
        ("verify", JFun "argon2Verify")].

(** *** What the reference module computes *)

(** The characters of the base64 alphabet. *)
Definition b64_ok (c : ascii) : Prop := is_Some (b64_value c).

(** 7-bit, NUL-free text *)
Definition plain (c : ascii) : Prop := 0 < code c < 128.

(** The bytes of a [{string|Uint8Array}] argument that the module reads:
    [x.length] bytes of the buffer [allocateArray] filled. *)
Definition seen (x : strOrArr) : list Z :=
  map to_u8 (take (Z.to_nat (u32 (wrap32 (js_length x))))
                  (malloc_bytes (map to_i8 (array_of x)))).

(** The text the module receives for the string [s]: its bytes up to the
    first NUL. *)
Definition c_text (s : string) : list ascii :=
  map chr (c_string (map to_i8 (intArrayFromString s))).

(** What is assumed of the memory-hard function: as many bytes as asked. *)
Definition kdf_ok (kdf : Z -> Z -> Z -> Z -> Z -> list Z -> list Z -> Z -> list Z)
  : Prop :=
  forall ty version t m p pwd salt n,
    length (kdf ty version t m p pwd salt n) = Z.to_nat n
    /\ Forall (fun b => 0 <= b < 256) (kdf ty version t m p pwd salt n).

(** A cost parameter as the module reads it. *)
Definition cost (x : Z) : Z := u32 (wrap32 x).

(** The blocks [allocateArray] and [new Array] put on the heap. *)
Definition buffer (x : strOrArr) : list Z := malloc_bytes (map to_i8 (array_of x)).
Definition zeros (n : Z) : list Z := malloc_bytes (map to_i8 (replicate (Z.to_nat n) 0)).

Section ReferenceRun.
Variable kdf : Z -> Z -> Z -> Z -> Z -> list Z -> list Z -> Z -> list Z.
Variable mem_ceiling : Z.

(** The digest and the encoded text [_argon2_hash] computes for a call of
    [argon2Hash] whose variant resolved to [ty]. *)
Definition ref_digest (params : hash_params) (ty : jsval) : list Z :=
  kdf (to_int32 ty) 19 (cost (num_or (hp_time params) 1))
      (cost (num_or (hp_mem params) 1024))
      (cost (num_or (hp_parallelism params) 1))
      (seen (hp_pass params)) (seen (hp_salt params)) (cost (hash_len params)).

Definition ref_text (params : hash_params) (ty : jsval) (tag : list ascii)
  : list ascii :=
  encode_string tag 19 (cost (num_or (hp_mem params) 1024))
    (cost (num_or (hp_time params) 1))
    (cost (num_or (hp_parallelism params) 1))
    (seen (hp_salt params)) (ref_digest params ty).

(** The validation of the parameters of a call of [argon2Hash]. *)
Definition ref_validate (params : hash_params) : option argon2_error :=
  validate mem_ceiling (cost (hash_len params))
    (cost (num_or (hp_mem params) 1024)) (cost (num_or (hp_time params) 1))
    (cost (num_or (hp_parallelism params) 1)).

(** What [_argon2_verify] answers for the text [text], the variant [ty]
    and the password bytes [pwd]. *)
Definition ref_verify_code (text : list ascii) (ty : Z) (pwd : list Z)
  : argon2_error :=
  match type_tag ty with
  | None => ARGON2_INCORRECT_TYPE
  | Some _ =>
      match decode_string text with
      | None => ARGON2_DECODING_FAIL
      | Some d =>
          if negb (d_type d =? ty) then ARGON2_DECODING_FAIL
          else
            match validate mem_ceiling (Z.of_nat (length (d_digest d)))
                           (d_m_cost d) (d_t_cost d) (d_parallelism d) with
            | Some e => e
            | None =>
                if digests_equal
                     (kdf ty (d_version d) (d_t_cost d) (d_m_cost d)
                          (d_parallelism d) pwd (d_salt d)
                          (Z.of_nat (length (d_digest d))))
                     (d_digest d)
                then ARGON2_OK else ARGON2_VERIFY_MISMATCH
            end
      end
  end.

End ReferenceRun.

(** [params] with its three cost fields replaced. *)
Definition with_costs (params : hash_params) (mem hashLen parallelism : option Z)
  : hash_params :=
  HashParams (hp_pass params) (hp_salt params) (hp_time params) mem hashLen
             parallelism (hp_type params).

(** *** Concrete inputs *)

(** The reference module over [checksum_kdf], with a ceiling of 4 GiB. *)
Definition core0 : Core := ref_core checksum_kdf 4194304.

Definition hash_params_i : hash_params :=
  HashParams (Str "password") (Str "somesalt") None None None None (Some 1).
Definition encoded_i : string :=
  "$argon2i$v=19$m=1024,t=1,p=1$c29tZXNhbHQ$wcjP1t3k6/L5AAcOFRwjKjE4P0ZNVFti".
Definition hash_params_default : hash_params :=
  HashParams (Str "password") (Str "somesalt") None None None None None.
Definition hash_params_short : hash_params :=
  HashParams (Str "password") (Str "somesalt") None None (Some 3) None (Some 1).
Definition hash_params_negative : hash_params :=
  HashParams (Str "password") (Str "somesalt") None None (Some (-1)) None (Some 1).
Definition hash_params_mixed : hash_params :=
  HashParams (Str "password") (Str "somesalt") (Some 0) (Some 2048) None (Some 0)
             (Some 1).
Definition hash_params_lanes0 : hash_params :=
  HashParams (Str "password") (Str "somesalt") None None None (Some 0) (Some 1).

(** Two one-character passwords, U+00E9 and U+00E3: in UTF-8 the bytes
    C3 A9 and C3 A3. *)
Definition e_acute : string := String (chr 233) EmptyString.
Definition a_tilde : string := String (chr 227) EmptyString.
Definition hash_params_e : hash_params :=
  HashParams (Str e_acute) (Str "somesalt") None None None None (Some 1).
Definition encoded_e : string :=
  "$argon2i$v=19$m=1024,t=1,p=1$c29tZXNhbHQ$ERgfJi00O0JJUFdeZWxzeoGIj5adpKuy".

(** [encoded_i], a NUL and one more character *)
Definition encoded_nul : string :=
  encoded_i +:+ String Ascii.zero "!".

(** *** The buffers at the call of the module *)

(** A 32-bit argument read as an address or as a length. *)
Definition unsigned (x : Z) : Z := x mod 4294967296.

(** The [len] bytes at [ptr], both as the module receives them, read
    through [HEAPU8]. *)
Definition heap_bytes (heap : list Z) (ptr len : Z) : list Z :=
  map to_u8 (take (Z.to_nat (unsigned len)) (drop (Z.to_nat (unsigned ptr)) heap)).

(** The UTF-8 bytes of a string, without the final 0 of
    [intArrayFromString]. *)
Definition utf8 (s : string) : list Z := concat (map utf8_char (codes s)).

(** The part of the buffer of a [{string|Uint8Array}] argument that its
    [length] delimits. *)
Definition argument_bytes (x : strOrArr) : list Z :=
  match x with
  | Arr b => map to_u8 b
  | Str s => take (String.length s) (utf8 s)
  end.

(** Two ranges of addresses, each a start and a length, that do not
    overlap. *)
Definition apart (b1 b2 : Z * Z) : Prop :=
  b1.1 + b1.2 <= b2.1 \/ b2.1 + b2.2 <= b1.1.

(** Characters other than NUL. *)
Definition no_nul (c : ascii) : Prop := c <> Ascii.zero.

(** Strings of code units below 128. *)
Definition seven_bit (s : string) : Prop := Forall (fun c => c < 128) (codes s).

(** *** Reading a hexadecimal string *)

(** The value of a digit [0-9a-f]. *)
Definition hex_value (c : ascii) : option Z :=
  let n := code c in
  if (48 <=? n) && (n <=? 57) then Some (n - 48)
  else if (97 <=? n) && (n <=? 102) then Some (n - 87)
  else None.

(** The bytes a string of lower-case hexadecimal digit pairs stands for. *)
Fixpoint unhex (s : string) : option (list Z) :=
  match s with
  | EmptyString => Some []
  | String h (String l rest) =>
      match hex_value h, hex_value l, unhex rest with
      | Some a, Some b, Some bytes => Some (16 * a + b :: bytes)
      | _, _, _ => None
      end
  | String _ EmptyString => None
  end.

(** *** [loadScript] *)

(** The state of a promise. *)
Inductive promise :=
| Pending
| Fulfilled (value : jsval)
| Rejected (reason : jsval).

(** The two functions a promise hands to its executor: the first call of
    either settles the promise, every later call does nothing. *)
Definition resolve (value : jsval) (p : promise) : promise :=
  match p with Pending => Fulfilled value | _ => p end.
Definition reject (reason : jsval) (p : promise) : promise :=
  match p with Pending => Rejected reason | _ => p end.

(** A [script] element as [loadScript] leaves it: its [src] and its two
    handlers, which act on the promise they close over. *)
Record script := Script {
  el_src : string;
  el_onload : promise -> promise;
  el_onerror : promise -> promise }.

(** The scope [loadScript] runs in.  [importScripts] is [Some f] when
    [typeof importScripts] is ['function'], with [f src] the way the call
    ends.  [document_body] is [None] when no [document] is declared,
    [Some None] when [document.body] is [null], and the children of the body
    otherwise.  [imported] lists the sources handed to [importScripts],
    oldest first. *)
Record scope := Scope {
  importScripts : option (string -> outcome unit);
  document_body : option (option (list script));
  imported : list string }.

(** Lines 14-27.  The executor of [new Promise] runs at once; an exception
    it throws rejects the promise. *)
Definition loadScript (src : string) (sc : scope) : promise * scope :=
  match importScripts sc with
  | Some f =>
      let sc' := Scope (importScripts sc) (document_body sc) (imported sc ++ [src]) in
      match f src with
      | Ret _ => (resolve JUndefined Pending, sc')
      | Throw e => (reject e Pending, sc')
      end
  | None =>
      match document_body sc with
      | None =>
          (reject (JErr "ReferenceError" "document is not defined") Pending, sc)
      | Some None =>
          (reject (JErr "TypeError" "Cannot read property 'appendChild' of null")
                  Pending, sc)
      | Some (Some children) =>
          let el := Script src (resolve JUndefined)
                           (reject (JStr "Error loading script")) in
          (Pending,
           Scope (importScripts sc) (Some (Some (children ++ [el]))) (imported sc))
      end
  end.

(** The events of a [script] element. *)
Inductive script_event := ScriptLoad | ScriptError.

Definition fire (el : script) (ev : script_event) (p : promise) : promise :=
  match ev with ScriptLoad => el_onload el p | ScriptError => el_onerror el p end.

(** Several scripts, one after the other. *)
Definition loadScripts (srcs : list string) (sc : scope) : list promise * scope :=
  foldl (fun '(ps, sc) src => let '(p, sc') := loadScript src sc in (ps ++ [p], sc'))
        ([], sc) srcs.

(** *** Further concrete inputs *)

(** A global [argon2] of the page's own, whose [ArgonType.Argon2d] is 2. *)
Definition other_argon2 : jsval :=
  JObj [("ArgonType", JObj [("Argon2d", JNum 2)])].

(** A document with an empty body, and a worker whose [importScripts]
    fails for every source but [ok.js]. *)
Definition empty_document : scope := Scope None (Some (Some [])) [].
Definition picky_worker : scope :=
  Scope (Some (fun src => if String.eqb src "ok.js" then Ret tt
                          else Throw (JErr "NetworkError" "failed to load")))
        None [].

(** * Proofs *)

(** ** The base64 codec of the encoded string *)

Section Codec.

Lemma code_range c : 0 <= code c < 256.
Proof.
  unfold code. pose proof (N_ascii_bounded c). lia.
Qed.

Lemma chr_code c : chr (code c) = c.
Proof.
  unfold chr, code. pose proof (N_ascii_bounded c).
  rewrite Z.mod_small by lia. rewrite N2Z.id. apply ascii_N_embedding.
Qed.

Lemma code_chr n : code (chr n) = n mod 256.
Proof.
  unfold chr, code. pose proof (Z.mod_pos_bound n 256 ltac:(lia)).
  rewrite N_ascii_embedding by lia. lia.
Qed.

Lemma map_chr_code (l : list ascii) : map chr (map code l) = l.
Proof. induction l as [|c l IH]; simpl; [done|]. by rewrite chr_code, IH. Qed.

Lemma b64_value_char v : 0 <= v < 64 -> b64_value (b64_char v) = Some v.
Proof.
  intros Hv.
  assert (H : forallb (fun v => bool_decide (b64_value (b64_char v) = Some v)) (seqZ 0 64) = true)
    by (vm_compute; reflexivity).
  rewrite forallb_forall in H.
  specialize (H v). rewrite bool_decide_eq_true in H. apply H.
  apply list_elem_of_In, elem_of_seqZ. lia.
Qed.

Lemma b64_value_range c v : b64_value c = Some v -> 0 <= v < 64.
Proof.
  unfold b64_value. pose proof (code_range c).
  repeat case_match; intros; simplify_eq; lia.
Qed.

Lemma b64_ok_code c : b64_ok c -> 43 <= code c < 123.
Proof.
  intros [v Hv]. revert Hv. unfold b64_value.
  repeat case_match; intros; simplify_eq; lia.
Qed.

Lemma b64_triple a b c :
  0 <= a < 256 -> 0 <= b < 256 -> 0 <= c < 256 ->
  (0 <= a / 4 < 64) /\ (0 <= a mod 4 * 16 + b / 16 < 64) /\
  (0 <= b mod 16 * 4 + c / 64 < 64) /\ (0 <= c mod 64 < 64) /\
  a / 4 * 4 + (a mod 4 * 16 + b / 16) / 16 = a /\
  (a mod 4 * 16 + b / 16) mod 16 * 16 + (b mod 16 * 4 + c / 64) / 4 = b /\
  (b mod 16 * 4 + c / 64) mod 4 * 64 + c mod 64 = c.
Proof.
  intros Ha Hb Hc.
  assert (Hdiv : forall x y k, 0 < k -> 0 <= y < k -> (x * k + y) / k = x).
  { intros x y k Hk Hy. symmetry. apply Z.div_unique with y; lia. }
  assert (Hmod : forall x y k, 0 < k -> 0 <= y < k -> (x * k + y) mod k = y).
  { intros x y k Hk Hy. symmetry. apply Z.mod_unique with x; lia. }
  pose proof (Z.div_mod a 4 ltac:(lia)). pose proof (Z.mod_pos_bound a 4 ltac:(lia)).
  pose proof (Z.div_mod b 16 ltac:(lia)). pose proof (Z.mod_pos_bound b 16 ltac:(lia)).
  pose proof (Z.div_mod c 64 ltac:(lia)). pose proof (Z.mod_pos_bound c 64 ltac:(lia)).
  assert (0 <= a / 4 < 64) by lia.
  assert (0 <= b / 16 < 16) by lia.
  assert (0 <= c / 64 < 4) by lia.
  rewrite (Hdiv (a mod 4) (b / 16) 16), (Hmod (a mod 4) (b / 16) 16) by lia.
  replace (b mod 16 * 4 + c / 64) with (b mod 16 * 4 + c / 64) by done.
  rewrite (Hdiv (b mod 16) (c / 64) 4), (Hmod (b mod 16) (c / 64) 4) by lia.
  lia.
Qed.

Lemma b64_decode_encode l :
  Forall (fun b => 0 <= b < 256) l -> b64_decode (b64_encode l) = Some l.
Proof.
  remember (length l) as n eqn:Hn. revert l Hn.
  induction n as [n IH] using lt_wf_ind. intros l Hn Hl.
  destruct l as [|a [|b [|c rest]]]; [done| | |].
  - apply Forall_cons in Hl as [Ha _].
    destruct (b64_triple a 0 0) as (?&?&?&?&?&?&?); [lia..|].
    change (0 / 16) with 0 in *. rewrite Z.add_0_r in *.
    cbn [b64_encode b64_decode]. rewrite !b64_value_char by lia. simpl.
    do 2 f_equal. lia.
  - apply Forall_cons in Hl as [Ha Hl]. apply Forall_cons in Hl as [Hb _].
    destruct (b64_triple a b 0) as (?&?&?&?&?&?&?); [lia..|].
    change (0 / 64) with 0 in *. rewrite Z.add_0_r in *.
    cbn [b64_encode b64_decode]. rewrite !b64_value_char by lia. simpl.
    do 2 f_equal; [lia|]. f_equal. lia.
  - apply Forall_cons in Hl as [Ha Hl]. apply Forall_cons in Hl as [Hb Hl].
    apply Forall_cons in Hl as [Hc Hl].
    destruct (b64_triple a b c) as (?&?&?&?&?&?&?); [lia..|].
    cbn [b64_encode b64_decode]. rewrite !b64_value_char by lia. simpl.
    rewrite (IH (length rest)) by (simpl in *; auto; lia). simpl.
    do 2 f_equal; [lia|]. f_equal; [lia|]. f_equal. lia.
Qed.

Lemma b64_encode_ok l :
  Forall (fun b => 0 <= b < 256) l -> Forall b64_ok (b64_encode l).
Proof.
  remember (length l) as n eqn:Hn. revert l Hn.
  induction n as [n IH] using lt_wf_ind. intros l Hn Hl.
  assert (Hok : forall v, 0 <= v < 64 -> b64_ok (b64_char v)).
  { intros v Hv. exists v. by apply b64_value_char. }
  destruct l as [|a [|b [|c rest]]]; [constructor| | |].
  - apply Forall_cons in Hl as [Ha _].
    destruct (b64_triple a 0 0) as (?&?&?&?&?&?&?); [lia..|].
    change (0 / 16) with 0 in *. rewrite Z.add_0_r in *.
    cbn [b64_encode]. repeat constructor; apply Hok; lia.
  - apply Forall_cons in Hl as [Ha Hl]. apply Forall_cons in Hl as [Hb _].
    destruct (b64_triple a b 0) as (?&?&?&?&?&?&?); [lia..|].
    change (0 / 64) with 0 in *. rewrite Z.add_0_r in *.
    cbn [b64_encode]. repeat constructor; apply Hok; lia.
  - apply Forall_cons in Hl as [Ha Hl]. apply Forall_cons in Hl as [Hb Hl].
    apply Forall_cons in Hl as [Hc Hl].
    destruct (b64_triple a b c) as (?&?&?&?&?&?&?); [lia..|].
    cbn [b64_encode]. repeat (constructor; [apply Hok; lia|]).
    eapply IH; [|reflexivity|done]. simpl in *. lia.
Qed.

End Codec.

(** ** Decoding what was encoded *)

Lemma parse_dec_dec n : 0 <= n -> parse_dec (dec n) = Some n.
Proof.
  intros Hn. unfold parse_dec, dec.
  rewrite string_of_list_ascii_of_string.
  rewrite NilZero.usu.
  - rewrite DecimalN.Unsigned.of_to. f_equal. lia.
  - destruct (Z.to_N n); simpl; [discriminate|].
    apply DecimalPos.Unsigned.to_uint_nonnil.
Qed.

Lemma digits_ok d :
  Forall b64_ok (list_ascii_of_string (NilEmpty.string_of_uint d)).
Proof.
  induction d; simpl; constructor; try done; by eexists.
Qed.

Lemma dec_ok n : Forall b64_ok (dec n).
Proof.
  unfold dec, NilZero.string_of_uint.
  destruct (N.to_uint (Z.to_N n)); try apply (digits_ok (_ _)).
  repeat constructor. by eexists.
Qed.

Lemma type_tag_ok ty tag : type_tag ty = Some tag -> Forall b64_ok tag.
Proof.
  unfold type_tag. repeat case_match; intros; simplify_eq;
    repeat constructor; by eexists.
Qed.

Lemma tag_type_tag ty tag : type_tag ty = Some tag -> tag_type tag = Some ty.
Proof.
  unfold type_tag. repeat case_match; intros; simplify_eq; vm_compute; f_equal; lia.
Qed.

(** Splitting an encoded string at its [$] signs *)
Lemma split_on_none sep s :
  Forall (fun c => c <> sep) s -> split_on sep s = [s].
Proof.
  induction 1 as [|c s Hc Hs IH]; [done|]. simpl.
  rewrite IH. destruct (Ascii.eqb_spec c sep); [done|done].
Qed.

Lemma split_on_app sep a b :
  Forall (fun c => c <> sep) a ->
  split_on sep (a ++ sep :: b) = a :: split_on sep b.
Proof.
  induction 1 as [|c s Hc Hs IH]; simpl.
  - by rewrite Ascii.eqb_refl.
  - rewrite IH. destruct (Ascii.eqb_spec c sep); done.
Qed.

Lemma b64_ok_not c sep : b64_value sep = None -> b64_ok c -> c <> sep.
Proof. intros Hs [v Hv] ->. congruence. Qed.

Lemma Forall_b64_not sep s :
  b64_value sep = None -> Forall b64_ok s -> Forall (fun c => c <> sep) s.
Proof.
  intros Hs H. eapply Forall_impl; [exact H|]. intros c. by apply b64_ok_not.
Qed.

Lemma strip_prefix_app p s : strip_prefix p (p ++ s) = Some s.
Proof. induction p as [|a p IH]; simpl; [done|]. by rewrite Ascii.eqb_refl. Qed.

Lemma field_dec name n : 0 <= n -> field name (lit name ++ dec n) = Some n.
Proof.
  intros. unfold field. rewrite strip_prefix_app. simpl. by apply parse_dec_dec.
Qed.

Lemma split_encode tag version m t p salt digest :
  Forall b64_ok tag -> byte_list salt -> byte_list digest ->
  split_on "$" (encode_string tag version m t p salt digest)
  = [ []; tag; lit "v=" ++ dec version;
      lit "m=" ++ dec m ++ lit ",t=" ++ dec t ++ lit ",p=" ++ dec p;
      b64_encode salt; b64_encode digest ].
Proof.
  intros Htag Hsalt Hdigest. unfold encode_string.
  assert (Hd : forall s, Forall b64_ok s -> Forall (fun c => c <> "$"%char) s)
    by (intros; by apply Forall_b64_not).
  assert (Hl : forall s, Forall (fun c => c <> "$"%char) (lit s) <->
                         forallb (fun c => negb (Ascii.eqb c "$")) (lit s) = true).
  { intros s. rewrite forallb_forall, Forall_forall.
    setoid_rewrite negb_true_iff. setoid_rewrite Ascii.eqb_neq.
    by setoid_rewrite list_elem_of_In. }
  change (lit "$" ++ ?x) with ([] ++ "$"%char :: x).
  rewrite split_on_app by constructor. f_equal.
  change (lit "$v=" ++ ?x) with ("$"%char :: (lit "v=" ++ x)).
  rewrite split_on_app by auto. f_equal.
  change (lit "$m=" ++ ?x) with ("$"%char :: (lit "m=" ++ x)).
  rewrite (app_assoc (lit "v=")).
  rewrite split_on_app.
  2:{ apply Forall_app; split; [by apply Hl|]. apply Hd, dec_ok. }
  f_equal.
  change (lit "$" ++ ?x) with ("$"%char :: x).
  do 5 rewrite (app_assoc _ _ (_ :: _)).
  rewrite split_on_app.
  2:{ repeat (apply Forall_app; split); try (by apply Hl); apply Hd, dec_ok. }
  rewrite <- ?app_assoc. f_equal.
  change (lit "$" ++ ?x) with ("$"%char :: x).
  rewrite split_on_app by (apply Hd; by apply b64_encode_ok). f_equal.
  rewrite split_on_none; [done|]. apply Hd; by apply b64_encode_ok.
Qed.

Lemma split_costs m t p :
  split_on "," (lit "m=" ++ dec m ++ lit ",t=" ++ dec t ++ lit ",p=" ++ dec p)
  = [lit "m=" ++ dec m; lit "t=" ++ dec t; lit "p=" ++ dec p].
Proof.
  assert (Hd : forall n, Forall (fun c => c <> ","%char) (dec n))
    by (intros; apply Forall_b64_not; [done|apply dec_ok]).
  change (lit ",t=" ++ ?x) with (","%char :: (lit "t=" ++ x)).
  change (lit ",p=" ++ ?x) with (","%char :: (lit "p=" ++ x)).
  rewrite (app_assoc (lit "m=")).
  rewrite split_on_app.
  2:{ apply Forall_app; split; [|apply Hd]. repeat constructor; done. }
  f_equal. rewrite (app_assoc (lit "t=")).
  rewrite split_on_app.
  2:{ apply Forall_app; split; [|apply Hd]. repeat constructor; done. }
  f_equal. rewrite split_on_none; [done|].
  apply Forall_app; split; [|apply Hd]. repeat constructor; done.
Qed.

Lemma decode_encode ty tag version m t p salt digest :
  type_tag ty = Some tag ->
  0 <= version -> 0 <= m -> 0 <= t -> 0 <= p ->
  byte_list salt -> byte_list digest ->
  decode_string (encode_string tag version m t p salt digest)
  = Some (Decoded ty version m t p salt digest).
Proof.
  intros Htag Hv Hm Ht Hp Hsalt Hdigest. unfold decode_string.
  rewrite split_encode by eauto using type_tag_ok.
  cbv beta iota. rewrite split_costs. cbv beta iota.
  rewrite (tag_type_tag ty), !field_dec, !b64_decode_encode by done.
  done.
Qed.

(** ** The steps of the wrapper *)

Section WrapperLemmas.

Context (core : Core).

Lemma allocate_run slab st :
  allocate slab st = (Ret (Z.of_nat (length (HEAP8 st))), st_alloc st slab).
Proof. reflexivity. Qed.

Lemma allocateArray_run x st :
  allocateArray x st = (Ret (Z.of_nat (length (HEAP8 st))), st_alloc st (array_of x)).
Proof. by destruct x. Qed.

Lemma Pointer_stringify_run ptr st :
  Pointer_stringify ptr st = (Ret (stringify (HEAP8 st) ptr), st).
Proof.
  unfold Pointer_stringify, stringify. by repeat case_match.
Qed.

Lemma set_heap_id st : set_heap st (HEAP8 st) = st.
Proof. by destruct st. Qed.

Lemma error_result_run res err st :
  exists msg heap,
    error_result core res err st
    = (Ret (error_object msg res, msg), set_heap st heap)
    /\ (truthy err = true -> msg = err /\ heap = HEAP8 st).
Proof.
  unfold error_result, bind, try_catch, call_argon2_error_message.
  destruct (truthy err) eqn:Herr; simpl.
  - exists err, (HEAP8 st). by rewrite set_heap_id.
  - destruct (_argon2_error_message core (to_int32 res) (HEAP8 st))
      as [[ptr|e] heap] eqn:Hmsg.
    + rewrite Pointer_stringify_run. simpl. eexists _, _. split; [done|done].
    + simpl. eexists _, _. split; [done|done].
Qed.

Lemma hash_result_ok pwd salt hash encoded hashlen st :
  hash_result core pwd salt hash encoded hashlen (JNum 0) JUndefined st
  = (Ret (JObj [("hash", JBytes (hash_loop (HEAP8 st) hash hashlen).1);
                ("hashHex", JStr (hash_loop (HEAP8 st) hash hashlen).2);
                ("encoded", stringify (HEAP8 st) encoded)]),
     st_free st [pwd; salt; hash; encoded]).
Proof.
  unfold hash_result, bind, get_heap. simpl.
  destruct (hash_loop (HEAP8 st) hash hashlen) as [hashArr hashStr].
  rewrite Pointer_stringify_run. reflexivity.
Qed.

Lemma hash_result_fail pwd salt hash encoded hashlen res err st :
  strict_eq_zero res && negb (truthy err) = false ->
  exists msg heap,
    hash_result core pwd salt hash encoded hashlen res err st
    = (finish msg (error_object msg res),
       st_free (set_heap st heap) [pwd; salt; hash; encoded])
    /\ (truthy err = true -> msg = err /\ heap = HEAP8 st).
Proof.
  intros Hfail. unfold hash_result, bind at 1. rewrite Hfail.
  destruct (error_result_run res err st) as (msg & heap & -> & Hmsg).
  exists msg, heap. split; [|done].
  unfold finish, bind, try_catch, throw, ret. simpl.
  by destruct (truthy msg).
Qed.

Lemma verify_result_ok pwd enc res err st :
  truthy res || truthy err = false ->
  verify_result core pwd enc res err st
  = (Ret JUndefined, st_free st [pwd; enc]).
Proof.
  intros Hok. unfold verify_result, bind at 1. rewrite Hok.
  apply orb_false_iff in Hok as [_ Herr].
  unfold bind, try_catch, throw, ret. simpl. by rewrite Herr.
Qed.

Lemma verify_result_fail pwd enc res err st :
  truthy res || truthy err = true ->
  exists msg heap,
    verify_result core pwd enc res err st
    = (finish msg (error_object msg res),
       st_free (set_heap st heap) [pwd; enc])
    /\ (truthy err = true -> msg = err /\ heap = HEAP8 st).
Proof.
  intros Hfail. unfold verify_result, bind at 1. rewrite Hfail.
  destruct (error_result_run res err st) as (msg & heap & -> & Hmsg).
  exists msg, heap. split; [|done].
  unfold finish, bind, try_catch, throw, ret. simpl.
  by destruct (truthy msg).
Qed.

End WrapperLemmas.

(** ** The wrapper up to its call of the module *)

Section WrapperRuns.

Context (core : Core).

Lemma type_expr_run params st :
  (if truthy (opt_num (hp_type params)) then ret (opt_num (hp_type params))
   else argon2_ArgonType_Argon2d) st = (hash_type params st, st).
Proof.
  unfold hash_type. destruct (truthy _); [done|].
  unfold argon2_ArgonType_Argon2d, bind, global_var.
  destruct (globals st !! "argon2") as [v|]; [|done].
  destruct v; try done.
  simpl. by destruct (get_property _ _).
Qed.

Lemma hash_type_globals params st st' :
  globals st' = globals st -> hash_type params st' = hash_type params st.
Proof.
  intros Hg. unfold hash_type. destruct (truthy _); [done|].
  unfold argon2_ArgonType_Argon2d, bind, global_var. rewrite Hg.
  destruct (globals st !! "argon2") as [v|]; [|done].
  destruct v; try done.
  simpl. by destruct (get_property _ _).
Qed.

Lemma new_Array_ok n :
  array_length_ok n -> new_Array n = ret (replicate (Z.to_nat n) 0).
Proof.
  intros [? ?]. unfold new_Array.
  destruct (n <? 0) eqn:?; [lia|]. destruct (4294967295 <? n) eqn:?; [lia|done].
Qed.

Lemma argon2Hash_range params st :
  ~ array_length_ok (hash_len params) ->
  argon2Hash core params st
  = (Throw (JErr "RangeError" "Invalid array length"), hash_st2 params st).
Proof.
  intros Hlen. unfold argon2Hash, bind at 1. rewrite allocateArray_run.
  unfold bind at 1. rewrite allocateArray_run.
  unfold bind at 1, new_Array. fold (hash_len params).
  destruct ((hash_len params <? 0) || (4294967295 <? hash_len params)) eqn:Hb; [done|].
  exfalso. apply Hlen. unfold array_length_ok.
  apply orb_false_iff in Hb as [? ?]. lia.
Qed.

Lemma argon2Hash_type_throws params st e :
  array_length_ok (hash_len params) ->
  hash_type params st = Throw e ->
  argon2Hash core params st = (Throw e, hash_st4 params st).
Proof.
  intros Hlen Hty. unfold argon2Hash, bind at 1. rewrite allocateArray_run.
  unfold bind at 1. rewrite allocateArray_run.
  fold (hash_len params). rewrite !new_Array_ok by (done || (unfold array_length_ok; lia)).
  unfold bind at 1, ret at 1. unfold bind at 1. rewrite allocate_run.
  unfold bind at 1, ret at 1. unfold bind at 1. rewrite allocate_run.
  unfold bind at 1. rewrite type_expr_run.
  fold (hash_st1 params st) (hash_st2 params st) (hash_st3 params st).
  change (st_alloc (hash_st3 params st) (replicate (Z.to_nat 512) 0))
    with (hash_st4 params st).
  rewrite (hash_type_globals params st) by done. by rewrite Hty.
Qed.

Lemma argon2Hash_call params st ty :
  array_length_ok (hash_len params) ->
  hash_type params st = Ret ty ->
  argon2Hash core params st
  = hash_result core (ptr_of st) (ptr_of (hash_st1 params st))
      (ptr_of (hash_st2 params st)) (ptr_of (hash_st3 params st))
      (hash_len params) (res_of (hash_call core params st ty).1)
      (err_of (hash_call core params st ty).1) (hash_st5 core params st ty).
Proof.
  intros Hlen Hty. unfold hash_st5, hash_call.
  set (a := hash_call_args params st ty).
  set (r := _argon2_hash core a (HEAP8 (hash_st4 params st))).
  unfold argon2Hash, bind at 1. rewrite allocateArray_run.
  unfold bind at 1. rewrite allocateArray_run.
  fold (hash_len params). rewrite !new_Array_ok by (done || (unfold array_length_ok; lia)).
  unfold bind at 1, ret at 1. unfold bind at 1. rewrite allocate_run.
  unfold bind at 1, ret at 1. unfold bind at 1. rewrite allocate_run.
  unfold bind at 1. rewrite type_expr_run.
  fold (hash_st1 params st) (hash_st2 params st) (hash_st3 params st).
  change (st_alloc (hash_st3 params st) (replicate (Z.to_nat 512) 0))
    with (hash_st4 params st).
  rewrite (hash_type_globals params st) by done. rewrite Hty.
  unfold bind at 1, try_catch, bind at 1, call_argon2_hash.
  fold (ptr_of st) (ptr_of (hash_st1 params st)) (ptr_of (hash_st2 params st))
       (ptr_of (hash_st3 params st)).
  change (HashArgs _ _ _ _ _ _ _ _ _ _ _ _ _) with a.
  fold r. destruct r as [[n|e] heap]; reflexivity.
Qed.

Lemma verify_type_run params st :
  verify_argon2Type params st = (verify_type params, st).
Proof.
  unfold verify_type.
  unfold verify_argon2Type. destruct (is_undefined _); [|done].
  unfold bind, split_dollar_1. destruct (vp_encoded params); [|done].
  simpl. destruct (split s "$" !! 1%nat); [|done].
  simpl. by destruct (negb _).
Qed.

Lemma argon2Verify_type_throws params st e :
  verify_type params = Throw e ->
  argon2Verify core params st = (Throw e, verify_st2 params st).
Proof.
  intros Hty. unfold argon2Verify, bind at 1. rewrite allocateArray_run.
  unfold bind at 1. rewrite allocateArray_run.
  unfold bind at 1. rewrite verify_type_run, Hty. done.
Qed.

Lemma argon2Verify_call params st ty :
  verify_type params = Ret ty ->
  argon2Verify core params st
  = verify_result core (ptr_of st) (ptr_of (verify_st1 params st))
      (res_of (verify_call core params st ty).1)
      (err_of (verify_call core params st ty).1) (verify_st3 core params st ty).
Proof.
  intros Hty. unfold verify_st3, verify_call.
  set (a := verify_call_args params st ty).
  set (r := _argon2_verify core a (HEAP8 (verify_st2 params st))).
  unfold argon2Verify, bind at 1. rewrite allocateArray_run.
  unfold bind at 1. rewrite allocateArray_run.
  unfold bind at 1. rewrite verify_type_run, Hty.
  unfold bind at 1, try_catch, bind at 1, call_argon2_verify.
  fold (verify_st1 params st) (verify_st2 params st).
  fold (ptr_of st) (ptr_of (verify_st1 params st)).
  change (VerifyArgs _ _ _ _) with a.
  fold r. destruct r as [[n|e] heap]; reflexivity.
Qed.

End WrapperRuns.

(** ** The hexadecimal digest *)

Lemma append_assoc (a b c : string) : (a +:+ b) +:+ c = a +:+ (b +:+ c).
Proof.
  induction a as [|x a IH]; [done|].
  change (String x ((a +:+ b) +:+ c) = String x (a +:+ (b +:+ c))).
  by rewrite IH.
Qed.

Lemma length_append (a b : string) :
  String.length (a +:+ b) = (String.length a + String.length b)%nat.
Proof.
  induction a as [|x a IH]; [done|].
  change (S (String.length (a +:+ b)) = S (String.length a + String.length b)).
  by rewrite IH.
Qed.

Lemma hex_of_bytes_snoc l b : hex_of_bytes (l ++ [b]) = hex_of_bytes l +:+ hex2 b.
Proof.
  induction l as [|x l IH]; simpl; [done|]. by rewrite IH, append_assoc.
Qed.

Lemma hex_of_bytes_length l :
  String.length (hex_of_bytes l) = (2 * length l)%nat.
Proof.
  induction l as [|x l IH]; simpl; [done|].
  rewrite length_append, IH. simpl. lia.
Qed.

Lemma wrap32_mod256 n : wrap32 n mod 256 = n mod 256.
Proof.
  unfold wrap32.
  pose proof (Z.div_mod (n + 2147483648) 4294967296 ltac:(lia)) as H.
  replace ((n + 2147483648) mod 4294967296 - 2147483648)
    with (n + (- (16777216 * ((n + 2147483648) / 4294967296))) * 256) by lia.
  apply Z.mod_add. lia.
Qed.

Lemma land_255_to_int32 v : Z.land 255 (to_int32 v) = to_uint8 v.
Proof.
  rewrite Z.land_comm. change 255 with (Z.ones 8).
  rewrite Z.land_ones by lia. change (2 ^ 8) with 256.
  destruct v; simpl; try done. apply wrap32_mod256.
Qed.

Lemma to_uint8_range v : 0 <= to_uint8 v < 256.
Proof. destruct v; simpl; try lia. apply Z.mod_pos_bound. lia. Qed.

Lemma hex_digit_lower d : 0 <= d < 16 -> hex_digit d = lower_hex d.
Proof.
  intros Hd.
  assert (H : forallb (fun d => bool_decide (hex_digit d = lower_hex d)) (seqZ 0 16) = true)
    by (vm_compute; reflexivity).
  rewrite forallb_forall in H. specialize (H d).
  rewrite bool_decide_eq_true in H. apply H.
  apply list_elem_of_In, elem_of_seqZ. lia.
Qed.

Lemma hex_step v :
  slice_last2 ("0" +:+ toString16 (Z.land 255 (to_int32 v))) = hex2 (to_uint8 v).
Proof.
  rewrite land_255_to_int32. pose proof (to_uint8_range v) as Hb.
  set (b := to_uint8 v) in *. unfold toString16, hex2.
  assert (0 <= b / 16 < 16) by (split; [apply Z.div_pos|apply Z.div_lt_upper_bound]; lia).
  pose proof (Z.mod_pos_bound b 16 ltac:(lia)).
  rewrite <- !hex_digit_lower by lia.
  destruct (b <? 16) eqn:Hlt.
  - rewrite Z.div_small, Z.mod_small by lia. reflexivity.
  - reflexivity.
Qed.

Lemma hash_loop_prefix heap hash (n k : nat) :
  (k <= n)%nat ->
  fold_left
    (fun '(hashArr, hashStr) i =>
       let byte := heap_get heap (hash + i) in
       (<[ Z.to_nat i := to_uint8 byte ]> hashArr,
        hashStr +:+ slice_last2 ("0" +:+ toString16 (Z.land 255 (to_int32 byte)))))
    (seqZ 0 (Z.of_nat k)) (replicate n 0, "")
  = (digest_at heap hash (Z.of_nat k) ++ replicate (n - k) 0,
     hex_of_bytes (digest_at heap hash (Z.of_nat k))).
Proof.
  induction k as [|k IH]; intros Hk.
  - simpl. by rewrite Nat.sub_0_r.
  - rewrite seqZ_S, fold_left_app, IH by lia. simpl.
    unfold digest_at. rewrite seqZ_S, map_app. simpl.
    rewrite hex_step, hex_of_bytes_snoc. f_equal.
    rewrite Z.add_0_l, Nat2Z.id.
    replace (n - k)%nat with (S (n - S k)) by lia.
    rewrite insert_app_r_alt by (rewrite length_map, length_seqZ; lia).
    rewrite length_map, length_seqZ, Nat2Z.id, Nat.sub_diag. simpl.
    by rewrite <- app_assoc.
Qed.

Lemma hash_loop_run heap hash hashlen :
  hash_loop heap hash hashlen
  = (digest_at heap hash hashlen, hex_of_bytes (digest_at heap hash hashlen)).
Proof.
  unfold hash_loop. destruct (Z.le_gt_cases 0 hashlen) as [Hn|Hn].
  - assert (Heq : hashlen = Z.of_nat (Z.to_nat hashlen)) by lia.
    set (n := Z.to_nat hashlen) in *. clearbody n. subst hashlen.
    pose proof (hash_loop_prefix heap hash n n (le_n _)) as H.
    cbv zeta in H |- *. rewrite H.
    by rewrite Nat.sub_diag, app_nil_r.
  - unfold digest_at. rewrite seqZ_nil by lia.
    replace (Z.to_nat hashlen) with 0%nat by lia. done.
Qed.

Lemma digest_at_length heap hash hashlen :
  0 <= hashlen -> Z.of_nat (length (digest_at heap hash hashlen)) = hashlen.
Proof. intros. unfold digest_at. rewrite length_map, length_seqZ. lia. Qed.

Lemma digest_at_bytes heap hash hashlen :
  Forall (fun b => 0 <= b < 256) (digest_at heap hash hashlen).
Proof.
  unfold digest_at. apply Forall_map, Forall_forall. intros. apply to_uint8_range.
Qed.

(** ** The wrapper over any module *)

Section AnyCore.

Context (core : Core).

Lemma lookup_variant name :
  to_int32 (js_or (get_property ArgonType name) (get_property ArgonType "Argon2d"))
  = default 0 (variant_of_name name).
Proof.
  unfold get_property, variant_of_name, ArgonType, own_property.
  rewrite !(String.eqb_sym _ name).
  repeat (case_match; simplify_eq/=; try done).
Qed.

Lemma verify_type_value pass s ty :
  exists v,
    verify_type (VerifyParams pass (Str s) ty) = Ret v
    /\ to_int32 v = verify_variant ty s.
Proof.
  unfold verify_type, verify_argon2Type, verify_variant, tag_field. simpl.
  destruct ty as [t|]; simpl; [by eexists|].
  unfold bind. simpl. destruct (split s "$" !! 1%nat) as [tag|]; simpl; [|by eexists].
  destruct (String.eqb_spec tag "") as [->|Hne]; simpl; [by eexists|].
  eexists. split; [done|]. apply lookup_variant.
Qed.

Lemma verify_result_trace pwd enc res err st :
  trace (verify_result core pwd enc res err st).2 = trace st.
Proof.
  destruct (truthy res || truthy err) eqn:Hb.
  - destruct (verify_result_fail core pwd enc res err st Hb) as (msg & heap & -> & _).
    done.
  - by rewrite verify_result_ok.
Qed.

Lemma hash_result_trace pwd salt hash encoded hashlen res err st :
  trace (hash_result core pwd salt hash encoded hashlen res err st).2 = trace st.
Proof.
  destruct (strict_eq_zero res && negb (truthy err)) eqn:Hb.
  - apply andb_true_iff in Hb as [Hres Herr].
    destruct res; try done. simpl in Hres. apply Z.eqb_eq in Hres as ->.
    destruct err; try done.
    + by rewrite hash_result_ok.
    + simpl in Herr. destruct (n =? 0) eqn:Hn; [|done].
      apply Z.eqb_eq in Hn as ->.
      unfold hash_result, bind, get_heap. simpl.
      destruct (hash_loop _ _ _). by rewrite Pointer_stringify_run.
    + simpl in Herr. destruct (String.eqb s "") eqn:Hs; [|done].
      apply String.eqb_eq in Hs as ->.
      unfold hash_result, bind, get_heap. simpl.
      destruct (hash_loop _ _ _). by rewrite Pointer_stringify_run.
    + destruct b; [|done].
      unfold hash_result, bind, get_heap. simpl.
      destruct (hash_loop _ _ _). by rewrite Pointer_stringify_run.
  - destruct (hash_result_fail core pwd salt hash encoded hashlen res err st Hb)
      as (msg & heap & -> & _). done.
Qed.

Lemma trace_not_grown (ev : event) (l : list event) : l <> ev :: l.
Proof. intros H. apply (f_equal length) in H. simpl in H. lia. Qed.

Lemma argon2Hash_cases params st :
  (~ array_length_ok (hash_len params)
   /\ argon2Hash core params st
      = (Throw (JErr "RangeError" "Invalid array length"), hash_st2 params st))
  \/ (exists e, array_length_ok (hash_len params) /\ hash_type params st = Throw e
      /\ argon2Hash core params st = (Throw e, hash_st4 params st))
  \/ (exists ty, array_length_ok (hash_len params) /\ hash_type params st = Ret ty
      /\ argon2Hash core params st
         = hash_result core (ptr_of st) (ptr_of (hash_st1 params st))
             (ptr_of (hash_st2 params st)) (ptr_of (hash_st3 params st))
             (hash_len params) (res_of (hash_call core params st ty).1)
             (err_of (hash_call core params st ty).1)
             (hash_st5 core params st ty)).
Proof.
  destruct (decide (0 <= hash_len params <= 4294967295)) as [Hlen|Hlen].
  - right. destruct (hash_type params st) as [ty|e] eqn:Hty.
    + right. exists ty. split; [done|]. split; [done|].
      by apply argon2Hash_call.
    + left. exists e. split; [done|]. split; [done|].
      by apply argon2Hash_type_throws.
  - left. split; [done|]. by apply argon2Hash_range.
Qed.

(** What the call of the module looked like, when there was one. *)
Lemma argon2Hash_called params st o st' a r :
  argon2Hash core params st = (o, st') ->
  trace st' = EvHash a r :: trace st ->
  exists ty,
    array_length_ok (hash_len params) /\ hash_type params st = Ret ty
    /\ a = hash_call_args params st ty
    /\ r = (hash_call core params st ty).1
    /\ hash_result core (ptr_of st) (ptr_of (hash_st1 params st))
         (ptr_of (hash_st2 params st)) (ptr_of (hash_st3 params st))
         (hash_len params) (res_of r) (err_of r) (hash_st5 core params st ty)
       = (o, st').
Proof.
  intros Hrun Htr.
  destruct (argon2Hash_cases params st)
    as [[_ H]|[(e & _ & _ & H)|(ty & Hlen & Hty & H)]].
  - rewrite H in Hrun. injection Hrun as <- <-. by apply trace_not_grown in Htr.
  - rewrite H in Hrun. injection Hrun as <- <-. by apply trace_not_grown in Htr.
  - rewrite H in Hrun.
    pose proof (hash_result_trace (ptr_of st) (ptr_of (hash_st1 params st))
             (ptr_of (hash_st2 params st)) (ptr_of (hash_st3 params st))
             (hash_len params) (res_of (hash_call core params st ty).1)
             (err_of (hash_call core params st ty).1)
             (hash_st5 core params st ty)) as Htrace.
    rewrite Hrun in Htrace. cbn [snd] in Htrace. rewrite Htr in Htrace.
    unfold hash_st5, log in Htrace. cbn [trace] in Htrace.
    injection Htrace as Ha Hr.
    exists ty. split; [done|]. split; [done|]. split; [done|]. split; [done|].
    by rewrite Hr.
Qed.

(** C6.  When the call of [_argon2_hash] did not return 0 (a non-zero
    code, or an exception of the module), the value [argon2Hash] returns or
    throws is the object [{ message, code }] and nothing else: it has no
    [hash], no [hashHex] and no [encoded] field. *)
Theorem hash_failure_carries_no_digest params st o st' a r :
  argon2Hash core params st = (o, st') ->
  trace st' = EvHash a r :: trace st ->
  r <> Ret 0 ->
  exists msg fields,
    value_of o = JObj fields
    /\ fields = [("message", msg); ("code", res_of r)]
    /\ own_property fields "hash" = None
    /\ own_property fields "hashHex" = None
    /\ own_property fields "encoded" = None.
Proof.
  intros Hrun Htr Hr.
  destruct (argon2Hash_called params st o st' a r Hrun Htr)
    as (ty & _ & _ & _ & _ & Hres).
  assert (Hfail : strict_eq_zero (res_of r) && negb (truthy (err_of r)) = false).
  { destruct r as [n|e]; simpl; [|done].
    rewrite andb_true_r. apply Z.eqb_neq. congruence. }
  destruct (hash_result_fail core (ptr_of st) (ptr_of (hash_st1 params st))
              (ptr_of (hash_st2 params st)) (ptr_of (hash_st3 params st))
              (hash_len params) _ _ (hash_st5 core params st ty) Hfail)
    as (msg & heap & Heq & _).
  rewrite Heq in Hres. injection Hres as <- <-.
  exists msg, [("message", msg); ("code", res_of r)].
  split; [unfold finish; by destruct (truthy msg)|]. by repeat split.
Qed.

(** The result of [argon2Hash] when [_argon2_hash] returned 0. *)
Lemma hash_result_of_success params st o st' a :
  argon2Hash core params st = (o, st') ->
  trace st' = EvHash a (Ret 0) :: trace st ->
  let digest :=
    digest_at (HEAP8 st') (ptr_of (hash_st2 params st)) (hash_len params) in
  o = Ret (JObj [("hash", JBytes digest);
                 ("hashHex", JStr (hex_of_bytes digest));
                 ("encoded", stringify (HEAP8 st') (ptr_of (hash_st3 params st)))])
  /\ a_hash a = wrap32 (ptr_of (hash_st2 params st))
  /\ a_encoded a = wrap32 (ptr_of (hash_st3 params st))
  /\ Z.of_nat (length digest) = hash_len params
  /\ _argon2_hash core a (HEAP8 (hash_st4 params st)) = (Ret 0, HEAP8 st').
Proof.
  intros Hrun Htr.
  destruct (argon2Hash_called params st o st' a _ Hrun Htr)
    as (ty & Hlen & _ & -> & Hr & Hres).
  cbn [res_of err_of] in Hres. rewrite hash_result_ok, hash_loop_run in Hres.
  injection Hres as <- <-. cbn [fst snd].
  split; [reflexivity|]. split; [reflexivity|]. split; [reflexivity|].
  split; [destruct Hlen as [Hlen _]; exact (digest_at_length _ _ _ Hlen)|].
  change (HEAP8 (st_free (hash_st5 core params st ty) _))
    with (hash_call core params st ty).2.
  rewrite Hr. unfold hash_call. apply surjective_pairing.
Qed.

(** The bytes the loop of lines 81-85 collects, one by one: the byte at
    [hash + i] of the heap, taken modulo 256, and 0 past its end. *)
Lemma digest_at_lookup heap hash hashlen (i : nat) :
  0 <= hash -> Z.of_nat i < hashlen ->
  digest_at heap hash hashlen !! i
  = Some (match heap !! (Z.to_nat hash + i)%nat with
          | Some b => b mod 256
          | None => 0
          end).
Proof.
  intros Hh Hi. unfold digest_at.
  rewrite list_lookup_fmap, lookup_seqZ_lt by done. cbn [fmap option_fmap option_map].
  f_equal. unfold heap_get.
  destruct (Z.ltb_spec (hash + (0 + Z.of_nat i)) 0); [lia|].
  replace (Z.to_nat (hash + (0 + Z.of_nat i))) with (Z.to_nat hash + i)%nat by lia.
  by destruct (heap !! (Z.to_nat hash + i)%nat).
Qed.

(** C8.  When [_argon2_hash] returned 0, [argon2Hash] returns an object
    with exactly the fields [hash], [hashHex] and [encoded].  [hash] holds
    the [hashLen] bytes of the heap the module returned, from the hash
    pointer it was called with on: byte [i] of [hash] is the byte at
    [hash + i] of that heap, modulo 256.  [encoded] is the C string the
    module left at the encoded buffer, and [hashHex] is the concatenation
    of two lower-case hexadecimal digits per byte of [hash], so that its
    length is twice the requested output length. *)
Theorem hash_success_result params st o st' a :
  argon2Hash core params st = (o, st') ->
  trace st' = EvHash a (Ret 0) :: trace st ->
  exists hash encoded digest heap0,
    o = Ret (JObj [("hash", JBytes digest);
                   ("hashHex", JStr (hex_of_bytes digest));
                   ("encoded", stringify (HEAP8 st') encoded)])
    /\ _argon2_hash core a heap0 = (Ret 0, HEAP8 st')
    /\ a_hash a = wrap32 hash /\ a_encoded a = wrap32 encoded
    /\ 0 <= hash
    /\ (forall i : nat,
          Z.of_nat i < hash_len params ->
          digest !! i
          = Some (match HEAP8 st' !! (Z.to_nat hash + i)%nat with
                  | Some b => b mod 256
                  | None => 0
                  end))
    /\ digest = digest_at (HEAP8 st') hash (hash_len params)
    /\ Forall (fun b => 0 <= b < 256) digest
    /\ Z.of_nat (length digest) = hash_len params
    /\ Z.of_nat (String.length (hex_of_bytes digest)) = 2 * hash_len params
    /\ (forall n, hp_hashLen params = Some n -> n <> 0 -> hash_len params = n).
Proof.
  intros Hrun Htr.
  destruct (hash_result_of_success params st o st' a Hrun Htr)
    as (-> & Hh & He & Hlen & Hcall).
  assert (Hpos : 0 <= ptr_of (hash_st2 params st)) by (unfold ptr_of; lia).
  eexists (ptr_of (hash_st2 params st)), (ptr_of (hash_st3 params st)), _, _.
  split; [reflexivity|]. split; [exact Hcall|].
  split; [exact Hh|]. split; [exact He|]. split; [exact Hpos|].
  split; [intros i Hi; by apply digest_at_lookup|].
  split; [reflexivity|]. split; [apply digest_at_bytes|].
  rewrite hex_of_bytes_length, Nat2Z.inj_mul, Hlen. split; [done|]. split; [done|].
  intros n Hn Hne. unfold hash_len. rewrite Hn. simpl.
  by destruct (Z.eqb_spec n 0).
Qed.

End AnyCore.

(** ** Defaults, and the release of the buffers *)

Section Allocation.

Context (core : Core).

Lemma hash_type_unbound params st :
  globals st !! "argon2" = None ->
  hp_type params = None \/ hp_type params = Some 0 ->
  hash_type params st = Throw (JErr "ReferenceError" "argon2 is not defined").
Proof.
  intros Hg Hty. unfold hash_type.
  destruct Hty as [-> | ->]; cbn [opt_num truthy Z.eqb negb];
    unfold argon2_ArgonType_Argon2d, bind, global_var; by rewrite Hg.
Qed.

Lemma hash_type_explicit params st t :
  hp_type params = Some t -> t <> 0 -> hash_type params st = Ret (JNum t).
Proof.
  intros Hty Ht. unfold hash_type. rewrite Hty. simpl.
  destruct (Z.eqb_spec t 0); done.
Qed.

Lemma hash_type_exports params st :
  globals st !! "argon2" = Some exports ->
  hp_type params = None \/ hp_type params = Some 0 ->
  hash_type params st = Ret (JNum 0).
Proof.
  intros Hg Hty. unfold hash_type.
  destruct Hty as [-> | ->]; cbn [opt_num truthy Z.eqb negb];
    unfold argon2_ArgonType_Argon2d, bind, global_var; by rewrite Hg.
Qed.

(** C10.  The default of [type] is not Argon2d in a scope that binds no
    [argon2]: line 68 reads [params.type || argon2.ArgonType.Argon2d], and
    the file declares no [argon2].  There a call of [argon2Hash] with
    [type] omitted or 0 throws a ReferenceError, and the module is never
    called.  (The other defaults and the version are as stated whenever
    the module is called.) *)
Theorem hash_default_type_unbound params st :
  globals st !! "argon2" = None ->
  hp_type params = None \/ hp_type params = Some 0 ->
  array_length_ok (hash_len params) ->
  exists st',
    argon2Hash core params st
    = (Throw (JErr "ReferenceError" "argon2 is not defined"), st')
    /\ trace st' = trace st.
Proof.
  intros Hg Hty Hlen. exists (hash_st4 params st). split; [|done].
  apply argon2Hash_type_throws; [done|]. by apply hash_type_unbound.
Qed.

Lemma ptr_of_alloc st slab : ptr_of st < ptr_of (st_alloc st slab).
Proof.
  unfold ptr_of, st_alloc. simpl. rewrite length_app.
  destruct (map to_i8 slab); simpl; lia.
Qed.

Lemma hash_ptrs_increase params st :
  ptr_of st < ptr_of (hash_st1 params st)
  /\ ptr_of (hash_st1 params st) < ptr_of (hash_st2 params st)
  /\ ptr_of (hash_st2 params st) < ptr_of (hash_st3 params st)
  /\ ptr_of (hash_st3 params st) < ptr_of (hash_st4 params st).
Proof. repeat split; apply ptr_of_alloc. Qed.

Lemma hash_st4_live params st :
  live (hash_st4 params st)
  = {[ ptr_of (hash_st3 params st) ]} ∪ ({[ ptr_of (hash_st2 params st) ]}
      ∪ ({[ ptr_of (hash_st1 params st) ]} ∪ ({[ ptr_of st ]} ∪ live st))).
Proof. reflexivity. Qed.

(** The same exit comes after all four allocations and before the block
    that frees them: the four buffers stay live. *)
Theorem hash_leaks_on_unbound_default params st :
  globals st !! "argon2" = None ->
  hp_type params = None \/ hp_type params = Some 0 ->
  array_length_ok (hash_len params) ->
  exists e pwd salt hash encoded,
    (argon2Hash core params st).1 = Throw e
    /\ pwd < salt < hash /\ hash < encoded
    /\ {[ pwd; salt; hash; encoded ]} ⊆ live (argon2Hash core params st).2.
Proof.
  intros Hg Hty Hlen.
  rewrite (argon2Hash_type_throws core params st _ Hlen (hash_type_unbound params st Hg Hty)).
  exists (JErr "ReferenceError" "argon2 is not defined"), (ptr_of st),
    (ptr_of (hash_st1 params st)), (ptr_of (hash_st2 params st)),
    (ptr_of (hash_st3 params st)).
  split; [done|].
  destruct (hash_ptrs_increase params st) as (? & ? & ? & _).
  split; [done|]. split; [done|].
  cbn [snd]. rewrite hash_st4_live. set_solver.
Qed.

(** C7.  Not every exit of [argon2Hash] releases its buffers: when
    [params.hashLen || 24] is no array length, [new Array] at line 64
    throws a RangeError after the password and the salt were allocated and
    before the [try] block that frees; the module is not called and both
    buffers stay live.  (Every exit that comes after the call of the module
    does release them, in [argon2Hash] and in [argon2Verify].) *)
Theorem hash_leaks_on_range_error params st :
  ~ array_length_ok (hash_len params) ->
  (argon2Hash core params st).1 = Throw (JErr "RangeError" "Invalid array length")
  /\ trace (argon2Hash core params st).2 = trace st
  /\ ptr_of st < ptr_of (hash_st1 params st)
  /\ {[ ptr_of st; ptr_of (hash_st1 params st) ]} ⊆ live (argon2Hash core params st).2.
Proof.
  intros Hlen. rewrite (argon2Hash_range core params st Hlen).
  split; [done|]. split; [done|].
  destruct (hash_ptrs_increase params st) as (? & _).
  split; [done|].
  change (live (Throw (JErr "RangeError" "Invalid array length"), hash_st2 params st).2)
    with ({[ ptr_of (hash_st1 params st) ]} ∪ ({[ ptr_of st ]} ∪ live st)).
  set_solver.
Qed.

Lemma st_free_live st ptrs :
  live (st_free st ptrs) = foldl (fun s p => s ∖ {[ p ]}) (live st) ptrs.
Proof. done. Qed.

(** [o || d] for an optional numeric field. *)
Lemma num_or_cases (o : option Z) (d : Z) :
  (o = None \/ o = Some 0 -> num_or o d = d)
  /\ (forall n, o = Some n -> n <> 0 -> num_or o d = n).
Proof.
  split.
  - by intros [-> | ->].
  - intros n -> Hn. simpl. by destruct (Z.eqb_spec n 0).
Qed.

(** Whenever [argon2Hash] calls the module, the time cost, the memory
    cost, the parallelism and the output length it passes are the fields of
    [params] with 1, 1024, 1 and 24 in the place of an omitted or zero
    field, the encoded buffer has 512 bytes and the version is 0x13; a
    non-zero [type] is passed as it is, and in a scope where [argon2] is
    bound to the exports an omitted or zero [type] becomes Argon2d. *)
Theorem hash_defaults_reach_core params st o st' a r :
  argon2Hash core params st = (o, st') ->
  trace st' = EvHash a r :: trace st ->
  (hp_time params = None \/ hp_time params = Some 0 -> a_t_cost a = 1)
  /\ (forall n, hp_time params = Some n -> n <> 0 -> a_t_cost a = wrap32 n)
  /\ (hp_mem params = None \/ hp_mem params = Some 0 -> a_m_cost a = 1024)
  /\ (forall n, hp_mem params = Some n -> n <> 0 -> a_m_cost a = wrap32 n)
  /\ (hp_parallelism params = None \/ hp_parallelism params = Some 0 ->
      a_parallelism a = 1)
  /\ (forall n, hp_parallelism params = Some n -> n <> 0 ->
      a_parallelism a = wrap32 n)
  /\ (hp_hashLen params = None \/ hp_hashLen params = Some 0 -> a_hashlen a = 24)
  /\ (forall n, hp_hashLen params = Some n -> n <> 0 -> a_hashlen a = wrap32 n)
  /\ a_encodedlen a = 512
  /\ a_version a = 19
  /\ (forall t, hp_type params = Some t -> t <> 0 -> a_type a = wrap32 t)
  /\ (globals st !! "argon2" = Some exports ->
      hp_type params = None \/ hp_type params = Some 0 -> a_type a = 0).
Proof.
  intros Hrun Htr.
  destruct (argon2Hash_called core params st o st' a r Hrun Htr)
    as (ty & _ & Hty & -> & _ & _).
  cbn [a_t_cost a_m_cost a_parallelism a_hashlen a_encodedlen a_version a_type
       hash_call_args]. unfold hash_len.
  destruct (num_or_cases (hp_time params) 1) as [Ht0 Ht1].
  destruct (num_or_cases (hp_mem params) 1024) as [Hm0 Hm1].
  destruct (num_or_cases (hp_parallelism params) 1) as [Hp0 Hp1].
  destruct (num_or_cases (hp_hashLen params) 24) as [Hh0 Hh1].
  split; [by intros ->%Ht0|]. split; [intros n Hn Hne; by rewrite (Ht1 n)|].
  split; [by intros ->%Hm0|]. split; [intros n Hn Hne; by rewrite (Hm1 n)|].
  split; [by intros ->%Hp0|]. split; [intros n Hn Hne; by rewrite (Hp1 n)|].
  split; [by intros ->%Hh0|]. split; [intros n Hn Hne; by rewrite (Hh1 n)|].
  split; [reflexivity|]. split; [reflexivity|]. split.
  - intros t Ht Hne. rewrite (hash_type_explicit params st t Ht Hne) in Hty.
    by injection Hty as <-.
  - intros Hg Ht. rewrite (hash_type_exports params st Hg Ht) in Hty.
    by injection Hty as <-.
Qed.

(** Whenever [argon2Hash] calls the module, the four buffers are released
    when it returns or throws: the set of live blocks is the one before the
    call. *)
Theorem hash_frees_after_call params st o st' a r :
  live_ok st ->
  argon2Hash core params st = (o, st') ->
  trace st' = EvHash a r :: trace st ->
  live st' = live st.
Proof.
  intros Hlive Hrun Htr.
  destruct (argon2Hash_called core params st o st' a r Hrun Htr)
    as (ty & _ & _ & _ & _ & Hres).
  assert (Hst : exists heap, st' = st_free (set_heap (hash_st5 core params st ty) heap)
                   [ptr_of st; ptr_of (hash_st1 params st);
                    ptr_of (hash_st2 params st); ptr_of (hash_st3 params st)]).
  { destruct (strict_eq_zero (res_of r) && negb (truthy (err_of r))) eqn:Hb.
    - exists (HEAP8 (hash_st5 core params st ty)). rewrite set_heap_id.
      unfold hash_result, bind at 1 in Hres. rewrite Hb in Hres.
      unfold bind, get_heap in Hres. cbn [fst snd] in Hres.
      destruct (hash_loop _ _ _). rewrite Pointer_stringify_run in Hres.
      unfold ret, try_catch, _free in Hres. cbn in Hres.
      destruct (truthy (err_of r)); by injection Hres as <- <-.
    - destruct (hash_result_fail core (ptr_of st) (ptr_of (hash_st1 params st))
              (ptr_of (hash_st2 params st)) (ptr_of (hash_st3 params st))
              (hash_len params) _ _ (hash_st5 core params st ty) Hb)
        as (msg & heap & Heq & _).
      rewrite Heq in Hres. injection Hres as <- <-. by exists heap. }
  destruct Hst as [heap ->].
  destruct (hash_ptrs_increase params st) as (? & ? & ? & _).
  rewrite st_free_live. cbn [foldl].
  change (live (set_heap (hash_st5 core params st ty) heap))
    with (live (hash_st4 params st)).
  rewrite hash_st4_live.
  assert (ptr_of st ∉ live st) by (intros Hin; apply Hlive in Hin; lia).
  assert (ptr_of (hash_st1 params st) ∉ live st) by (intros Hin; apply Hlive in Hin; lia).
  assert (ptr_of (hash_st2 params st) ∉ live st) by (intros Hin; apply Hlive in Hin; lia).
  assert (ptr_of (hash_st3 params st) ∉ live st) by (intros Hin; apply Hlive in Hin; lia).
  set_solver.
Qed.

(** Whenever [argon2Verify] calls the module, both buffers are released
    when it returns or throws. *)
Theorem verify_frees_after_call params st o st' a r :
  live_ok st ->
  argon2Verify core params st = (o, st') ->
  trace st' = EvVerify a r :: trace st ->
  live st' = live st.
Proof.
  intros Hlive Hrun Htr.
  destruct (verify_type params) as [ty|e] eqn:Hty.
  2:{ rewrite (argon2Verify_type_throws core params st e Hty) in Hrun.
      injection Hrun as <- <-. by apply trace_not_grown in Htr. }
  rewrite (argon2Verify_call core params st ty Hty) in Hrun.
  assert (Hst : exists heap, st' = st_free (set_heap (verify_st3 core params st ty) heap)
                   [ptr_of st; ptr_of (verify_st1 params st)]).
  { destruct (truthy (res_of (verify_call core params st ty).1)
              || truthy (err_of (verify_call core params st ty).1)) eqn:Hb.
    - destruct (verify_result_fail core (ptr_of st) (ptr_of (verify_st1 params st))
                  _ _ (verify_st3 core params st ty) Hb) as (msg & heap & Heq & _).
      rewrite Heq in Hrun. injection Hrun as <- <-. by exists heap.
    - rewrite verify_result_ok in Hrun by done. injection Hrun as <- <-.
      exists (HEAP8 (verify_st3 core params st ty)). by rewrite set_heap_id. }
  destruct Hst as [heap ->].
  assert (ptr_of st < ptr_of (verify_st1 params st)) by apply ptr_of_alloc.
  rewrite st_free_live. cbn [foldl].
  change (live (set_heap (verify_st3 core params st ty) heap))
    with ({[ ptr_of (verify_st1 params st) ]} ∪ ({[ ptr_of st ]} ∪ live st)).
  assert (ptr_of st ∉ live st) by (intros Hin; apply Hlive in Hin; lia).
  assert (ptr_of (verify_st1 params st) ∉ live st) by (intros Hin; apply Hlive in Hin; lia).
  set_solver.
Qed.

End Allocation.

(** ** What the module reads from the heap *)

Section Memory.

Lemma u32_wrap32 x : u32 (wrap32 x) = x mod 4294967296.
Proof.
  unfold u32, wrap32.
  rewrite <- Zminus_mod_idemp_l. rewrite Z.mod_mod by lia.
  rewrite Zminus_mod_idemp_l. f_equal. lia.
Qed.

Lemma u32_wrap32_small x : 0 <= x < 4294967296 -> u32 (wrap32 x) = x.
Proof. intros. rewrite u32_wrap32. by apply Z.mod_small. Qed.

Lemma to_u8_to_i8 b : to_u8 (to_i8 b) = b mod 256.
Proof.
  unfold to_u8, to_i8.
  rewrite <- Zminus_mod_idemp_l. rewrite Z.mod_mod by lia.
  rewrite Zminus_mod_idemp_l. f_equal. lia.
Qed.

Lemma to_u8_range b : 0 <= to_u8 b < 256.
Proof. apply Z.mod_pos_bound. lia. Qed.

Lemma seen_bytes x : byte_list (seen x).
Proof.
  unfold seen, byte_list. apply Forall_map, Forall_forall. intros. apply to_u8_range.
Qed.

Lemma read_bytes_at (h B rest : list Z) n :
  (Z.to_nat n <= length B)%nat ->
  read_bytes (h ++ B ++ rest) (Z.of_nat (length h)) n
  = map to_u8 (take (Z.to_nat n) B).
Proof.
  intros Hn. unfold read_bytes. rewrite Nat2Z.id, drop_app_length.
  by rewrite take_app_le.
Qed.

Lemma utf8_char_length c : (1 <= length (utf8_char c))%nat.
Proof. unfold utf8_char. destruct (c <? 128); simpl; lia. Qed.

Lemma utf8_length (l : list Z) : (length l <= length (concat (map utf8_char l)))%nat.
Proof.
  induction l as [|c l IH]; simpl; [done|]. rewrite length_app.
  pose proof (utf8_char_length c). lia.
Qed.

Lemma string_length_codes s : String.length s = length (codes s).
Proof.
  unfold codes. rewrite length_map.
  induction s as [|c s IH]; simpl; [done|]. by rewrite IH.
Qed.

Lemma malloc_bytes_length (l : list Z) : (length l <= length (malloc_bytes l))%nat.
Proof. destruct l; simpl; lia. Qed.

Lemma js_length_buffer x :
  (Z.to_nat (js_length x) <= length (malloc_bytes (map to_i8 (array_of x))))%nat.
Proof.
  etrans; [|apply malloc_bytes_length]. rewrite length_map.
  destruct x as [s|b]; simpl; rewrite Nat2Z.id; [|done].
  unfold intArrayFromString. rewrite length_app, string_length_codes. simpl.
  pose proof (utf8_length (codes s)). lia.
Qed.

Lemma seen_length_le x :
  (Z.to_nat (u32 (wrap32 (js_length x)))
   <= length (malloc_bytes (map to_i8 (array_of x))))%nat.
Proof.
  pose proof (js_length_buffer x) as H.
  assert (0 <= js_length x) by (destruct x; simpl; lia).
  rewrite u32_wrap32.
  pose proof (Z.mod_le (js_length x) 4294967296 ltac:(lia) ltac:(lia)). lia.
Qed.

(** Reading the buffer of [x] that starts where [h] ends. *)
Lemma read_seen h x rest :
  Z.of_nat (length h) < 4294967296 ->
  read_bytes (h ++ malloc_bytes (map to_i8 (array_of x)) ++ rest)
             (u32 (wrap32 (Z.of_nat (length h)))) (u32 (wrap32 (js_length x)))
  = seen x.
Proof.
  intros Hh. rewrite (u32_wrap32_small (Z.of_nat (length h))) by lia.
  apply read_bytes_at, seen_length_le.
Qed.

(** C strings *)
Lemma c_string_text (text : list ascii) rest :
  Forall (fun c => code c <> 0) text ->
  c_string (map to_i8 (map code text ++ [0]) ++ rest) = map code text.
Proof.
  induction 1 as [|c text Hc Htext IH]; simpl.
  - reflexivity.
  - rewrite to_u8_to_i8. pose proof (code_range c).
    rewrite Z.mod_small by lia.
    destruct (Z.eqb_spec (code c) 0); [done|]. by rewrite IH.
Qed.

Lemma write_bytes_at (h B rest bytes : list Z) :
  length bytes = length B ->
  write_bytes (h ++ B ++ rest) (Z.of_nat (length h)) bytes
  = h ++ map to_i8 bytes ++ rest.
Proof.
  intros Hlen. unfold write_bytes. rewrite Nat2Z.id.
  rewrite <- (Nat.add_0_r (length h)), list_inserts_app_r.
  rewrite list_inserts_0_r by (by rewrite length_map). done.
Qed.

Lemma write_bytes_prefix (h B rest bytes : list Z) :
  (length bytes <= length B)%nat ->
  write_bytes (h ++ B ++ rest) (Z.of_nat (length h)) bytes
  = h ++ map to_i8 bytes ++ drop (length bytes) B ++ rest.
Proof.
  intros Hlen.
  rewrite <- (take_drop (length bytes) B) at 1. rewrite <- app_assoc.
  rewrite write_bytes_at; [done|]. rewrite length_take. lia.
Qed.

End Memory.

(** ** [argon2Hash] over the reference module *)

Section RefHash.

Context (kdf : Z -> Z -> Z -> Z -> Z -> list Z -> list Z -> Z -> list Z).

Context (mem_ceiling : Z).

Lemma hash_heap4 params st :
  HEAP8 (hash_st4 params st)
  = HEAP8 st ++ buffer (hp_pass params) ++ buffer (hp_salt params)
      ++ zeros (hash_len params) ++ zeros 512.
Proof.
  unfold hash_st4, hash_st3, hash_st2, hash_st1, st_alloc, buffer, zeros.
  cbn [HEAP8]. by rewrite <- !app_assoc.
Qed.

Lemma hash_ptr1 params st :
  ptr_of (hash_st1 params st) = Z.of_nat (length (HEAP8 st ++ buffer (hp_pass params))).
Proof. reflexivity. Qed.

Lemma hash_ptr2 params st :
  ptr_of (hash_st2 params st)
  = Z.of_nat (length ((HEAP8 st ++ buffer (hp_pass params)) ++ buffer (hp_salt params))).
Proof. reflexivity. Qed.

Lemma hash_ptr3 params st :
  ptr_of (hash_st3 params st)
  = Z.of_nat (length (((HEAP8 st ++ buffer (hp_pass params)) ++ buffer (hp_salt params))
                        ++ zeros (hash_len params))).
Proof. reflexivity. Qed.

Lemma ref_hash_run params st ty :
  addressable (hash_st4 params st) ->
  hash_call (ref_core kdf mem_ceiling) params st ty
  = match ref_validate mem_ceiling params with
    | Some e => (Ret (error_code e), HEAP8 (hash_st4 params st))
    | None =>
        match type_tag (to_int32 ty) with
        | None => (Ret (error_code ARGON2_INCORRECT_TYPE), HEAP8 (hash_st4 params st))
        | Some tag =>
            if Z.of_nat (length (ref_text kdf params ty tag)) <? 512 then
              (Ret 0,
               write_bytes
                 (write_bytes (HEAP8 (hash_st4 params st))
                              (ptr_of (hash_st2 params st)) (ref_digest kdf params ty))
                 (ptr_of (hash_st3 params st))
                 (map code (ref_text kdf params ty tag) ++ [0]))
            else (Ret (error_code ARGON2_ENCODING_FAIL), HEAP8 (hash_st4 params st))
        end
    end.
Proof.
  intros Haddr. unfold addressable in Haddr.
  destruct (hash_ptrs_increase params st) as (H1 & H2 & H3 & H4).
  assert (0 <= ptr_of st) by (unfold ptr_of; lia).
  unfold hash_call, ref_core, ref_hash, hash_call_args, ref_validate.
  cbn [_argon2_hash a_t_cost a_m_cost a_parallelism a_pwd a_pwdlen a_salt
       a_saltlen a_hash a_hashlen a_encoded a_encodedlen a_type a_version].
  fold (cost (num_or (hp_time params) 1)) (cost (num_or (hp_mem params) 1024))
       (cost (num_or (hp_parallelism params) 1)) (cost (hash_len params)).
  destruct (validate _ _ _ _ _); [done|].
  destruct (type_tag (to_int32 ty)) as [tag|]; [|done].
  change (u32 (wrap32 19)) with 19. change (u32 (wrap32 512)) with 512.
  rewrite (u32_wrap32_small (ptr_of (hash_st2 params st))) by lia.
  rewrite (u32_wrap32_small (ptr_of (hash_st3 params st))) by lia.
  assert (Hpwd : read_bytes (HEAP8 (hash_st4 params st)) (u32 (wrap32 (ptr_of st)))
                   (u32 (wrap32 (js_length (hp_pass params)))) = seen (hp_pass params)).
  { rewrite hash_heap4. apply read_seen. unfold ptr_of in *. lia. }
  assert (Hsalt : read_bytes (HEAP8 (hash_st4 params st))
                    (u32 (wrap32 (ptr_of (hash_st1 params st))))
                    (u32 (wrap32 (js_length (hp_salt params)))) = seen (hp_salt params)).
  { rewrite hash_heap4, hash_ptr1, app_assoc. apply read_seen.
    rewrite <- hash_ptr1. lia. }
  rewrite Hpwd, Hsalt. reflexivity.
Qed.

End RefHash.

(** ** Encoded strings as 7-bit text *)

Section Text.

Lemma b64_ok_plain c : b64_ok c -> plain c.
Proof. intros H. apply b64_ok_code in H. unfold plain. lia. Qed.

Lemma Forall_b64_plain s : Forall b64_ok s -> Forall plain s.
Proof. intros H. eapply Forall_impl; [exact H|]. apply b64_ok_plain. Qed.

Lemma lit_plain (s : string) :
  forallb (fun c => (0 <? code c) && (code c <? 128)) (lit s) = true ->
  Forall plain (lit s).
Proof.
  rewrite forallb_forall, Forall_forall. intros H c Hc.
  apply list_elem_of_In, H, andb_true_iff in Hc as [? ?]. unfold plain. lia.
Qed.

Lemma encode_string_plain tag version m t p salt digest :
  Forall b64_ok tag -> byte_list salt -> byte_list digest ->
  Forall plain (encode_string tag version m t p salt digest).
Proof.
  intros Htag Hsalt Hdigest. unfold encode_string.
  repeat (apply Forall_app; split);
    try (apply lit_plain; reflexivity);
    apply Forall_b64_plain;
    auto using dec_ok, b64_encode_ok.
Qed.

Lemma plain_nonzero s : Forall plain s -> Forall (fun c => code c <> 0) s.
Proof. intros H. eapply Forall_impl; [exact H|]. unfold plain. intros; lia. Qed.

Lemma plain_7bit s : Forall plain s -> forallb (fun b => b <? 128) (map code s) = true.
Proof.
  intros H. rewrite forallb_forall. intros b Hb.
  apply in_map_iff in Hb as (c & <- & Hc).
  rewrite Forall_forall in H. apply list_elem_of_In, H in Hc.
  unfold plain in Hc. lia.
Qed.

Lemma of_codes_code (s : list ascii) : of_codes (map code s) = string_of_list_ascii s.
Proof. unfold of_codes. by rewrite map_chr_code. Qed.

Lemma codes_string (s : list ascii) : codes (string_of_list_ascii s) = map code s.
Proof. unfold codes. by rewrite list_ascii_of_string_of_list_ascii. Qed.

Lemma utf8_plain (s : list ascii) :
  Forall plain s -> concat (map utf8_char (map code s)) = map code s.
Proof.
  induction 1 as [|c s Hc Hs IH]; simpl; [done|].
  rewrite IH. unfold utf8_char. unfold plain in Hc.
  destruct (code c <? 128) eqn:E; [done|lia].
Qed.

Lemma intArrayFromString_plain (s : list ascii) :
  Forall plain s ->
  intArrayFromString (string_of_list_ascii s) = map code s ++ [0].
Proof.
  intros H. unfold intArrayFromString. by rewrite codes_string, utf8_plain.
Qed.

Lemma c_text_plain (s : list ascii) :
  Forall plain s -> c_text (string_of_list_ascii s) = s.
Proof.
  intros H. unfold c_text. rewrite intArrayFromString_plain by done.
  rewrite <- (app_nil_r (map to_i8 _)).
  rewrite c_string_text by (by apply plain_nonzero).
  apply map_chr_code.
Qed.

Lemma c_string_app_nul (l rest : list Z) :
  c_string ((l ++ [0]) ++ rest) = c_string (l ++ [0]).
Proof.
  induction l as [|b l IH]; simpl; [done|].
  destruct (to_u8 b =? 0); [done|]. by rewrite IH.
Qed.

Lemma malloc_bytes_snoc (l : list Z) x : malloc_bytes (l ++ [x]) = l ++ [x].
Proof. by destruct l. Qed.

Lemma buffer_Str s :
  buffer (Str s) = map to_i8 (concat (map utf8_char (codes s))) ++ [0].
Proof.
  unfold buffer. cbn [array_of]. unfold intArrayFromString.
  rewrite map_app. apply malloc_bytes_snoc.
Qed.

(** The buffer [allocateArray] fills for a string, read as a C string. *)
Lemma c_string_buffer s rest :
  map chr (c_string (buffer (Str s) ++ rest)) = c_text s.
Proof.
  rewrite buffer_Str, c_string_app_nul. unfold c_text, intArrayFromString.
  by rewrite map_app.
Qed.

End Text.

(** ** What [argon2Hash] returns over the reference module *)

Section RefHashResult.

Context (kdf : Z -> Z -> Z -> Z -> Z -> list Z -> list Z -> Z -> list Z).

Context (mem_ceiling : Z).

Context (Hkdf : kdf_ok kdf).

Lemma zeros_length n : (Z.to_nat n <= length (zeros n))%nat.
Proof.
  unfold zeros. etrans; [|apply malloc_bytes_length].
  by rewrite length_map, length_replicate.
Qed.

Lemma zeros_512 : length (zeros 512) = 512%nat.
Proof. reflexivity. Qed.

Lemma cost_small n : 0 <= n <= 4294967295 -> cost n = n.
Proof. intros. unfold cost. apply u32_wrap32_small. lia. Qed.

Lemma validate_error outlen m t p e :
  validate mem_ceiling outlen m t p = Some e ->
  error_code e <> 0 /\ kind_of_code (error_code e) = ParameterError
  /\ error_of_code (error_code e) = e.
Proof.
  unfold validate. repeat case_match; intros; simplify_eq; done.
Qed.

Lemma type_tag_range ty tag : type_tag ty = Some tag -> 0 <= ty <= 2.
Proof. unfold type_tag. repeat case_match; intros; simplify_eq; lia. Qed.

Lemma ref_digest_length params ty :
  array_length_ok (hash_len params) ->
  length (ref_digest kdf params ty) = Z.to_nat (hash_len params).
Proof.
  intros Hlen. unfold ref_digest.
  destruct (Hkdf (to_int32 ty) 19 (cost (num_or (hp_time params) 1))
              (cost (num_or (hp_mem params) 1024))
              (cost (num_or (hp_parallelism params) 1))
              (seen (hp_pass params)) (seen (hp_salt params))
              (cost (hash_len params))) as [-> _].
  by rewrite cost_small.
Qed.

Lemma ref_digest_bytes params ty : byte_list (ref_digest kdf params ty).
Proof. unfold ref_digest. apply Hkdf. Qed.

Lemma ref_text_plain params ty tag :
  type_tag (to_int32 ty) = Some tag -> Forall plain (ref_text kdf params ty tag).
Proof.
  intros Htag. apply encode_string_plain;
    eauto using type_tag_ok, seen_bytes, ref_digest_bytes.
Qed.

(** The heap after a successful [_argon2_hash], read back at [encoded]. *)
Lemma stringify_written params st digest (text : list ascii) :
  length digest = Z.to_nat (hash_len params) ->
  Forall plain text -> Z.of_nat (length text) < 512 ->
  stringify
    (write_bytes
       (write_bytes (HEAP8 (hash_st4 params st)) (ptr_of (hash_st2 params st)) digest)
       (ptr_of (hash_st3 params st)) (map code text ++ [0]))
    (ptr_of (hash_st3 params st))
  = JStr (string_of_list_ascii text).
Proof.
  intros Hdigest Htext Hfits.
  pose proof (zeros_length (hash_len params)) as Hz.
  rewrite hash_heap4, hash_ptr2, hash_ptr3.
  set (hB := (HEAP8 st ++ buffer (hp_pass params)) ++ buffer (hp_salt params)).
  replace (HEAP8 st ++ buffer (hp_pass params) ++ buffer (hp_salt params)
             ++ zeros (hash_len params) ++ zeros 512)
    with (hB ++ zeros (hash_len params) ++ zeros 512)
    by (unfold hB; by rewrite <- !app_assoc).
  rewrite write_bytes_prefix by lia.
  set (D := map to_i8 digest ++ drop (length digest) (zeros (hash_len params))).
  assert (HD : length D = length (zeros (hash_len params))).
  { unfold D. rewrite length_app, length_map, length_drop. lia. }
  replace (hB ++ map to_i8 digest ++ drop (length digest) (zeros (hash_len params))
             ++ zeros 512)
    with ((hB ++ D) ++ zeros 512 ++ [])
    by (unfold D; by rewrite app_nil_r, <- !app_assoc).
  replace (length (hB ++ zeros (hash_len params))) with (length (hB ++ D))
    by (by rewrite !length_app, HD).
  rewrite write_bytes_prefix
    by (rewrite length_app, length_map, zeros_512; simpl; lia).
  unfold stringify.
  assert (Hpos : (0 < length (hB ++ D))%nat).
  { rewrite length_app, HD. destruct (zeros (hash_len params)) eqn:E; simpl.
    - apply (f_equal length) in E. unfold zeros in E.
      by destruct (map to_i8 (replicate (Z.to_nat (hash_len params)) 0)).
    - lia. }
  destruct (Z.eqb_spec (Z.of_nat (length (hB ++ D))) 0) as [E|_]; [lia|].
  unfold c_string_at. rewrite Nat2Z.id, drop_app_length.
  rewrite c_string_text by (by apply plain_nonzero).
  rewrite plain_7bit by done. by rewrite of_codes_code.
Qed.

(** [argon2Hash] over the reference module, when the parameters are
    accepted. *)
Lemma ref_argon2Hash_ok params st ty tag :
  addressable (hash_st4 params st) ->
  array_length_ok (hash_len params) ->
  hash_type params st = Ret ty ->
  ref_validate mem_ceiling params = None ->
  type_tag (to_int32 ty) = Some tag ->
  Z.of_nat (length (ref_text kdf params ty tag)) < 512 ->
  exists digest st',
    argon2Hash (ref_core kdf mem_ceiling) params st
    = (Ret (JObj [("hash", JBytes digest);
                  ("hashHex", JStr (hex_of_bytes digest));
                  ("encoded", JStr (string_of_list_ascii (ref_text kdf params ty tag)))]),
       st')
    /\ trace st' = EvHash (hash_call_args params st ty) (Ret 0) :: trace st.
Proof.
  intros Haddr Hlen Hty Hval Htag Hfits.
  rewrite (argon2Hash_call _ params st ty Hlen Hty).
  assert (Hcall : hash_call (ref_core kdf mem_ceiling) params st ty
                  = (Ret 0,
                     write_bytes
                       (write_bytes (HEAP8 (hash_st4 params st))
                          (ptr_of (hash_st2 params st)) (ref_digest kdf params ty))
                       (ptr_of (hash_st3 params st))
                       (map code (ref_text kdf params ty tag) ++ [0]))).
  { rewrite ref_hash_run by done. rewrite Hval, Htag.
    destruct (Z.ltb_spec (Z.of_nat (length (ref_text kdf params ty tag))) 512); [done|lia]. }
  unfold hash_st5. rewrite Hcall. cbn [fst snd res_of err_of].
  rewrite hash_result_ok, hash_loop_run. cbn [fst snd HEAP8 log set_heap].
  rewrite stringify_written
    by eauto using ref_digest_length, ref_text_plain.
  eexists _, _. split; reflexivity.
Qed.

(** ... and when [_argon2_hash] returns an error code. *)
Lemma ref_argon2Hash_inv params st h hx v st' :
  addressable (hash_st4 params st) ->
  argon2Hash (ref_core kdf mem_ceiling) params st
  = (Ret (JObj [("hash", h); ("hashHex", hx); ("encoded", v)]), st') ->
  exists ty tag,
    array_length_ok (hash_len params)
    /\ hash_type params st = Ret ty
    /\ ref_validate mem_ceiling params = None
    /\ type_tag (to_int32 ty) = Some tag
    /\ Z.of_nat (length (ref_text kdf params ty tag)) < 512
    /\ v = JStr (string_of_list_ascii (ref_text kdf params ty tag)).
Proof.
  intros Haddr Hrun.
  destruct (argon2Hash_cases (ref_core kdf mem_ceiling) params st)
    as [[_ H]|[(e & _ & _ & H)|(ty & Hlen & Hty & H)]];
    [rewrite H in Hrun; discriminate..|].
  assert (Hfail : forall code heap,
            code <> 0 ->
            hash_call (ref_core kdf mem_ceiling) params st ty = (Ret code, heap) -> False).
  { intros code heap Hcode Hcall. rewrite Hcall in H. cbn [fst res_of err_of] in H.
    destruct (hash_result_fail (ref_core kdf mem_ceiling) (ptr_of st)
                (ptr_of (hash_st1 params st)) (ptr_of (hash_st2 params st))
                (ptr_of (hash_st3 params st)) (hash_len params) (JNum code) JUndefined
                (hash_st5 (ref_core kdf mem_ceiling) params st ty))
      as (msg & heap' & Heq & _).
    { simpl. rewrite andb_true_r. by apply Z.eqb_neq. }
    rewrite Heq in H. rewrite H in Hrun. unfold finish in Hrun.
    destruct (truthy msg); discriminate. }
  pose proof (ref_hash_run kdf mem_ceiling params st ty Haddr) as Hcall.
  destruct (ref_validate mem_ceiling params) as [e|] eqn:Hval.
  { exfalso. eapply Hfail; [|exact Hcall]. by apply validate_error in Hval as [? _]. }
  destruct (type_tag (to_int32 ty)) as [tag|] eqn:Htag.
  2:{ exfalso. eapply Hfail; [|exact Hcall]. done. }
  destruct (Z.ltb_spec (Z.of_nat (length (ref_text kdf params ty tag))) 512) as [Hfits|Hfits].
  2:{ exfalso. eapply Hfail; [|exact Hcall]. done. }
  exists ty, tag. do 5 (split; [done|]).
  destruct (ref_argon2Hash_ok params st ty tag Haddr Hlen Hty Hval Htag Hfits)
    as (digest & st'' & Heq & _).
  rewrite Heq in Hrun. by injection Hrun as _ _ <- _.
Qed.

End RefHashResult.

(** ** Error results over the reference module *)

Section RefErrors.

Context (kdf : Z -> Z -> Z -> Z -> Z -> list Z -> list Z -> Z -> list Z).

Context (mem_ceiling : Z).

Lemma stringify_message e k :
  stringify (rodata ++ k) (message_ptr e) = JStr (error_text e).
Proof. destruct e; reflexivity. Qed.

Lemma error_text_truthy e : truthy (JStr (error_text e)) = true.
Proof. by destruct e. Qed.

Lemma error_result_ref code st :
  rodata_ok st ->
  error_result (ref_core kdf mem_ceiling) (JNum code) JUndefined st
  = (Ret (error_object (JStr (error_text (error_of_code (wrap32 code)))) (JNum code),
          JStr (error_text (error_of_code (wrap32 code)))), st).
Proof.
  intros [k Hk]. unfold error_result, bind, try_catch, call_argon2_error_message.
  cbn [truthy negb to_int32 ref_core _argon2_error_message ref_error_message].
  rewrite set_heap_id, Pointer_stringify_run, Hk, stringify_message. reflexivity.
Qed.

Lemma rodata_ok_alloc st slab : rodata_ok st -> rodata_ok (st_alloc st slab).
Proof.
  intros [k Hk]. exists (k ++ malloc_bytes (map to_i8 slab)).
  unfold st_alloc. cbn [HEAP8]. by rewrite Hk, app_assoc.
Qed.

Lemma hash_result_ref_fail pwd salt hash encoded hashlen code st :
  rodata_ok st -> code <> 0 ->
  hash_result (ref_core kdf mem_ceiling) pwd salt hash encoded hashlen
              (JNum code) JUndefined st
  = (Throw (error_object (JStr (error_text (error_of_code (wrap32 code)))) (JNum code)),
     st_free st [pwd; salt; hash; encoded]).
Proof.
  intros Hro Hcode. unfold hash_result, bind at 1.
  cbn [strict_eq_zero]. destruct (Z.eqb_spec code 0) as [|_]; [done|].
  cbn [andb]. rewrite error_result_ref by done.
  pose proof (error_text_truthy (error_of_code (wrap32 code))) as Hmsg.
  set (msg := JStr (error_text (error_of_code (wrap32 code)))) in *. clearbody msg.
  unfold bind, try_catch, _free, ret, throw. cbn. by rewrite Hmsg.
Qed.

Lemma verify_result_ref_fail pwd enc code st :
  rodata_ok st -> code <> 0 ->
  verify_result (ref_core kdf mem_ceiling) pwd enc (JNum code) JUndefined st
  = (Throw (error_object (JStr (error_text (error_of_code (wrap32 code)))) (JNum code)),
     st_free st [pwd; enc]).
Proof.
  intros Hro Hcode. unfold verify_result, bind at 1.
  cbn [truthy]. destruct (Z.eqb_spec code 0) as [|_]; [done|].
  cbn [negb orb]. rewrite error_result_ref by done.
  pose proof (error_text_truthy (error_of_code (wrap32 code))) as Hmsg.
  set (msg := JStr (error_text (error_of_code (wrap32 code)))) in *. clearbody msg.
  unfold bind, try_catch, _free, ret, throw. cbn. by rewrite Hmsg.
Qed.

End RefErrors.

(** ** [argon2Verify] over the reference module *)

Section RefVerify.

Context (kdf : Z -> Z -> Z -> Z -> Z -> list Z -> list Z -> Z -> list Z).

Context (mem_ceiling : Z).

Lemma verify_heap2 params st :
  HEAP8 (verify_st2 params st)
  = HEAP8 st ++ buffer (vp_pass params) ++ buffer (vp_encoded params).
Proof.
  unfold verify_st2, verify_st1, st_alloc, buffer. cbn [HEAP8].
  by rewrite <- app_assoc.
Qed.

Lemma verify_ptr1 params st :
  ptr_of (verify_st1 params st)
  = Z.of_nat (length (HEAP8 st ++ buffer (vp_pass params))).
Proof. reflexivity. Qed.

Lemma verify_ptrs_increase params st :
  ptr_of st < ptr_of (verify_st1 params st)
  /\ ptr_of (verify_st1 params st) < ptr_of (verify_st2 params st).
Proof. split; apply ptr_of_alloc. Qed.

Lemma ref_verify_run pass s vty st ty :
  let params := VerifyParams pass (Str s) vty in
  addressable (verify_st2 params st) ->
  verify_call (ref_core kdf mem_ceiling) params st ty
  = (Ret (error_code (ref_verify_code kdf mem_ceiling (c_text s) (to_int32 ty)
                                     (seen pass))),
     HEAP8 (verify_st2 params st)).
Proof.
  intros params Haddr. unfold addressable in Haddr.
  destruct (verify_ptrs_increase params st) as [H1 H2].
  assert (0 <= ptr_of st) by (unfold ptr_of; lia).
  unfold verify_call, ref_core, ref_verify, verify_call_args, ref_verify_code.
  cbn [_argon2_verify v_encoded v_pwd v_pwdlen v_type].
  rewrite (u32_wrap32_small (ptr_of (verify_st1 params st))) by lia.
  assert (Htext : map chr (c_string_at (HEAP8 (verify_st2 params st))
                             (ptr_of (verify_st1 params st))) = c_text s).
  { rewrite verify_heap2, verify_ptr1. unfold c_string_at.
    rewrite Nat2Z.id, app_assoc, drop_app_length.
    rewrite <- (app_nil_r (buffer _)). apply c_string_buffer. }
  rewrite Htext.
  destruct (type_tag (to_int32 ty)); [|done].
  destruct (decode_string (c_text s)) as [d|]; [|done].
  destruct (negb (d_type d =? to_int32 ty)); [done|].
  destruct (validate mem_ceiling _ _ _ _); [done|].
  assert (Hpwd : read_bytes (HEAP8 (verify_st2 params st)) (u32 (wrap32 (ptr_of st)))
                   (u32 (wrap32 (js_length (vp_pass params)))) = seen pass).
  { rewrite verify_heap2. apply read_seen. unfold ptr_of in *. lia. }
  rewrite Hpwd. by destruct (digests_equal _ _).
Qed.

Lemma ct_diff_refl (l : list Z) : ct_diff l l = 0.
Proof.
  unfold ct_diff. induction l as [|b l IH]; simpl; [done|].
  by rewrite Z.lxor_nilpotent.
Qed.

Lemma digests_equal_refl (l : list Z) : digests_equal l l = true.
Proof.
  unfold digests_equal. by rewrite Nat.eqb_refl, ct_diff_refl.
Qed.

Lemma fold_lor_zero (l : list Z) acc :
  fold_left Z.lor l acc = 0 <-> acc = 0 /\ Forall (fun x => x = 0) l.
Proof.
  revert acc. induction l as [|x l IH]; intros acc; simpl.
  - split; [by intros ->|by intros [-> _]].
  - rewrite IH, Z.lor_eq_0_iff. split.
    + intros [[-> ->] Hl]. by repeat constructor.
    + intros [-> Hl]. apply Forall_cons in Hl as [-> Hl]. done.
Qed.

Lemma digests_equal_eq (a b : list Z) : digests_equal a b = true <-> a = b.
Proof.
  split; [|intros ->; apply digests_equal_refl].
  unfold digests_equal, ct_diff. intros H.
  apply andb_true_iff in H as [Hlen Hdiff].
  apply Nat.eqb_eq in Hlen. apply Z.eqb_eq, fold_lor_zero in Hdiff as [_ Hall].
  revert b Hlen Hall. induction a as [|x a IH]; intros [|y b] Hlen Hall;
    simpl in *; try done.
  apply Forall_cons in Hall as [Hxy Hall].
  apply Z.lxor_eq in Hxy as ->. f_equal. apply IH; [lia|done].
Qed.

(** The variant the wrapper reads off a string the module encoded. *)
Lemma split_string (text : list ascii) :
  split (string_of_list_ascii text) "$"
  = map string_of_list_ascii (split_on "$" text).
Proof. unfold split. by rewrite list_ascii_of_string_of_list_ascii. Qed.

Lemma verify_variant_encoded ty tag version m t p salt digest :
  type_tag ty = Some tag -> byte_list salt -> byte_list digest ->
  verify_variant None
    (string_of_list_ascii (encode_string tag version m t p salt digest)) = ty.
Proof.
  intros Htag Hsalt Hdigest. unfold verify_variant, tag_field.
  rewrite split_string, split_encode by eauto using type_tag_ok.
  cbn [map lookup list_lookup].
  unfold type_tag in Htag.
  repeat case_match; simplify_eq; vm_compute; lia.
Qed.

End RefVerify.

(** ** Hash, then verify *)

Section RoundTrip.

Context (kdf : Z -> Z -> Z -> Z -> Z -> list Z -> list Z -> Z -> list Z).

Context (mem_ceiling : Z).

Context (Hkdf : kdf_ok kdf).

Lemma cost_nonneg x : 0 <= cost x.
Proof. unfold cost, u32. apply Z.mod_pos_bound. lia. Qed.

(** What [_argon2_verify] answers for a string [_argon2_hash] encoded. *)
Lemma ref_verify_code_encoded params ty tag pwd :
  type_tag (to_int32 ty) = Some tag ->
  ref_validate mem_ceiling params = None ->
  ref_verify_code kdf mem_ceiling (ref_text kdf params ty tag) (to_int32 ty) pwd
  = if digests_equal
         (kdf (to_int32 ty) 19 (cost (num_or (hp_time params) 1))
              (cost (num_or (hp_mem params) 1024))
              (cost (num_or (hp_parallelism params) 1)) pwd
              (seen (hp_salt params)) (cost (hash_len params)))
         (ref_digest kdf params ty)
    then ARGON2_OK else ARGON2_VERIFY_MISMATCH.
Proof.
  intros Htag Hval. unfold ref_verify_code, ref_text.
  rewrite (decode_encode (to_int32 ty))
    by eauto using cost_nonneg, seen_bytes, ref_digest_bytes || lia.
  rewrite Htag.
  cbn [d_type d_version d_t_cost d_m_cost d_parallelism d_salt d_digest].
  rewrite Z.eqb_refl. cbn [negb].
  replace (Z.of_nat (length (ref_digest kdf params ty))) with (cost (hash_len params)).
  { unfold ref_validate in Hval. by rewrite Hval. }
  unfold ref_digest at 1.
  destruct (Hkdf (to_int32 ty) 19 (cost (num_or (hp_time params) 1))
              (cost (num_or (hp_mem params) 1024))
              (cost (num_or (hp_parallelism params) 1))
              (seen (hp_pass params)) (seen (hp_salt params))
              (cost (hash_len params))) as [-> _].
  pose proof (cost_nonneg (hash_len params)). lia.
Qed.

(** The variant [argon2Verify] hands to the module for a string that
    [argon2Hash] returned. *)
Lemma verify_type_after_hash params st ty tag pass' vty :
  hash_type params st = Ret ty ->
  type_tag (to_int32 ty) = Some tag ->
  vty = None \/ (exists t, vty = Some t /\ wrap32 t = to_int32 ty) ->
  exists v,
    verify_type (VerifyParams pass'
                   (Str (string_of_list_ascii (ref_text kdf params ty tag))) vty)
    = Ret v
    /\ to_int32 v = to_int32 ty.
Proof.
  intros Hty Htag Hvty.
  destruct (verify_type_value pass'
              (string_of_list_ascii (ref_text kdf params ty tag)) vty)
    as (v & Hv & Hint).
  exists v. split; [done|]. rewrite Hint.
  destruct Hvty as [->|(t & -> & Ht)].
  - apply verify_variant_encoded; eauto using seen_bytes, ref_digest_bytes.
  - exact Ht.
Qed.

(** A [type] given to [argon2Verify] as it was to [argon2Hash], when it is
    not 0. *)
Lemma same_explicit_type params st ty vty :
  hash_type params st = Ret ty ->
  vty = None \/ (exists t, vty = Some t /\ hp_type params = Some t /\ t <> 0) ->
  vty = None \/ (exists t, vty = Some t /\ wrap32 t = to_int32 ty).
Proof.
  intros Hty [->|(t & -> & Ht & Hne)]; [by left|right].
  exists t. split; [done|].
  rewrite (hash_type_explicit params st t Ht Hne) in Hty. by injection Hty as <-.
Qed.

(** [argon2Verify] on what [argon2Hash] returned, for a password the
    module reads the same bytes of. *)
Lemma verify_after_hash params st h hx encoded st' pass' vty st1 :
  addressable (hash_st4 params st) ->
  argon2Hash (ref_core kdf mem_ceiling) params st
  = (Ret (JObj [("hash", h); ("hashHex", hx); ("encoded", JStr encoded)]), st') ->
  seen pass' = seen (hp_pass params) ->
  vty = None
  \/ (exists t ty, vty = Some t /\ hash_type params st = Ret ty
                   /\ wrap32 t = to_int32 ty) ->
  addressable (verify_st2 (VerifyParams pass' (Str encoded) vty) st1) ->
  (argon2Verify (ref_core kdf mem_ceiling)
                (VerifyParams pass' (Str encoded) vty) st1).1
  = Ret JUndefined.
Proof.
  intros Haddr Hrun Hseen Hvty Haddr1.
  destruct (ref_argon2Hash_inv kdf mem_ceiling Hkdf params st h hx _ st' Haddr Hrun)
    as (ty & tag & Hlen & Hty & Hval & Htag & Hfits & Henc).
  injection Henc as ->.
  assert (Hvty' : vty = None \/ (exists t, vty = Some t /\ wrap32 t = to_int32 ty)).
  { destruct Hvty as [->|(t & ty' & -> & Hty' & Ht)]; [by left|right].
    exists t. split; [done|]. rewrite Hty in Hty'. by injection Hty' as <-. }
  destruct (verify_type_after_hash params st ty tag pass' vty Hty Htag Hvty')
    as (v & Hv & Hint).
  rewrite (argon2Verify_call _ _ st1 v Hv).
  unfold verify_st3. rewrite ref_verify_run by done.
  rewrite c_text_plain by (by apply ref_text_plain).
  rewrite Hint, ref_verify_code_encoded by done.
  rewrite Hseen. fold (ref_digest kdf params ty).
  rewrite digests_equal_refl. cbn [fst snd res_of err_of error_code].
  by rewrite verify_result_ok.
Qed.


End RoundTrip.

(** ** Passwords outside ASCII *)

Section Truncation.

Context (kdf : Z -> Z -> Z -> Z -> Z -> list Z -> list Z -> Z -> list Z).

Context (mem_ceiling : Z).

Context (Hkdf : kdf_ok kdf).

(** C4.  A password that differs from the original in one byte is not
    always reported as a mismatch.  The wrapper passes [params.pass.length],
    the number of UTF-16 code units, as the length of the UTF-8 buffer: of
    the one-character passwords U+00E9 (bytes C3 A9) and U+00E3 (bytes C3
    A3) the module reads the single byte C3, and [argon2Verify] with the
    second succeeds on the hash of the first, for every memory-hard
    function. *)
Theorem verify_accepts_other_password params st h hx encoded st' st1 :
  hp_pass params = Str e_acute ->
  addressable (hash_st4 params st) ->
  argon2Hash (ref_core kdf mem_ceiling) params st
  = (Ret (JObj [("hash", h); ("hashHex", hx); ("encoded", JStr encoded)]), st') ->
  addressable (verify_st2 (VerifyParams (Str a_tilde) (Str encoded) None) st1) ->
  (argon2Verify (ref_core kdf mem_ceiling)
                (VerifyParams (Str a_tilde) (Str encoded) None) st1).1
  = Ret JUndefined.
Proof.
  intros Hpass Haddr Hrun Haddr1.
  eapply (verify_after_hash kdf mem_ceiling Hkdf); eauto.
  by rewrite Hpass.
Qed.

Lemma rodata_ok_hash_st4 params st : rodata_ok st -> rodata_ok (hash_st4 params st).
Proof. intros. by repeat apply rodata_ok_alloc. Qed.

Lemma rodata_ok_verify_st2 params st : rodata_ok st -> rodata_ok (verify_st2 params st).
Proof. intros. by repeat apply rodata_ok_alloc. Qed.

Lemma rodata_ok_log ev st : rodata_ok st -> rodata_ok (log ev st).
Proof. done. Qed.

(** [argon2Hash] when the module rejects the parameters. *)
Lemma ref_argon2Hash_invalid params st ty e :
  rodata_ok st -> addressable (hash_st4 params st) ->
  array_length_ok (hash_len params) ->
  hash_type params st = Ret ty ->
  ref_validate mem_ceiling params = Some e ->
  argon2Hash (ref_core kdf mem_ceiling) params st
  = (Throw (JObj [("message", JStr (error_text e)); ("code", JNum (error_code e))]),
     st_free (log (EvHash (hash_call_args params st ty) (Ret (error_code e)))
                  (hash_st4 params st))
             [ptr_of st; ptr_of (hash_st1 params st);
              ptr_of (hash_st2 params st); ptr_of (hash_st3 params st)]).
Proof.
  intros Hro Haddr Hlen Hty Hval.
  rewrite (argon2Hash_call _ params st ty Hlen Hty).
  unfold hash_st5. rewrite ref_hash_run, Hval by done.
  cbn [fst snd res_of err_of]. rewrite set_heap_id.
  destruct (validate_error mem_ceiling _ _ _ _ e Hval) as (Hne & _ & Hof).
  rewrite hash_result_ref_fail
    by (done || by apply rodata_ok_log, rodata_ok_hash_st4).
  replace (wrap32 (error_code e)) with (error_code e)
    by (unfold ref_validate, validate in Hval; repeat case_match; by simplify_eq).
  by rewrite Hof.
Qed.

Lemma validate_small_memory params :
  0 < num_or (hp_parallelism params) 1 < 4294967296 ->
  0 < num_or (hp_mem params) 1024 < 8 * num_or (hp_parallelism params) 1 ->
  ref_validate mem_ceiling params = Some ARGON2_OUTPUT_TOO_SHORT
  \/ ref_validate mem_ceiling params = Some ARGON2_MEMORY_TOO_LITTLE.
Proof.
  intros Hp Hm. unfold ref_validate, validate.
  destruct (cost (hash_len params) <? 4); [by left|right].
  rewrite (cost_small (num_or (hp_parallelism params) 1)) by lia.
  assert (cost (num_or (hp_mem params) 1024) <= num_or (hp_mem params) 1024).
  { unfold cost. rewrite u32_wrap32. apply Z.mod_le; lia. }
  destruct (Z.ltb_spec (cost (num_or (hp_mem params) 1024))
                       (8 * num_or (hp_parallelism params) 1)); [done|lia].
Qed.

Lemma validate_short_output params :
  1 <= hash_len params <= 3 ->
  ref_validate mem_ceiling params = Some ARGON2_OUTPUT_TOO_SHORT.
Proof.
  intros Hn. unfold ref_validate, validate.
  rewrite (cost_small (hash_len params)) by lia.
  destruct (Z.ltb_spec (hash_len params) 4); [done|lia].
Qed.

End Truncation.

(** ** Parameter boundaries and malformed strings *)

Section Boundaries.

Context (kdf : Z -> Z -> Z -> Z -> Z -> list Z -> list Z -> Z -> list Z).

Context (mem_ceiling : Z).

Context (Hkdf : kdf_ok kdf).

(** C2, amended.  Over the reference module, for a call of [argon2Hash]
    whose variant resolves: a memory cost from 1 to 8 * parallelism - 1, or
    an output length from 1 to 3, makes it throw [{ message, code }] with a
    code of the ParameterError kind (output too short for the latter), and
    the whole run is the same whatever the memory-hard function is; an
    output length of 4 yields a result with a 4-byte digest when the other
    parameters are valid and the encoded text fits its buffer; and a
    parallelism, an output length or a memory cost of 0 is an omitted field
    (defaults 1, 24 and 1024), not an error of its own. *)
Theorem hash_parameter_boundaries params st ty :
  rodata_ok st -> addressable (hash_st4 params st) ->
  array_length_ok (hash_len params) ->
  hash_type params st = Ret ty ->
  let run := argon2Hash (ref_core kdf mem_ceiling) params st in
  let p := num_or (hp_parallelism params) 1 in
  let m := num_or (hp_mem params) 1024 in
  (* a memory cost from 1 to 8p - 1, an output length from 1 to 3 *)
  ((0 < p < 4294967296 /\ 0 < m < 8 * p) \/ 1 <= hash_len params <= 3 ->
   exists e,
     run.1 = Throw (JObj [("message", JStr (error_text e));
                          ("code", JNum (error_code e))])
     /\ kind_of_code (error_code e) = ParameterError
     /\ (1 <= hash_len params <= 3 -> e = ARGON2_OUTPUT_TOO_SHORT)
     /\ forall kdf', argon2Hash (ref_core kdf' mem_ceiling) params st = run)
  (* an output length of 4 *)
  /\ (hash_len params = 4 ->
      forall tag,
        8 * cost p <= cost m <= mem_ceiling ->
        1 <= cost (num_or (hp_time params) 1) -> 1 <= cost p <= 16777215 ->
        type_tag (to_int32 ty) = Some tag ->
        Z.of_nat (length (ref_text kdf params ty tag)) < 512 ->
        exists digest,
          run.1 = Ret (JObj [("hash", JBytes digest);
                             ("hashHex", JStr (hex_of_bytes digest));
                             ("encoded",
                              JStr (string_of_list_ascii (ref_text kdf params ty tag)))])
          /\ length digest = 4%nat)
  (* a 0 is an omitted field *)
  /\ (forall mem hashLen,
        argon2Hash (ref_core kdf mem_ceiling) (with_costs params mem hashLen (Some 0)) st
        = argon2Hash (ref_core kdf mem_ceiling) (with_costs params mem hashLen None) st)
  /\ (forall mem parallelism,
        argon2Hash (ref_core kdf mem_ceiling) (with_costs params mem (Some 0) parallelism) st
        = argon2Hash (ref_core kdf mem_ceiling) (with_costs params mem None parallelism) st)
  /\ (forall hashLen parallelism,
        argon2Hash (ref_core kdf mem_ceiling) (with_costs params (Some 0) hashLen parallelism) st
        = argon2Hash (ref_core kdf mem_ceiling) (with_costs params None hashLen parallelism) st).
Proof.
  intros Hro Haddr Hlen Hty run p m.
  split; [|split; [|by repeat split]].
  - intros Hcase.
    assert (Hval : exists e, ref_validate mem_ceiling params = Some e
                     /\ (1 <= hash_len params <= 3 -> e = ARGON2_OUTPUT_TOO_SHORT)).
    { destruct (decide (1 <= hash_len params <= 3)) as [Hn|Hn].
      - exists ARGON2_OUTPUT_TOO_SHORT. split; [|done].
        by apply validate_short_output.
      - destruct Hcase as [[Hp Hm]|Hn']; [|done].
        destruct (validate_small_memory mem_ceiling params Hp Hm) as [H|H];
          eexists; (split; [exact H|done]). }
    destruct Hval as (e & Hval & He). exists e.
    pose proof (validate_error mem_ceiling _ _ _ _ e Hval) as (_ & Hkind & _).
    split; [|split; [done|split; [done|]]].
    + unfold run. by rewrite (ref_argon2Hash_invalid kdf mem_ceiling params st ty e).
    + intros kdf'. unfold run.
      rewrite (ref_argon2Hash_invalid kdf mem_ceiling params st ty e) by done.
      by rewrite (ref_argon2Hash_invalid kdf' mem_ceiling params st ty e).
  - intros Hn tag Hm Ht Hp Htag Hfits.
    assert (Hval : ref_validate mem_ceiling params = None).
    { unfold ref_validate, validate. rewrite Hn.
      change (cost 4 <? 4) with false. cbv iota.
      fold p m.
      destruct (Z.ltb_spec (cost m) (8 * cost p)); [lia|].
      destruct (Z.ltb_spec mem_ceiling (cost m)); [lia|].
      destruct (Z.ltb_spec (cost (num_or (hp_time params) 1)) 1); [lia|].
      destruct (Z.ltb_spec (cost p) 1); [lia|].
      destruct (Z.ltb_spec 16777215 (cost p)); [lia|done]. }
    destruct (argon2Hash_cases (ref_core kdf mem_ceiling) params st)
      as [[Hbad _]|[(e & _ & Hthrow & _)|(ty' & _ & Hty' & Hcall)]];
      [done|congruence|].
    rewrite Hty in Hty'. injection Hty' as <-.
    destruct (ref_argon2Hash_ok kdf mem_ceiling Hkdf params st ty tag
                Haddr Hlen Hty Hval Htag Hfits) as (digest & st' & Hrun & Htr).
    exists digest. unfold run. rewrite Hrun. split; [done|].
    destruct (hash_result_of_success (ref_core kdf mem_ceiling) params st _ st' _
                Hrun Htr) as (Heq & _ & _ & Hdlen & _).
    assert (Hd : JBytes digest = JBytes (digest_at (HEAP8 st') (ptr_of (hash_st2 params st))
                                                  (hash_len params))) by congruence.
    injection Hd as ->. apply Nat2Z.inj. by rewrite Hdlen, Hn.
Qed.

(** Over the reference module: when the digest of the bytes the module
    reads for another password differs from the one encoded,
    [argon2Verify] throws [{ message, code: -35 }], a VerificationMismatch,
    whose code is not the one of a ParseError. *)
Theorem verify_reports_mismatch params st h hx encoded st' pass' vty st1 ty :
  addressable (hash_st4 params st) ->
  argon2Hash (ref_core kdf mem_ceiling) params st
  = (Ret (JObj [("hash", h); ("hashHex", hx); ("encoded", JStr encoded)]), st') ->
  hash_type params st = Ret ty ->
  kdf (to_int32 ty) 19 (cost (num_or (hp_time params) 1))
      (cost (num_or (hp_mem params) 1024))
      (cost (num_or (hp_parallelism params) 1)) (seen pass')
      (seen (hp_salt params)) (cost (hash_len params))
  <> ref_digest kdf params ty ->
  vty = None \/ (exists t, vty = Some t /\ hp_type params = Some t /\ t <> 0) ->
  rodata_ok st1 ->
  addressable (verify_st2 (VerifyParams pass' (Str encoded) vty) st1) ->
  (argon2Verify (ref_core kdf mem_ceiling)
                (VerifyParams pass' (Str encoded) vty) st1).1
  = Throw (JObj [("message", JStr "The password does not match the supplied hash");
                 ("code", JNum (-35))])
  /\ kind_of_code (-35) = VerificationMismatch
  /\ kind_of_code (-35) <> kind_of_code (-32).
Proof.
  intros Haddr Hrun Hty Hdiff Hvty Hro Haddr1. split; [|done].
  destruct (ref_argon2Hash_inv kdf mem_ceiling Hkdf params st h hx _ st' Haddr Hrun)
    as (ty' & tag & Hlen & Hty' & Hval & Htag & Hfits & Henc).
  rewrite Hty in Hty'. injection Hty' as <-. injection Henc as ->.
  destruct (verify_type_after_hash kdf Hkdf params st ty tag pass' vty Hty Htag
              (same_explicit_type params st ty vty Hty Hvty))
    as (v & Hv & Hint).
  rewrite (argon2Verify_call _ _ st1 v Hv).
  unfold verify_st3. rewrite ref_verify_run by done.
  rewrite c_text_plain by (by apply ref_text_plain).
  rewrite Hint, ref_verify_code_encoded by done.
  destruct (digests_equal _ _) eqn:Heq.
  { by apply digests_equal_eq in Heq. }
  cbn [fst snd res_of err_of error_code]. rewrite set_heap_id.
  rewrite verify_result_ref_fail
    by (done || by apply rodata_ok_log, rodata_ok_verify_st2).
  done.
Qed.

End Boundaries.

(** ** The model at concrete inputs *)

(** [checksum_kdf] returns as many bytes as asked. *)
Lemma checksum_kdf_ok : kdf_ok checksum_kdf.
Proof.
  intros ty version t m p pwd salt n. unfold checksum_kdf. split.
  - by rewrite length_map, length_seqZ.
  - apply Forall_map, Forall_forall. intros i _. apply Z.mod_pos_bound. lia.
Qed.

Lemma rodata_ok_state0 : rodata_ok state0.
Proof. exists []. symmetry. apply app_nil_r. Qed.

Lemma live_ok_state0 : live_ok state0.
Proof. intros p Hp. by apply elem_of_empty in Hp. Qed.



(** A parallelism of 0 does not fail: the module is called with a
    parallelism of 1, and the call returns what it returns without the
    field. *)
Lemma hash_parameter_counterexample :
  (argon2Hash core0 hash_params_lanes0 state0).1
  = Ret (JObj [("hash", JBytes [193; 200; 207; 214; 221; 228; 235; 242; 249; 0; 7; 14;
                                21; 28; 35; 42; 49; 56; 63; 70; 77; 84; 91; 98]);
               ("hashHex", JStr "c1c8cfd6dde4ebf2f900070e151c232a31383f464d545b62");
               ("encoded", JStr encoded_i)])
  /\ trace (argon2Hash core0 hash_params_lanes0 state0).2
     = [EvHash (HashArgs 1 1024 1 265 8 274 8 283 24 307 512 1 19) (Ret 0)]
  /\ argon2Hash core0 hash_params_lanes0 state0 = argon2Hash core0 hash_params_i state0.
Proof. repeat split; vm_compute; reflexivity. Qed.


(** The precedence rule at some encoded strings: [toString] is no variant
    name, although [ArgonType] inherits a property of that name. *)
Lemma verify_variant_examples :
  verify_variant (Some 0) encoded_i = 0
  /\ verify_variant (Some 2) encoded_i = 2
  /\ verify_variant None encoded_i = 1
  /\ verify_variant None "$argon2d$v=19$m=8,t=1,p=1$c29tZXNhbHQ$AAAA" = 0
  /\ verify_variant None "$argon2id$v=19$m=8,t=1,p=1$c29tZXNhbHQ$AAAA" = 2
  /\ verify_variant None "$argon2x$v=19$m=8,t=1,p=1$c29tZXNhbHQ$AAAA" = 0
  /\ verify_variant None "$toString$v=19" = 0
  /\ verify_variant None "no dollar sign" = 0
  /\ verify_variant None "$$v=19" = 0.
Proof. repeat split; reflexivity. Qed.

(** An output length of 3: the code is -2 and the object has two fields. *)
Lemma hash_failure_carries_no_digest_witness :
  exists msg fields,
    value_of (argon2Hash core0 hash_params_short state0).1 = JObj fields
    /\ fields = [("message", msg); ("code", JNum (-2))]
    /\ own_property fields "hash" = None
    /\ own_property fields "hashHex" = None
    /\ own_property fields "encoded" = None.
Proof.
  eapply (hash_failure_carries_no_digest core0 hash_params_short state0 _ _ _ (Ret (-2))).
  - apply surjective_pairing.
  - vm_compute. reflexivity.
  - discriminate.
Defined.

(** The result of hashing ["password"] as Argon2i. *)
Lemma hash_success_result_witness :
  exists digest,
    (argon2Hash core0 hash_params_i state0).1
    = Ret (JObj [("hash", JBytes digest);
                 ("hashHex", JStr (hex_of_bytes digest));
                 ("encoded", JStr encoded_i)])
    /\ digest = checksum_kdf 1 19 1 1024 1 (codes "password") (codes "somesalt") 24
    /\ hex_of_bytes digest = "c1c8cfd6dde4ebf2f900070e151c232a31383f464d545b62".
Proof.
  destruct (hash_success_result core0 hash_params_i state0
              (argon2Hash core0 hash_params_i state0).1
              (argon2Hash core0 hash_params_i state0).2
              (HashArgs 1 1024 1 265 8 274 8 283 24 307 512 1 19))
    as (hash & encoded & digest & heap0 & Ho & _).
  - apply surjective_pairing.
  - vm_compute. reflexivity.
  - assert (Hd : JBytes digest
                 = JBytes (checksum_kdf 1 19 1 1024 1 (codes "password")
                             (codes "somesalt") 24)).
    { pose proof Ho as Ho'. vm_compute in Ho'. vm_compute. congruence. }
    injection Hd as ->. exists (checksum_kdf 1 19 1 1024 1 (codes "password")
                                  (codes "somesalt") 24).
    repeat split; vm_compute; reflexivity.
Defined.

(** [argon2.hash({ pass: "password", salt: "somesalt" })] in a scope
    without a global [argon2]. *)
Lemma hash_default_type_unbound_witness :
  exists st',
    argon2Hash core0 hash_params_default state0
    = (Throw (JErr "ReferenceError" "argon2 is not defined"), st')
    /\ trace st' = trace state0.
Proof.
  apply (hash_default_type_unbound core0 hash_params_default state0).
  - reflexivity.
  - left. reflexivity.
  - unfold array_length_ok, hash_len. simpl. lia.
Defined.

(** The same call leaves four blocks live. *)
Lemma hash_leaks_on_unbound_default_witness :
  exists e pwd salt hash encoded,
    (argon2Hash core0 hash_params_default state0).1 = Throw e
    /\ pwd < salt < hash /\ hash < encoded
    /\ {[ pwd; salt; hash; encoded ]} ⊆ live (argon2Hash core0 hash_params_default state0).2.
Proof.
  apply (hash_leaks_on_unbound_default core0 hash_params_default state0).
  - reflexivity.
  - left. reflexivity.
  - unfold array_length_ok, hash_len. simpl. lia.
Defined.

(** An output length of -1: a RangeError, and two blocks stay live. *)
Lemma hash_leaks_on_range_error_witness :
  (argon2Hash core0 hash_params_negative state0).1
  = Throw (JErr "RangeError" "Invalid array length")
  /\ trace (argon2Hash core0 hash_params_negative state0).2 = trace state0
  /\ ptr_of state0 < ptr_of (hash_st1 hash_params_negative state0)
  /\ {[ ptr_of state0; ptr_of (hash_st1 hash_params_negative state0) ]}
       ⊆ live (argon2Hash core0 hash_params_negative state0).2.
Proof.
  apply (hash_leaks_on_range_error core0 hash_params_negative state0).
  unfold array_length_ok, hash_len. simpl. lia.
Defined.

(** [encoded_e] is the hash of U+00E9; U+00E3 verifies against it. *)
Lemma verify_accepts_other_password_witness :
  (argon2Verify core0
     (VerifyParams (Str a_tilde)
        (Str encoded_e)
        None) state0).1
  = Ret JUndefined.
Proof.
  eapply (verify_accepts_other_password checksum_kdf 4194304 checksum_kdf_ok
            hash_params_e state0 _ _ _ _ state0).
  - reflexivity.
  - by vm_compute.
  - vm_compute. reflexivity.
  - by vm_compute.
Defined.

(** An output length of 3 is too short. *)
Lemma hash_parameter_boundaries_witness :
  exists e,
    (argon2Hash core0 hash_params_short state0).1
    = Throw (JObj [("message", JStr (error_text e)); ("code", JNum (error_code e))])
    /\ kind_of_code (error_code e) = ParameterError
    /\ e = ARGON2_OUTPUT_TOO_SHORT.
Proof.
  assert (Hshort : 1 <= hash_len hash_params_short <= 3)
    by (unfold hash_len; simpl; lia).
  destruct (hash_parameter_boundaries checksum_kdf 4194304 checksum_kdf_ok
              hash_params_short state0 (JNum 1)) as [H _].
  - exact rodata_ok_state0.
  - by vm_compute.
  - unfold array_length_ok, hash_len. simpl. lia.
  - reflexivity.
  - destruct (H (or_intror Hshort)) as (e & H1 & H2 & H3 & _).
    exists e. split; [exact H1|]. split; [exact H2|]. exact (H3 Hshort).
Defined.

(** The arguments of the module for a call with a zero time cost, a
    memory cost of 2048, a zero parallelism and no output length. *)
Lemma hash_defaults_reach_core_witness :
  let a := HashArgs 1 2048 1 265 8 274 8 283 24 307 512 1 19 in
  a_t_cost a = 1 /\ a_m_cost a = wrap32 2048 /\ a_parallelism a = 1
  /\ a_hashlen a = 24 /\ a_encodedlen a = 512 /\ a_version a = 19.
Proof.
  destruct (hash_defaults_reach_core core0 hash_params_mixed state0
              (argon2Hash core0 hash_params_mixed state0).1
              (argon2Hash core0 hash_params_mixed state0).2
              (HashArgs 1 2048 1 265 8 274 8 283 24 307 512 1 19) (Ret 0))
    as (Ht & _ & _ & Hm & Hp & _ & Hh & _ & He & Hv & _).
  - apply surjective_pairing.
  - vm_compute. reflexivity.
  - split; [exact (Ht (or_intror eq_refl))|].
    split; [apply (Hm 2048 eq_refl); lia|].
    split; [exact (Hp (or_intror eq_refl))|].
    split; [exact (Hh (or_introl eq_refl))|]. by split.
Defined.

(** No block is live after a successful hash, *)
Lemma hash_frees_after_call_witness :
  live (argon2Hash core0 hash_params_i state0).2 = live state0.
Proof.
  eapply (hash_frees_after_call core0 hash_params_i state0 _ _ _ (Ret 0)).
  - exact live_ok_state0.
  - apply surjective_pairing.
  - vm_compute. reflexivity.
Defined.

(** ... nor after a verification that fails. *)
Lemma verify_frees_after_call_witness :
  live (argon2Verify core0 (VerifyParams (Str "passwore") (Str encoded_i) None) state0).2
  = live state0.
Proof.
  eapply (verify_frees_after_call core0 _ state0 _ _ _ (Ret (-35))).
  - exact live_ok_state0.
  - apply surjective_pairing.
  - vm_compute. reflexivity.
Defined.

(** ["passwore"] does not verify against the hash of ["password"]. *)
Lemma verify_reports_mismatch_witness :
  (argon2Verify core0 (VerifyParams (Str "passwore") (Str encoded_i) None) state0).1
  = Throw (JObj [("message", JStr "The password does not match the supplied hash");
                 ("code", JNum (-35))])
  /\ kind_of_code (-35) = VerificationMismatch
  /\ kind_of_code (-35) <> kind_of_code (-32).
Proof.
  eapply (verify_reports_mismatch checksum_kdf 4194304 checksum_kdf_ok
            hash_params_i state0 _ _ encoded_i _ (Str "passwore") None state0 (JNum 1)).
  - by vm_compute.
  - vm_compute. reflexivity.
  - reflexivity.
  - vm_compute. discriminate.
  - by left.
  - exact rodata_ok_state0.
  - by vm_compute.
Defined.

(** ** The buffers the module is called with *)

Lemma heap_bytes_read heap ptr len :
  heap_bytes heap ptr len = read_bytes heap (u32 ptr) (u32 len).
Proof. reflexivity. Qed.

Lemma to_u8_to_i8_same b : to_u8 (to_i8 b) = to_u8 b.
Proof. apply to_u8_to_i8. Qed.

Lemma map_to_u8_to_i8 (l : list Z) : map to_u8 (map to_i8 l) = map to_u8 l.
Proof.
  rewrite map_map. apply map_ext. intros b. apply to_u8_to_i8.
Qed.

Lemma utf8_char_bytes c : 0 <= c < 256 -> Forall (fun b => 0 <= b < 256) (utf8_char c).
Proof.
  intros Hc. unfold utf8_char. destruct (Z.ltb_spec c 128).
  - repeat constructor; lia.
  - assert (0 <= c / 64 < 4) by (split; [apply Z.div_pos; lia|apply Z.div_lt_upper_bound; lia]).
    pose proof (Z.mod_pos_bound c 64 ltac:(lia)).
    repeat constructor; lia.
Qed.

Lemma utf8_bytes s : Forall (fun b => 0 <= b < 256) (utf8 s).
Proof.
  unfold utf8, codes. induction (list_ascii_of_string s) as [|c l IH]; simpl.
  - constructor.
  - apply Forall_app. split; [|exact IH]. apply utf8_char_bytes, code_range.
Qed.

Lemma map_to_u8_bytes (l : list Z) :
  Forall (fun b => 0 <= b < 256) l -> map to_u8 l = l.
Proof.
  induction 1 as [|b l Hb _ IH]; simpl; [done|].
  rewrite IH. unfold to_u8. by rewrite Z.mod_small.
Qed.

Lemma utf8_length_le s : (String.length s <= length (utf8 s))%nat.
Proof. rewrite string_length_codes. apply utf8_length. Qed.

(** What the module reads of an argument is [argument_bytes]. *)
Lemma seen_argument_bytes x :
  js_length x < 4294967296 -> seen x = argument_bytes x.
Proof.
  intros Hlen. unfold seen. rewrite u32_wrap32_small.
  2:{ split; [|done]. destruct x; simpl; lia. }
  destruct x as [s|b]; simpl js_length; rewrite Nat2Z.id; simpl array_of.
  - unfold intArrayFromString. fold (utf8 s).
    rewrite map_app. change (map to_i8 [0]) with [to_i8 0].
    rewrite malloc_bytes_snoc.
    rewrite take_app_le by (rewrite length_map; apply utf8_length_le).
    rewrite firstn_map, map_to_u8_to_i8.
    apply map_to_u8_bytes. apply Forall_take, utf8_bytes.
  - destruct b as [|b0 b]; [done|].
    change (malloc_bytes (map to_i8 (b0 :: b))) with (map to_i8 (b0 :: b)).
    rewrite take_ge by (by rewrite length_map).
    apply map_to_u8_to_i8.
Qed.

Lemma zeros_read n :
  map to_u8 (take (Z.to_nat n) (zeros n)) = replicate (Z.to_nat n) 0.
Proof.
  unfold zeros. destruct (Z.to_nat n) as [|k] eqn:Hk; [done|].
  change (malloc_bytes (map to_i8 (replicate (S k) 0)))
    with (map to_i8 (replicate (S k) 0)).
  rewrite take_ge by (by rewrite length_map, length_replicate).
  rewrite map_to_u8_to_i8. apply map_to_u8_bytes.
  apply Forall_replicate. lia.
Qed.

Lemma buffer_length x : Z.of_nat (length (buffer x)) = Z.max 1 (Z.of_nat (length (array_of x))).
Proof.
  unfold buffer. destruct (array_of x) as [|b l]; [done|].
  change (malloc_bytes (map to_i8 (b :: l))) with (map to_i8 (b :: l)).
  rewrite length_map. simpl length. lia.
Qed.

Lemma zeros_len n : Z.of_nat (length (zeros n)) = Z.max 1 (Z.of_nat (Z.to_nat n)).
Proof.
  unfold zeros. destruct (Z.to_nat n) as [|k]; [done|].
  change (malloc_bytes (map to_i8 (replicate (S k) 0)))
    with (map to_i8 (replicate (S k) 0)).
  rewrite length_map, length_replicate. lia.
Qed.

Lemma js_length_array x : js_length x <= Z.of_nat (length (array_of x)).
Proof.
  destruct x as [s|b]; simpl; [|lia].
  unfold intArrayFromString. rewrite length_app. fold (utf8 s).
  pose proof (utf8_length_le s). simpl. lia.
Qed.

Lemma unsigned_wrap32 x : 0 <= x < 4294967296 -> unsigned (wrap32 x) = x.
Proof. apply u32_wrap32_small. Qed.

(** The heap [argon2Hash] built and its four pointers. *)
Lemma hash_layout params st :
  addressable (hash_st4 params st) ->
  array_length_ok (hash_len params) ->
  let h0 := HEAP8 st in
  let P := buffer (hp_pass params) in
  let S := buffer (hp_salt params) in
  let H := zeros (hash_len params) in
  let E := zeros 512 in
  HEAP8 (hash_st4 params st) = h0 ++ P ++ S ++ H ++ E
  /\ unsigned (wrap32 (ptr_of st)) = Z.of_nat (length h0)
  /\ unsigned (wrap32 (ptr_of (hash_st1 params st))) = Z.of_nat (length (h0 ++ P))
  /\ unsigned (wrap32 (ptr_of (hash_st2 params st))) = Z.of_nat (length ((h0 ++ P) ++ S))
  /\ unsigned (wrap32 (ptr_of (hash_st3 params st)))
     = Z.of_nat (length (((h0 ++ P) ++ S) ++ H))
  /\ unsigned (wrap32 (js_length (hp_pass params))) = js_length (hp_pass params)
  /\ unsigned (wrap32 (js_length (hp_salt params))) = js_length (hp_salt params)
  /\ unsigned (wrap32 (hash_len params)) = hash_len params
  /\ Z.of_nat (length (h0 ++ P ++ S ++ H ++ E)) <= 4294967296.
Proof.
  intros Haddr Hlen h0 P S H E.
  pose proof (hash_heap4 params st) as Hheap. fold h0 P S H E in Hheap.
  pose proof (hash_ptrs_increase params st) as (H1 & H2 & H3 & H4).
  unfold addressable in Haddr.
  pose proof (hash_ptr1 params st) as Hp1. pose proof (hash_ptr2 params st) as Hp2.
  pose proof (hash_ptr3 params st) as Hp3. fold h0 P S H in Hp1, Hp2, Hp3.
  assert (Hp0 : ptr_of st = Z.of_nat (length h0)) by done.
  assert (Hp4 : ptr_of (hash_st4 params st) = Z.of_nat (length (h0 ++ P ++ S ++ H ++ E)))
    by (unfold ptr_of; by rewrite Hheap).
  assert (HP : js_length (hp_pass params) <= Z.of_nat (length P)).
  { pose proof (js_length_array (hp_pass params)).
    pose proof (buffer_length (hp_pass params)) as Hb. fold P in Hb. lia. }
  assert (HS : js_length (hp_salt params) <= Z.of_nat (length S)).
  { pose proof (js_length_array (hp_salt params)).
    pose proof (buffer_length (hp_salt params)) as Hb. fold S in Hb. lia. }
  assert (0 <= js_length (hp_pass params)) by (destruct (hp_pass params); simpl; lia).
  assert (0 <= js_length (hp_salt params)) by (destruct (hp_salt params); simpl; lia).
  assert (Hn : Z.of_nat (length h0) <= Z.of_nat (length (h0 ++ P))
               /\ Z.of_nat (length (h0 ++ P)) <= Z.of_nat (length ((h0 ++ P) ++ S))
               /\ Z.of_nat (length ((h0 ++ P) ++ S))
                  <= Z.of_nat (length (((h0 ++ P) ++ S) ++ H))
               /\ Z.of_nat (length (((h0 ++ P) ++ S) ++ H))
                  <= Z.of_nat (length (h0 ++ P ++ S ++ H ++ E))
               /\ Z.of_nat (length P) + Z.of_nat (length S)
                  < Z.of_nat (length (h0 ++ P ++ S ++ H ++ E)))
    by (pose proof zeros_512 as HE; fold E in HE; rewrite !length_app; lia).
  destruct Hn as (Hn1 & Hn2 & Hn3 & Hn4 & Hn5).
  split; [done|].
  split; [rewrite Hp0; apply unsigned_wrap32; lia|].
  split; [rewrite Hp1; apply unsigned_wrap32; lia|].
  split; [rewrite Hp2; apply unsigned_wrap32; lia|].
  split; [rewrite Hp3; apply unsigned_wrap32; lia|].
  split; [apply unsigned_wrap32; lia|].
  split; [apply unsigned_wrap32; lia|].
  split; [apply unsigned_wrap32; unfold array_length_ok in Hlen; lia|].
  lia.
Qed.

(** The heap at the call of [_argon2_hash], as the allocator of the model
    lays it out. *)
Lemma hash_buffers_layout core params st o st' a r :
  argon2Hash core params st = (o, st') ->
  trace st' = EvHash a r :: trace st ->
  addressable (hash_st4 params st) ->
  exists heap,
    r = (_argon2_hash core a heap).1
    /\ HEAP8 st `prefix_of` heap
    /\ heap_bytes heap (a_pwd a) (a_pwdlen a) = argument_bytes (hp_pass params)
    /\ heap_bytes heap (a_salt a) (a_saltlen a) = argument_bytes (hp_salt params)
    /\ heap_bytes heap (a_hash a) (a_hashlen a)
       = replicate (Z.to_nat (unsigned (a_hashlen a))) 0
    /\ heap_bytes heap (a_encoded a) (a_encodedlen a) = replicate 512 0
    /\ Z.of_nat (length (HEAP8 st)) = unsigned (a_pwd a)
    /\ unsigned (a_pwd a) + unsigned (a_pwdlen a) <= unsigned (a_salt a)
    /\ unsigned (a_salt a) + unsigned (a_saltlen a) <= unsigned (a_hash a)
    /\ unsigned (a_hash a) + unsigned (a_hashlen a) <= unsigned (a_encoded a)
    /\ unsigned (a_encoded a) + unsigned (a_encodedlen a) <= Z.of_nat (length heap).
Proof.
  intros Hrun Htr Haddr.
  destruct (argon2Hash_called core params st o st' a r Hrun Htr)
    as (ty & Hlen & Hty & -> & -> & _).
  destruct (hash_layout params st Haddr Hlen)
    as (Hheap & Hp0 & Hp1 & Hp2 & Hp3 & Hl1 & Hl2 & Hl3 & Htot).
  cbv zeta in *.
  set (h0 := HEAP8 st) in *. set (P := buffer (hp_pass params)) in *.
  set (S := buffer (hp_salt params)) in *. set (H := zeros (hash_len params)) in *.
  set (E := zeros 512) in *.
  exists (HEAP8 (hash_st4 params st)).
  split; [reflexivity|].
  split; [rewrite Hheap; by eexists|].
  assert (HlenP : js_length (hp_pass params) < 4294967296)
    by (rewrite <- Hl1; apply Z.mod_pos_bound; lia).
  assert (HlenS : js_length (hp_salt params) < 4294967296)
    by (rewrite <- Hl2; apply Z.mod_pos_bound; lia).
  cbn [a_pwd a_pwdlen a_salt a_saltlen a_hash a_hashlen a_encoded a_encodedlen
       hash_call_args].
  change (unsigned (wrap32 512)) with 512.
  rewrite Hp0, Hp1, Hp2, Hp3, Hl1, Hl2, Hl3.
  split.
  { rewrite heap_bytes_read, Hheap. unfold u32. fold (unsigned (wrap32 (ptr_of st))).
    fold (unsigned (wrap32 (js_length (hp_pass params)))).
    rewrite <- (seen_argument_bytes _ HlenP).
    rewrite Hp0, Hl1. unfold seen.
    rewrite u32_wrap32_small
      by (split; [destruct (hp_pass params); simpl; lia|done]).
    apply read_bytes_at.
    pose proof (js_length_buffer (hp_pass params)). exact H0. }
  split.
  { rewrite heap_bytes_read, Hheap. unfold u32.
    fold (unsigned (wrap32 (ptr_of (hash_st1 params st)))).
    fold (unsigned (wrap32 (js_length (hp_salt params)))).
    rewrite <- (seen_argument_bytes _ HlenS).
    rewrite Hp1, Hl2. unfold seen.
    rewrite u32_wrap32_small
      by (split; [destruct (hp_salt params); simpl; lia|done]).
    rewrite (app_assoc h0 P).
    apply read_bytes_at.
    pose proof (js_length_buffer (hp_salt params)). exact H0. }
  split.
  { rewrite heap_bytes_read, Hheap. unfold u32.
    fold (unsigned (wrap32 (ptr_of (hash_st2 params st)))).
    fold (unsigned (wrap32 (hash_len params))).
    rewrite Hp2, Hl3.
    rewrite (app_assoc h0 P), (app_assoc (h0 ++ P) S).
    rewrite read_bytes_at by apply zeros_length.
    apply zeros_read. }
  split.
  { rewrite heap_bytes_read, Hheap. unfold u32.
    fold (unsigned (wrap32 (ptr_of (hash_st3 params st)))).
    change (wrap32 512 mod 4294967296) with 512.
    rewrite Hp3.
    rewrite (app_assoc h0 P), (app_assoc (h0 ++ P) S), (app_assoc ((h0 ++ P) ++ S) H).
    rewrite <- (app_nil_r E) at 1.
    rewrite read_bytes_at by (unfold E; rewrite zeros_512; lia).
    apply (zeros_read 512). }
  pose proof (buffer_length (hp_pass params)) as HbP. fold P in HbP.
  pose proof (buffer_length (hp_salt params)) as HbS. fold S in HbS.
  pose proof (js_length_array (hp_pass params)).
  pose proof (js_length_array (hp_salt params)).
  pose proof (zeros_len (hash_len params)) as HbH. fold H in HbH.
  pose proof zeros_512 as HbE. fold E in HbE.
  unfold array_length_ok in Hlen.
  rewrite Hheap, !length_app in *.
  repeat split; lia.
Qed.

(** At the call of [_argon2_hash] the password and the salt buffers hold
    the bytes of the arguments over the lengths passed, and the hash and
    the encoded buffers are zero-filled; no two of the four buffers
    overlap, and each lies inside the heap. *)
Theorem hash_buffers_at_call core params st o st' a r :
  argon2Hash core params st = (o, st') ->
  trace st' = EvHash a r :: trace st ->
  addressable (hash_st4 params st) ->
  exists heap,
    r = (_argon2_hash core a heap).1
    /\ heap_bytes heap (a_pwd a) (a_pwdlen a) = argument_bytes (hp_pass params)
    /\ heap_bytes heap (a_salt a) (a_saltlen a) = argument_bytes (hp_salt params)
    /\ heap_bytes heap (a_hash a) (a_hashlen a)
       = replicate (Z.to_nat (unsigned (a_hashlen a))) 0
    /\ heap_bytes heap (a_encoded a) (a_encodedlen a) = replicate 512 0
    /\ (let pwd := (unsigned (a_pwd a), unsigned (a_pwdlen a)) in
        let salt := (unsigned (a_salt a), unsigned (a_saltlen a)) in
        let hash := (unsigned (a_hash a), unsigned (a_hashlen a)) in
        let encoded := (unsigned (a_encoded a), unsigned (a_encodedlen a)) in
        apart pwd salt /\ apart pwd hash /\ apart pwd encoded
        /\ apart salt hash /\ apart salt encoded /\ apart hash encoded
        /\ Forall (fun b => 0 <= b.1 /\ 0 <= b.2
                            /\ b.1 + b.2 <= Z.of_nat (length heap))
                  [pwd; salt; hash; encoded]).
Proof.
  intros Hrun Htr Haddr.
  destruct (hash_buffers_layout core params st o st' a r Hrun Htr Haddr)
    as (heap & Hr & _ & Hpwd & Hsalt & Hhash & Henc & H0 & H1 & H2 & H3 & H4).
  exists heap. split; [exact Hr|]. split; [exact Hpwd|]. split; [exact Hsalt|].
  split; [exact Hhash|]. split; [exact Henc|].
  assert (Hu : forall x, 0 <= unsigned x)
    by (intros x; unfold unsigned; apply Z.mod_pos_bound; lia).
  pose proof (Hu (a_pwd a)). pose proof (Hu (a_pwdlen a)).
  pose proof (Hu (a_salt a)). pose proof (Hu (a_saltlen a)).
  pose proof (Hu (a_hash a)). pose proof (Hu (a_hashlen a)).
  pose proof (Hu (a_encoded a)). pose proof (Hu (a_encodedlen a)).
  cbv zeta. unfold apart. cbn [fst snd].
  repeat split; try lia.
  repeat (constructor; [cbn [fst snd]; lia|]). constructor.
Qed.

(** A stored string read back as a C string. *)
Lemma c_string_stored (l rest : list Z) :
  c_string (map to_i8 l ++ to_i8 0 :: rest) = c_string l.
Proof.
  induction l as [|b l IH]; simpl; [done|].
  by rewrite to_u8_to_i8_same, IH.
Qed.

Lemma c_string_nul_free (l : list Z) :
  Forall (fun b => 0 < b < 256) l -> c_string l = l.
Proof.
  induction 1 as [|b l Hb _ IH]; simpl; [done|].
  unfold to_u8. rewrite Z.mod_small by lia.
  destruct (Z.eqb_spec b 0); [lia|]. by rewrite IH.
Qed.

Lemma utf8_seven_bit s : seven_bit s -> utf8 s = codes s.
Proof.
  unfold seven_bit, utf8. induction 1 as [|c l Hc _ IH]; simpl; [done|].
  rewrite IH. unfold utf8_char. by destruct (Z.ltb_spec c 128); [|lia].
Qed.

Lemma utf8_same_length (l : list Z) :
  length (concat (map utf8_char l)) = length l -> Forall (fun c => c < 128) l.
Proof.
  induction l as [|c l IH]; simpl; [constructor|].
  rewrite length_app. pose proof (utf8_length l). intros Hlen.
  unfold utf8_char in *. destruct (Z.ltb_spec c 128); simpl in Hlen.
  - constructor; [done|]. apply IH. lia.
  - lia.
Qed.

(** [s.length] covers the UTF-8 bytes of [s] exactly when [s] is 7-bit. *)
Lemma argument_bytes_whole s :
  (argument_bytes (Str s) = utf8 s <-> seven_bit s)
  /\ (~ seven_bit s -> (length (argument_bytes (Str s)) < length (utf8 s))%nat).
Proof.
  assert (Hiff : argument_bytes (Str s) = utf8 s <-> seven_bit s).
  { simpl. split.
    - intros Heq. apply utf8_same_length. fold (utf8 s).
      apply (f_equal length) in Heq. rewrite length_take in Heq.
      rewrite <- string_length_codes. pose proof (utf8_length_le s). lia.
    - intros H7. apply take_ge. rewrite (utf8_seven_bit s H7).
      by rewrite string_length_codes. }
  split; [exact Hiff|].
  intros Hn. simpl. rewrite length_take. pose proof (utf8_length_le s).
  destruct (decide (String.length s = length (utf8 s))) as [Heq|]; [|lia].
  exfalso. apply Hn, Hiff. simpl. apply take_ge. lia.
Qed.

(** The block [allocateArray] fills, read over [x.length] bytes. *)
Lemma allocateArray_read x (h rest : list Z) :
  Z.of_nat (length (h ++ buffer x)) < 4294967296 ->
  heap_bytes (h ++ buffer x ++ rest) (wrap32 (Z.of_nat (length h))) (wrap32 (js_length x))
  = argument_bytes x.
Proof.
  intros Hlen. rewrite length_app in Hlen.
  pose proof (js_length_array x). pose proof (buffer_length x).
  assert (Hsmall : js_length x < 4294967296) by lia.
  rewrite <- (seen_argument_bytes x Hsmall).
  rewrite heap_bytes_read. apply read_seen. lia.
Qed.

Lemma st_alloc_heap st slab :
  HEAP8 (st_alloc st slab) = HEAP8 st ++ malloc_bytes (map to_i8 slab).
Proof. reflexivity. Qed.

Lemma c_string_at_buffer (h : list Z) s rest :
  c_string_at (h ++ buffer (Str s) ++ rest) (Z.of_nat (length h)) = c_string (utf8 s).
Proof.
  unfold c_string_at. rewrite Nat2Z.id, drop_app_length.
  rewrite buffer_Str. fold (utf8 s). rewrite <- app_assoc. simpl.
  apply (c_string_stored (utf8 s)).
Qed.

Lemma codes_plain s :
  Forall plain (list_ascii_of_string s) ->
  seven_bit s /\ Forall (fun b => 0 < b < 256) (codes s).
Proof.
  unfold seven_bit, codes, plain. intros H. split.
  - apply Forall_map. eapply Forall_impl; [exact H|]. simpl. intros c Hc. lia.
  - apply Forall_map. eapply Forall_impl; [exact H|]. simpl. intros c Hc. lia.
Qed.

(** The length the wrapper passes for a string is [s.length], the number
    of its code units: it covers the UTF-8 bytes [allocateArray] stored
    exactly when the string is 7-bit, and falls short of them otherwise,
    although the block holds them all. *)
Theorem string_length_covers_seven_bit s st p st' :
  allocateArray (Str s) st = (Ret p, st') ->
  ptr_of st' < 4294967296 ->
  let read := heap_bytes (HEAP8 st') (wrap32 p) (wrap32 (js_length (Str s))) in
  (read = utf8 s <-> seven_bit s)
  /\ (~ seven_bit s -> (length read < length (utf8 s))%nat)
  /\ c_string_at (HEAP8 st') p = c_string (utf8 s).
Proof.
  rewrite allocateArray_run. intros [= <- <-] Haddr read.
  unfold ptr_of in Haddr. rewrite st_alloc_heap in Haddr. change (malloc_bytes (map to_i8 (intArrayFromString s))) with (buffer (Str s)) in Haddr.
  assert (Hread : read = argument_bytes (Str s)).
  { unfold read. rewrite st_alloc_heap. change (malloc_bytes (map to_i8 (intArrayFromString s))) with (buffer (Str s)).
    rewrite <- (app_nil_r (buffer (Str s))). apply allocateArray_read.
    exact Haddr. }
  rewrite Hread. destruct (argument_bytes_whole s) as [H1 H2].
  split; [exact H1|]. split; [exact H2|].
  rewrite st_alloc_heap. change (malloc_bytes (map to_i8 (intArrayFromString s))) with (buffer (Str s)).
  rewrite <- (app_nil_r (buffer (Str s))). apply c_string_at_buffer.
Qed.

(** At the call of [_argon2_verify] the password buffer holds the bytes of
    [pass] over the length passed, and the encoded buffer holds the UTF-8
    bytes of [encoded] as a C string: what follows a NUL is not part of
    it. *)
Theorem verify_buffers_at_call core pass s vty st a r :
  trace (argon2Verify core (VerifyParams pass (Str s) vty) st).2
  = EvVerify a r :: trace st ->
  addressable (verify_st2 (VerifyParams pass (Str s) vty) st) ->
  exists heap,
    r = (_argon2_verify core a heap).1
    /\ HEAP8 st `prefix_of` heap
    /\ heap_bytes heap (v_pwd a) (v_pwdlen a) = argument_bytes pass
    /\ c_string_at heap (unsigned (v_encoded a)) = c_string (utf8 s)
    /\ Z.of_nat (length (HEAP8 st)) = unsigned (v_pwd a)
    /\ unsigned (v_pwd a) + unsigned (v_pwdlen a) <= unsigned (v_encoded a)
    /\ unsigned (v_encoded a) + Z.of_nat (length (utf8 s)) < Z.of_nat (length heap).
Proof.
  intros Htr Haddr.
  set (params := VerifyParams pass (Str s) vty) in *.
  destruct (verify_type_value pass s vty) as (v & Hv & _). fold params in Hv.
  rewrite (argon2Verify_call core params st v Hv), verify_result_trace in Htr.
  unfold verify_st3 in Htr. cbn [trace log set_heap] in Htr.
  injection Htr as <- <-.
  pose proof (verify_heap2 params st) as Hheap.
  pose proof (verify_ptr1 params st) as Hp1.
  cbn [vp_pass vp_encoded params] in Hheap, Hp1.
  set (h0 := HEAP8 st) in *. set (P := buffer pass) in *.
  set (E := buffer (Str s)) in *.
  unfold addressable, ptr_of in Haddr. rewrite Hheap in Haddr.
  pose proof (buffer_length pass) as HbP. fold P in HbP.
  pose proof (js_length_array pass) as HlP.
  assert (HE : Z.of_nat (length E) = Z.of_nat (length (utf8 s)) + 1).
  { unfold E. rewrite buffer_Str. fold (utf8 s).
    rewrite length_app, length_map. simpl. lia. }
  assert (0 <= js_length pass) by (destruct pass; simpl; lia).
  rewrite !length_app in Haddr.
  exists (HEAP8 (verify_st2 params st)).
  split; [reflexivity|]. split; [rewrite Hheap; by eexists|].
  cbn [v_pwd v_pwdlen v_encoded verify_call_args vp_pass vp_encoded params].
  rewrite Hp1.
  assert (Hu0 : unsigned (wrap32 (ptr_of st)) = Z.of_nat (length h0))
    by (apply unsigned_wrap32; unfold ptr_of; fold h0; lia).
  assert (Hu1 : unsigned (wrap32 (Z.of_nat (length (h0 ++ P))))
                = Z.of_nat (length (h0 ++ P)))
    by (apply unsigned_wrap32; rewrite length_app; lia).
  assert (Hu2 : unsigned (wrap32 (js_length pass)) = js_length pass)
    by (apply unsigned_wrap32; lia).
  rewrite Hu0, Hu1, Hu2, Hheap.
  split.
  { apply allocateArray_read. fold P. rewrite length_app. lia. }
  split.
  { rewrite (app_assoc h0 P), <- (app_nil_r E). apply c_string_at_buffer. }
  rewrite !length_app. repeat split; lia.
Qed.

(** ** How the two functions end *)

(** The exceptions of [argon2.ArgonType.Argon2d] are Error objects. *)
Lemma hash_type_throws params st e :
  hash_type params st = Throw e -> exists kind msg, e = JErr kind msg.
Proof.
  unfold hash_type. destruct (truthy (opt_num (hp_type params))); [done|].
  unfold argon2_ArgonType_Argon2d, bind, global_var.
  destruct (globals st !! "argon2") as [v|]; simpl.
  - destruct v as [| | | | |fields| |]; simpl; try (intros [= <-]; by eexists _, _).
    all: try (destruct (get_property fields "ArgonType") as [| | | | |fs| |]; simpl).
    all: try (intros [= <-]; by eexists _, _).
    all: done.
  - intros [= <-]. by eexists _, _.
Qed.

(** [argon2Hash] calls [_argon2_hash] at most once and never calls
    [_argon2_verify].  It calls the module only when [params.hashLen || 24]
    is an array length and the variant expression evaluated, and with that
    variant.  When the length is no array length, or the variant expression
    throws, the call of [argon2Hash] throws and the module is not
    called. *)
Theorem hash_calls_module_at_most_once core params st :
  (trace (argon2Hash core params st).2 = trace st
   \/ exists a r ty,
        trace (argon2Hash core params st).2 = EvHash a r :: trace st
        /\ array_length_ok (hash_len params)
        /\ hash_type params st = Ret ty
        /\ a_type a = to_int32 ty)
  /\ (~ array_length_ok (hash_len params)
      \/ (exists e, hash_type params st = Throw e) ->
      trace (argon2Hash core params st).2 = trace st
      /\ exists e, (argon2Hash core params st).1 = Throw e).
Proof.
  destruct (argon2Hash_cases core params st)
    as [[Hbad ->]|[(e & Hlen & Hty & ->)|(ty & Hlen & Hty & ->)]].
  - split; [by left|]. intros _. split; [done|by eexists].
  - split; [by left|]. intros _. split; [done|by eexists].
  - split.
    + right. eexists _, _, ty. rewrite hash_result_trace.
      split; [reflexivity|]. split; [exact Hlen|]. split; [exact Hty|reflexivity].
    + intros [Hbad|[e He]]; [done|congruence].
Qed.

(** Lines 89-95 and 146-152, run. *)
Lemma error_result_cases core res err st :
  error_result core res err st
  = if truthy err then (Ret (error_object err res, err), st)
    else match _argon2_error_message core (to_int32 res) (HEAP8 st) with
         | (Ret p, heap) =>
             (Ret (error_object (stringify heap p) res, stringify heap p), set_heap st heap)
         | (Throw _, heap) => (Ret (error_object err res, err), set_heap st heap)
         end.
Proof.
  unfold error_result, bind, try_catch, call_argon2_error_message, ret.
  destruct (truthy err); simpl; [done|].
  destruct (_argon2_error_message core (to_int32 res) (HEAP8 st)) as [[p|e] heap]; simpl.
  - by rewrite Pointer_stringify_run.
  - done.
Qed.

Lemma hash_result_failure core pwd salt hash encoded hashlen res err st :
  strict_eq_zero res && negb (truthy err) = false ->
  (hash_result core pwd salt hash encoded hashlen res err st).1
  = let '(r, _) := error_result core res err st in
    match r with
    | Ret (result, msg) => finish msg result
    | Throw e => Throw e
    end.
Proof.
  intros Hc. unfold hash_result. rewrite Hc. unfold bind at 1.
  rewrite error_result_cases.
  destruct (truthy err) eqn:Herr.
  - unfold bind, try_catch, _free, ret, throw, finish. simpl. by rewrite Herr.
  - destruct (_argon2_error_message core (to_int32 res) (HEAP8 st)) as [[p|e] heap].
    + unfold bind, try_catch, _free, ret, throw, finish. simpl.
      by destruct (truthy (stringify heap p)).
    + unfold bind, try_catch, _free, ret, throw, finish. simpl. by rewrite Herr.
Qed.

Lemma verify_result_failure core pwd enc res err st :
  truthy res || truthy err = true ->
  (verify_result core pwd enc res err st).1
  = let '(r, _) := error_result core res err st in
    match r with
    | Ret (result, msg) => finish msg result
    | Throw e => Throw e
    end.
Proof.
  intros Hc. unfold verify_result. rewrite Hc. unfold bind at 1.
  rewrite error_result_cases.
  destruct (truthy err) eqn:Herr.
  - unfold bind, try_catch, _free, ret, throw, finish. simpl. by rewrite Herr.
  - destruct (_argon2_error_message core (to_int32 res) (HEAP8 st)) as [[p|e] heap].
    + unfold bind, try_catch, _free, ret, throw, finish. simpl.
      by destruct (truthy (stringify heap p)).
    + unfold bind, try_catch, _free, ret, throw, finish. simpl. by rewrite Herr.
Qed.

(** A failure of [_argon2_hash] is thrown as [{ message, code }] when there
    is a message: the module's exception, or the non-empty text of the
    code.  When [_argon2_error_message] throws, or the text is empty,
    [argon2Hash] returns [{ message, code }] instead of throwing it. *)
Theorem hash_failure_outcome core params st o st' a r :
  argon2Hash core params st = (o, st') ->
  trace st' = EvHash a r :: trace st ->
  r <> Ret 0 ->
  exists heap0 heap1,
    _argon2_hash core a heap0 = (r, heap1)
    /\ match r with
       | Throw e =>
           truthy e = true ->
           o = Throw (JObj [("message", e); ("code", JUndefined)])
       | Ret n =>
           match _argon2_error_message core (wrap32 n) heap1 with
           | (Throw _, _) => o = Ret (JObj [("message", JUndefined); ("code", JNum n)])
           | (Ret p, heap2) =>
               let msg := stringify heap2 p in
               o = if truthy msg
                   then Throw (JObj [("message", msg); ("code", JNum n)])
                   else Ret (JObj [("message", msg); ("code", JNum n)])
           end
       end.
Proof.
  intros Hrun Htr Hr.
  destruct (argon2Hash_called core params st o st' a r Hrun Htr)
    as (ty & Hlen & Hty & -> & Hreq & Hres).
  exists (HEAP8 (hash_st4 params st)), (hash_call core params st ty).2.
  split.
  { rewrite Hreq. unfold hash_call. apply surjective_pairing. }
  apply (f_equal fst) in Hres. cbn [fst] in Hres.
  rewrite hash_result_failure in Hres.
  2:{ destruct r as [n|e]; simpl; [|done].
      destruct (Z.eqb_spec n 0); [congruence|done]. }
  rewrite error_result_cases in Hres.
  destruct r as [n|e]; cbn [res_of err_of truthy to_int32] in Hres.
  - change (HEAP8 (hash_st5 core params st ty)) with (hash_call core params st ty).2 in Hres.
    destruct (_argon2_error_message core (wrap32 n) (hash_call core params st ty).2)
      as [[p|e] heap2]; cbn [finish error_object truthy] in Hres |- *.
    + rewrite <- Hres. unfold finish, error_object. reflexivity.
    + by rewrite <- Hres.
  - intros He. rewrite He in Hres. rewrite <- Hres. unfold finish. by rewrite He.
Qed.

(** What the call of the module looked like, when there was one. *)
Lemma argon2Verify_called core params st o st' a r :
  argon2Verify core params st = (o, st') ->
  trace st' = EvVerify a r :: trace st ->
  exists ty,
    verify_type params = Ret ty
    /\ a = verify_call_args params st ty
    /\ r = (verify_call core params st ty).1
    /\ verify_result core (ptr_of st) (ptr_of (verify_st1 params st))
         (res_of r) (err_of r) (verify_st3 core params st ty)
       = (o, st').
Proof.
  intros Hrun Htr.
  destruct (verify_type params) as [ty|e] eqn:Hty.
  2:{ rewrite (argon2Verify_type_throws core params st e Hty) in Hrun.
      injection Hrun as <- <-. by apply trace_not_grown in Htr. }
  rewrite (argon2Verify_call core params st ty Hty) in Hrun.
  pose proof (f_equal (fun x => trace x.2) Hrun) as Htr'. cbn beta in Htr'.
  rewrite verify_result_trace in Htr'. cbn [snd] in Htr'. rewrite Htr in Htr'.
  unfold verify_st3 in Htr'. cbn [trace log set_heap] in Htr'.
  change (trace (verify_st2 params st)) with (trace st) in Htr'.
  injection Htr' as <- <-.
  exists ty. split; [done|]. split; [done|]. split; [done|]. exact Hrun.
Qed.

(** [argon2Verify] returns [undefined] when [_argon2_verify] returned 0.
    Another code is thrown as [{ message, code }] when its text is not
    empty; when [_argon2_error_message] throws, or the text is empty, the
    failure is returned as [{ message, code }] instead.  An exception [e]
    of the module is thrown as [{ message: e }] when [e] is truthy; for a
    falsy one ([throw 0], [throw undefined]) [argon2Verify] returns
    [undefined], as it does for a success. *)
Theorem verify_outcome core params st o st' a r :
  argon2Verify core params st = (o, st') ->
  trace st' = EvVerify a r :: trace st ->
  exists heap0 heap1,
    _argon2_verify core a heap0 = (r, heap1)
    /\ match r with
       | Throw e =>
           if truthy e
           then o = Throw (JObj [("message", e); ("code", JUndefined)])
           else o = Ret JUndefined
       | Ret n =>
           if n =? 0 then o = Ret JUndefined
           else
             match _argon2_error_message core (wrap32 n) heap1 with
             | (Throw _, _) => o = Ret (JObj [("message", JUndefined); ("code", JNum n)])
             | (Ret p, heap2) =>
                 let msg := stringify heap2 p in
                 o = if truthy msg
                     then Throw (JObj [("message", msg); ("code", JNum n)])
                     else Ret (JObj [("message", msg); ("code", JNum n)])
             end
       end.
Proof.
  intros Hrun Htr.
  destruct (argon2Verify_called core params st o st' a r Hrun Htr)
    as (ty & Hty & -> & Hreq & Hres).
  exists (HEAP8 (verify_st2 params st)), (verify_call core params st ty).2.
  split.
  { rewrite Hreq. unfold verify_call. apply surjective_pairing. }
  apply (f_equal fst) in Hres. cbn [fst] in Hres.
  destruct r as [n|e]; cbn [res_of err_of] in Hres.
  - destruct (Z.eqb_spec n 0) as [->|Hn].
    + by rewrite verify_result_ok in Hres.
    + rewrite verify_result_failure in Hres
        by (simpl; by destruct (Z.eqb_spec n 0)).
      rewrite error_result_cases in Hres. cbn [truthy to_int32] in Hres.
      change (HEAP8 (verify_st3 core params st ty))
        with (verify_call core params st ty).2 in Hres.
      destruct (_argon2_error_message core (wrap32 n) (verify_call core params st ty).2)
        as [[p|e] heap2]; cbn [finish error_object truthy] in Hres |- *.
      * rewrite <- Hres. unfold finish, error_object. reflexivity.
      * by rewrite <- Hres.
  - destruct (truthy e) eqn:He.
    + rewrite verify_result_failure in Hres by (simpl; by rewrite He).
      rewrite error_result_cases, He in Hres. rewrite <- Hres. unfold finish.
      by rewrite He.
    + by rewrite verify_result_ok in Hres by (simpl; by rewrite He).
Qed.

(** An [encoded] given as a byte array needs an explicit [type]: without
    one, [params.encoded.split] is no function, and [argon2Verify] throws a
    TypeError after both buffers were allocated, without calling the module
    and without freeing them.  With one, the module is called with it. *)
Theorem verify_bytes_encoded_needs_type core pass b st :
  let params := VerifyParams pass (Arr b) None in
  (argon2Verify core params st).1
  = Throw (JErr "TypeError" "params.encoded.split is not a function")
  /\ trace (argon2Verify core params st).2 = trace st
  /\ ptr_of st < ptr_of (verify_st1 params st)
  /\ {[ ptr_of st; ptr_of (verify_st1 params st) ]}
       ⊆ live (argon2Verify core params st).2
  /\ forall t, exists a r,
       trace (argon2Verify core (VerifyParams pass (Arr b) (Some t)) st).2
       = EvVerify a r :: trace st
       /\ v_type a = wrap32 t.
Proof.
  intros params.
  assert (Hty : verify_type params
                = Throw (JErr "TypeError" "params.encoded.split is not a function"))
    by reflexivity.
  rewrite (argon2Verify_type_throws core params st _ Hty). cbn [fst snd].
  split; [done|]. split; [done|].
  split; [apply ptr_of_alloc|]. split.
  - change (live (verify_st2 params st))
      with ({[ ptr_of (verify_st1 params st) ]} ∪ ({[ ptr_of st ]} ∪ live st)).
    set_solver.
  - intros t.
    assert (Hty' : verify_type (VerifyParams pass (Arr b) (Some t)) = Ret (JNum t))
      by reflexivity.
    rewrite (argon2Verify_call core _ st _ Hty'), verify_result_trace.
    eexists _, _. split; reflexivity.
Qed.

(** ** The tags [argon2Verify] recognises *)

(** Nothing was replaced when the result has no [b]. *)
Lemma replace_first_absent (a b : ascii) (s r : string) :
  replace_first a b s = r ->
  forallb (fun c => negb (Ascii.eqb c b)) (list_ascii_of_string r) = true ->
  s = r.
Proof.
  revert r. induction s as [|c s IH]; intros r; simpl; [done|].
  destruct (Ascii.eqb_spec c a) as [->|Hc].
  - intros <-. simpl. by rewrite Ascii.eqb_refl.
  - intros <-. simpl. intros [_ H]%andb_prop. f_equal. by apply IH.
Qed.

Lemma replace_first_none (a b : ascii) (s : string) :
  forallb (fun c => negb (Ascii.eqb c a)) (list_ascii_of_string s) = true ->
  replace_first a b s = s.
Proof.
  induction s as [|c s IH]; simpl; [done|].
  intros [Hc Hs]%andb_prop. destruct (Ascii.eqb c a); [done|]. by rewrite IH.
Qed.

(** A tag becomes [A] followed by [rest], where [rest] has neither [a] nor
    [A], exactly when it is [a] or [A] followed by [rest]. *)
Lemma replace_first_capital (rest tag : string) :
  forallb (fun c => negb (Ascii.eqb c "A")) (list_ascii_of_string rest) = true ->
  forallb (fun c => negb (Ascii.eqb c "a")) (list_ascii_of_string rest) = true ->
  replace_first "a" "A" tag = String "A" rest
  <-> tag = String "a" rest \/ tag = String "A" rest.
Proof.
  intros HA Ha. split.
  - destruct tag as [|c tag]; simpl; [done|].
    destruct (Ascii.eqb_spec c "a") as [->|Hc].
    + intros [= ->]. by left.
    + intros [= -> H]. right. f_equal. by apply (replace_first_absent "a" "A").
  - intros [->| ->]; simpl; [done|]. f_equal. by apply replace_first_none.
Qed.

Lemma variant_of_name_cases name :
  (default 0 (variant_of_name name) = 1 <-> name = "Argon2i")
  /\ (default 0 (variant_of_name name) = 2 <-> name = "Argon2id")
  /\ (default 0 (variant_of_name name) = 0
      \/ default 0 (variant_of_name name) = 1
      \/ default 0 (variant_of_name name) = 2).
Proof.
  unfold variant_of_name.
  destruct (String.eqb_spec name "Argon2d") as [->|Hd]; [simpl; by intuition|].
  destruct (String.eqb_spec name "Argon2i") as [->|Hi]; [simpl; by intuition|].
  destruct (String.eqb_spec name "Argon2id") as [->|Hid]; simpl; by intuition.
Qed.

(** The variant read off the tag of an encoded string. *)
Lemma verify_type_of_tag core pass s st :
  exists a r,
    trace (argon2Verify core (VerifyParams pass (Str s) None) st).2
    = EvVerify a r :: trace st
    /\ (v_type a = 1
        <-> split s "$" !! 1%nat = Some "argon2i"
            \/ split s "$" !! 1%nat = Some "Argon2i")
    /\ (v_type a = 2
        <-> split s "$" !! 1%nat = Some "argon2id"
            \/ split s "$" !! 1%nat = Some "Argon2id")
    /\ (v_type a = 0 \/ v_type a = 1 \/ v_type a = 2).
Proof.
  destruct (verify_type_value pass s None) as (v & Hv & Hvar).
  rewrite (argon2Verify_call core _ st v Hv), verify_result_trace.
  eexists _, _. split; [reflexivity|].
  cbn [v_type verify_call_args]. rewrite Hvar. unfold verify_variant, tag_field.
  destruct (split s "$" !! 1%nat) as [tag|].
  - destruct (variant_of_name_cases (replace_first "a" "A" tag)) as (H1 & H2 & H3).
    split; [|split; [|exact H3]].
    + rewrite H1, (replace_first_capital "rgon2i") by reflexivity.
      split; [intros [->| ->]; [by left|by right]
             |intros [[= ->]|[= ->]]; [by left|by right]].
    + rewrite H2, (replace_first_capital "rgon2id") by reflexivity.
      split; [intros [->| ->]; [by left|by right]
             |intros [[= ->]|[= ->]]; [by left|by right]].
  - split; [|split; [|by left]]; (split; [done|by intros [?|?]]).
Qed.

(** Without an explicit [type], the module is called with Argon2i for the
    tags [argon2i] and [Argon2i], with Argon2id for the tags [argon2id]
    and [Argon2id], and with Argon2d for every other encoded string. *)
Theorem verify_tag_recognised core pass s st :
  exists a r,
    trace (argon2Verify core (VerifyParams pass (Str s) None) st).2
    = EvVerify a r :: trace st
    /\ (v_type a = 1
        <-> split s "$" !! 1%nat = Some "argon2i"
            \/ split s "$" !! 1%nat = Some "Argon2i")
    /\ (v_type a = 2
        <-> split s "$" !! 1%nat = Some "argon2id"
            \/ split s "$" !! 1%nat = Some "Argon2id")
    /\ (v_type a = 0 \/ v_type a = 1 \/ v_type a = 2).
Proof. apply verify_type_of_tag. Qed.


(** ** The hexadecimal digest read back *)

Lemma hex_value_lower d : 0 <= d < 16 -> hex_value (lower_hex d) = Some d.
Proof.
  intros Hd.
  assert (H : d = 0 \/ d = 1 \/ d = 2 \/ d = 3 \/ d = 4 \/ d = 5 \/ d = 6 \/ d = 7
              \/ d = 8 \/ d = 9 \/ d = 10 \/ d = 11 \/ d = 12 \/ d = 13 \/ d = 14
              \/ d = 15) by lia.
  repeat (destruct H as [->|H]; [reflexivity|]). by subst.
Qed.

Lemma unhex_hex_of_bytes l :
  Forall (fun b => 0 <= b < 256) l -> unhex (hex_of_bytes l) = Some l.
Proof.
  induction 1 as [|b l Hb _ IH]; [done|].
  change (hex_of_bytes (b :: l))
    with (String (lower_hex (b / 16))
            (String (lower_hex (b mod 16)) (hex_of_bytes l))).
  cbn [unhex].
  rewrite !hex_value_lower, IH.
  - f_equal. f_equal. pose proof (Z.div_mod b 16 ltac:(lia)). lia.
  - apply Z.mod_pos_bound. lia.
  - split; [apply Z.div_pos; lia|apply Z.div_lt_upper_bound; lia].
Qed.

(** The [hashHex] of a result of [argon2Hash] reads back as its [hash]:
    every byte gives two lower-case digits, the first of them a [0] for a
    byte below 16. *)
Theorem hash_hex_round_trip core params st h hx enc st' :
  argon2Hash core params st
  = (Ret (JObj [("hash", JBytes h); ("hashHex", JStr hx); ("encoded", enc)]), st') ->
  unhex hx = Some h
  /\ String.length hx = (2 * length h)%nat
  /\ Z.of_nat (length h) = hash_len params.
Proof.
  intros Hrun.
  destruct (argon2Hash_cases core params st)
    as [[Hbad Heq]|[(e & Hlen & Hty & Heq)|(ty & Hlen & Hty & Heq)]];
    rewrite Heq in Hrun; [done|done|].
  destruct (hash_call core params st ty).1 as [n|e] eqn:Hr.
  - destruct (Z.eqb_spec n 0) as [->|Hn].
    + cbn [res_of err_of] in Hrun. rewrite hash_result_ok, hash_loop_run in Hrun.
      injection Hrun as <- <- _ _. cbn [fst snd].
      split; [apply unhex_hex_of_bytes, digest_at_bytes|].
      split; [apply hex_of_bytes_length|].
      apply digest_at_length. unfold array_length_ok in Hlen. lia.
    + destruct (hash_result_fail core (ptr_of st) (ptr_of (hash_st1 params st))
                  (ptr_of (hash_st2 params st)) (ptr_of (hash_st3 params st))
                  (hash_len params) (res_of (Ret n)) (err_of (Ret n))
                  (hash_st5 core params st ty)) as (msg & heap & Hf & _).
      { simpl. by destruct (Z.eqb_spec n 0). }
      rewrite Hf in Hrun. unfold finish, error_object in Hrun.
      by destruct (truthy msg).
  - destruct (hash_result_fail core (ptr_of st) (ptr_of (hash_st1 params st))
                (ptr_of (hash_st2 params st)) (ptr_of (hash_st3 params st))
                (hash_len params) (res_of (Throw e)) (err_of (Throw e))
                (hash_st5 core params st ty)) as (msg & heap & Hf & _); [done|].
    rewrite Hf in Hrun. unfold finish, error_object in Hrun.
    by destruct (truthy msg).
Qed.

(** ** [loadScript] *)

Lemma fire_settled el (events : list script_event) p :
  p <> Pending ->
  el_onload el = resolve JUndefined ->
  el_onerror el = reject (JStr "Error loading script") ->
  foldl (fun p ev => fire el ev p) p events = p.
Proof.
  intros Hp Hl He. induction events as [|ev events IH]; [done|].
  cbn [foldl]. assert (Hfire : fire el ev p = p).
  { destruct ev; simpl; [rewrite Hl|rewrite He]; by destruct p. }
  by rewrite Hfire.
Qed.

(** [loadScript] in a document with a body. *)
Lemma loadScript_document_run src sc children :
  importScripts sc = None ->
  document_body sc = Some (Some children) ->
  loadScript src sc
  = (Pending,
     Scope None
           (Some (Some (children
                        ++ [Script src (resolve JUndefined)
                                   (reject (JStr "Error loading script"))])))
           (imported sc)).
Proof. intros Hi Hd. unfold loadScript. by rewrite Hi, Hd. Qed.

(** In a document, [loadScript] appends one [script] element with the
    given [src] to the body and returns a pending promise, which the first
    event of the element settles: [load] fulfils it, [error] rejects it
    with ['Error loading script']; later events change nothing. *)
Theorem loadScript_in_document src sc children :
  importScripts sc = None ->
  document_body sc = Some (Some children) ->
  exists el,
    loadScript src sc
    = (Pending, Scope None (Some (Some (children ++ [el]))) (imported sc))
    /\ el_src el = src
    /\ forall events,
         foldl (fun p ev => fire el ev p) Pending events
         = match events with
           | [] => Pending
           | ScriptLoad :: _ => Fulfilled JUndefined
           | ScriptError :: _ => Rejected (JStr "Error loading script")
           end.
Proof.
  intros Hi Hd. rewrite (loadScript_document_run src sc children Hi Hd).
  eexists. split; [reflexivity|]. split; [reflexivity|].
  intros [|[] events]; [done| |]; cbn [foldl fire el_onload el_onerror resolve reject];
    by apply fire_settled.
Qed.

Lemma loadScripts_snoc srcs src sc :
  loadScripts (srcs ++ [src]) sc
  = let '(ps, sc1) := loadScripts srcs sc in
    let '(p, sc2) := loadScript src sc1 in (ps ++ [p], sc2).
Proof.
  unfold loadScripts. rewrite foldl_app. cbn [foldl].
  by destruct (foldl _ _ srcs).
Qed.

(** [loadScript] keeps no record of what it loaded: in a document, every
    call appends a new element, in the order of the calls and also for a
    source that was loaded before, and every promise is pending on
    return. *)
Theorem loadScript_appends_every_time srcs sc children :
  importScripts sc = None ->
  document_body sc = Some (Some children) ->
  exists els,
    loadScripts srcs sc
    = (replicate (length srcs) Pending,
       Scope None (Some (Some (children ++ els))) (imported sc))
    /\ map el_src els = srcs.
Proof.
  intros Hi Hd. induction srcs as [|src srcs IH] using rev_ind.
  - exists []. rewrite app_nil_r. split; [|done].
    unfold loadScripts. simpl. destruct sc; simpl in *. by rewrite Hi, Hd.
  - destruct IH as (els & Hrun & Hsrc).
    rewrite loadScripts_snoc, Hrun.
    rewrite (loadScript_document_run src
               (Scope None (Some (Some (children ++ els))) (imported sc))
               (children ++ els) eq_refl eq_refl).
    eexists (els ++ [_]). cbn [imported]. split.
    + rewrite length_app. cbn [length]. rewrite Nat.add_1_r, replicate_S_end.
      by rewrite <- app_assoc.
    + by rewrite map_app, Hsrc.
Qed.

(** Where [importScripts] is a function, every call of [loadScript] hands
    it the source and returns a settled promise: fulfilled when the import
    returned, rejected with the exception of the import otherwise, and a
    failed import does not keep the next call from importing.  The
    document is not touched. *)
Theorem loadScript_in_worker srcs sc f :
  importScripts sc = Some f ->
  loadScripts srcs sc
  = (map (fun src => match f src with
                     | Ret _ => Fulfilled JUndefined
                     | Throw e => Rejected e
                     end) srcs,
     Scope (Some f) (document_body sc) (imported sc ++ srcs)).
Proof.
  intros Hi. induction srcs as [|src srcs IH] using rev_ind.
  - unfold loadScripts. simpl. rewrite app_nil_r. destruct sc; simpl in *.
    by rewrite Hi.
  - rewrite loadScripts_snoc, IH. unfold loadScript. cbn [importScripts].
    rewrite map_app. cbn [document_body imported map].
    rewrite <- app_assoc. by destruct (f src) as [[]|e].
Qed.

(** ** The default variant and the global scope *)

(** With [type] omitted or 0, the variant [argon2Hash] hands to the module
    is whatever the global [argon2] of the scope has as
    [ArgonType.Argon2d], not the [ArgonType] of the file. *)
Theorem hash_default_type_follows_global core params st fields types v :
  array_length_ok (hash_len params) ->
  hp_type params = None \/ hp_type params = Some 0 ->
  globals st !! "argon2" = Some (JObj fields) ->
  get_property fields "ArgonType" = JObj types ->
  get_property types "Argon2d" = v ->
  exists a r,
    trace (argon2Hash core params st).2 = EvHash a r :: trace st
    /\ a_type a = to_int32 v.
Proof.
  intros Hlen Htype Hg Hf Hv.
  assert (Hty : hash_type params st = Ret v).
  { unfold hash_type.
    assert (Hfalsy : truthy (opt_num (hp_type params)) = false)
      by (destruct Htype as [-> | ->]; reflexivity).
    rewrite Hfalsy. unfold argon2_ArgonType_Argon2d, bind, global_var.
    rewrite Hg. cbn [get_member ret]. rewrite Hf. cbn [get_member ret fst].
    by rewrite Hv. }
  rewrite (argon2Hash_call core params st v Hlen Hty), hash_result_trace.
  eexists _, _. split; reflexivity.
Qed.

(** ** The theorems at concrete inputs *)

(** The buffers of a call that hashes ["password"] with the salt
    ["somesalt"]. *)
Lemma hash_buffers_at_call_witness :
  exists heap,
    heap_bytes heap 265 8 = codes "password"
    /\ heap_bytes heap 274 8 = codes "somesalt"
    /\ heap_bytes heap 283 24 = replicate 24 0.
Proof.
  destruct (hash_buffers_at_call core0 hash_params_i state0
              (argon2Hash core0 hash_params_i state0).1
              (argon2Hash core0 hash_params_i state0).2
              (HashArgs 1 1024 1 265 8 274 8 283 24 307 512 1 19) (Ret 0))
    as (heap & _ & H1 & H2 & H3 & _).
  - apply surjective_pairing.
  - vm_compute. reflexivity.
  - by vm_compute.
  - exists heap. exact (conj H1 (conj H2 H3)).
Defined.

(** Of [encoded_nul] the module is handed [encoded_i]. *)
Lemma verify_buffers_at_call_witness :
  exists heap,
    heap_bytes heap 265 8 = codes "password"
    /\ c_string_at heap 274 = codes encoded_i.
Proof.
  destruct (verify_buffers_at_call core0 (Str "password") encoded_nul None state0
              (VerifyArgs 274 265 8 1) (Ret 0))
    as (heap & _ & _ & H1 & H2 & _).
  - vm_compute. reflexivity.
  - by vm_compute.
  - exists heap. split; [exact H1|]. etrans; [exact H2|]. vm_compute. reflexivity.
Defined.

(** The one code unit of U+00E9 is stored as two bytes. *)
Lemma string_length_covers_seven_bit_witness :
  (length (heap_bytes (HEAP8 (allocateArray (Str e_acute) state0).2)
                      (wrap32 265) (wrap32 (js_length (Str e_acute))))
   < length (utf8 e_acute))%nat.
Proof.
  destruct (string_length_covers_seven_bit e_acute state0 265
              (allocateArray (Str e_acute) state0).2) as (_ & H & _).
  - reflexivity.
  - by vm_compute.
  - apply H. unfold seven_bit. intros Hall.
    change (codes e_acute) with [233] in Hall.
    inversion Hall as [|? ? Hc _]. lia.
Defined.

(** An output length of 3: the code is -2. *)
Lemma hash_failure_outcome_witness :
  exists heap0 heap1,
    _argon2_hash core0 (HashArgs 1 1024 1 265 8 274 8 283 3 286 512 1 19) heap0
    = (Ret (-2), heap1).
Proof.
  destruct (hash_failure_outcome core0 hash_params_short state0
              (argon2Hash core0 hash_params_short state0).1
              (argon2Hash core0 hash_params_short state0).2
              (HashArgs 1 1024 1 265 8 274 8 283 3 286 512 1 19) (Ret (-2)))
    as (heap0 & heap1 & H & _).
  - apply surjective_pairing.
  - vm_compute. reflexivity.
  - discriminate.
  - by exists heap0, heap1.
Defined.

(** A wrong password: the code is -35. *)
Lemma verify_outcome_witness :
  exists heap0 heap1,
    _argon2_verify core0 (VerifyArgs 274 265 8 1) heap0 = (Ret (-35), heap1).
Proof.
  destruct (verify_outcome core0 (VerifyParams (Str "passwore") (Str encoded_i) None)
              state0
              (argon2Verify core0 (VerifyParams (Str "passwore") (Str encoded_i) None)
                 state0).1
              (argon2Verify core0 (VerifyParams (Str "passwore") (Str encoded_i) None)
                 state0).2
              (VerifyArgs 274 265 8 1) (Ret (-35)))
    as (heap0 & heap1 & H & _).
  - apply surjective_pairing.
  - vm_compute. reflexivity.
  - by exists heap0, heap1.
Defined.

(** The [hashHex] of the hash of ["password"]. *)
Lemma hash_hex_round_trip_witness :
  unhex "c1c8cfd6dde4ebf2f900070e151c232a31383f464d545b62"
  = Some [193; 200; 207; 214; 221; 228; 235; 242; 249; 0; 7; 14;
          21; 28; 35; 42; 49; 56; 63; 70; 77; 84; 91; 98].
Proof.
  eapply (hash_hex_round_trip core0 hash_params_i state0 _ _ (JStr encoded_i)).
  vm_compute. reflexivity.
Defined.

(** With [other_argon2] in scope the default variant is Argon2id. *)
Lemma hash_default_type_follows_global_witness :
  exists a r,
    trace (argon2Hash core0 hash_params_default
             (State rodata ∅ {[ "argon2" := other_argon2 ]} [])).2
    = [EvHash a r]
    /\ a_type a = 2.
Proof.
  apply (hash_default_type_follows_global core0 hash_params_default
           (State rodata ∅ {[ "argon2" := other_argon2 ]} [])
           [("ArgonType", JObj [("Argon2d", JNum 2)])] [("Argon2d", JNum 2)] (JNum 2)).
  - unfold array_length_ok, hash_len. simpl. lia.
  - by left.
  - cbn [globals]. apply lookup_singleton_eq.
  - reflexivity.
  - reflexivity.
Defined.

(** An [error] event followed by a [load] event. *)
Lemma loadScript_in_document_witness :
  exists el,
    loadScript "argon2-asm.min.js" empty_document
    = (Pending, Scope None (Some (Some [el])) [])
    /\ el_src el = "argon2-asm.min.js"
    /\ foldl (fun p ev => fire el ev p) Pending [ScriptError; ScriptLoad]
       = Rejected (JStr "Error loading script").
Proof.
  destruct (loadScript_in_document "argon2-asm.min.js" empty_document [] eq_refl eq_refl)
    as (el & H1 & H2 & H3).
  exists el. split; [exact H1|]. split; [exact H2|]. exact (H3 [ScriptError; ScriptLoad]).
Defined.

(** The same source twice. *)
Lemma loadScript_appends_every_time_witness :
  exists els,
    loadScripts ["a.js"; "a.js"] empty_document
    = ([Pending; Pending], Scope None (Some (Some els)) [])
    /\ map el_src els = ["a.js"; "a.js"].
Proof.
  exact (loadScript_appends_every_time ["a.js"; "a.js"] empty_document []
           eq_refl eq_refl).
Defined.

(** A failed import, then a successful one. *)
Lemma loadScript_in_worker_witness :
  loadScripts ["missing.js"; "ok.js"] picky_worker
  = ([Rejected (JErr "NetworkError" "failed to load"); Fulfilled JUndefined],
     Scope (importScripts picky_worker) None ["missing.js"; "ok.js"]).
Proof.
  exact (loadScript_in_worker ["missing.js"; "ok.js"] picky_worker _ eq_refl).
Defined.

(** ** Encoded strings with a NUL *)

Lemma list_ascii_of_string_app (a b : string) :
  list_ascii_of_string (a +:+ b) = list_ascii_of_string a ++ list_ascii_of_string b.
Proof.
  induction a as [|c a IH]; [done|].
  change (list_ascii_of_string (String c (a +:+ b))
          = c :: (list_ascii_of_string a ++ list_ascii_of_string b)).
  cbn [list_ascii_of_string]. by rewrite IH.
Qed.

(** What the module receives of a string with a NUL is what it receives of
    the text before it. *)
Lemma c_text_nul (a b : string) : c_text (a +:+ String Ascii.zero b) = c_text a.
Proof.
  assert (Hcodes : codes (a +:+ String Ascii.zero b) = codes a ++ 0 :: codes b).
  { unfold codes. rewrite list_ascii_of_string_app. cbn [list_ascii_of_string].
    by rewrite map_app. }
  assert (Hutf8 : utf8 (a +:+ String Ascii.zero b) = utf8 a ++ 0 :: utf8 b).
  { unfold utf8. rewrite Hcodes, map_app, concat_app. reflexivity. }
  unfold c_text.
  change (intArrayFromString ?s) with (utf8 s ++ [0]).
  rewrite Hutf8, <- app_assoc, !map_app. cbn [app map].
  f_equal. rewrite (c_string_stored _ []).
  apply c_string_stored.
Qed.

(** The tag field of an encoded string, whatever follows the string. *)
Lemma tag_field_encoded tag version m t p salt digest (suffix : string) :
  Forall b64_ok tag ->
  tag_field (string_of_list_ascii (encode_string tag version m t p salt digest)
             +:+ suffix)
  = Some (string_of_list_ascii tag).
Proof.
  intros Htag. unfold tag_field, split.
  rewrite list_ascii_of_string_app, list_ascii_of_string_of_list_ascii.
  unfold encode_string.
  change (lit "$" ++ ?x) with ("$"%char :: x).
  change (lit "$v=" ++ ?x) with ("$"%char :: (lit "v=" ++ x)).
  cbn [app split_on]. rewrite Ascii.eqb_refl.
  rewrite <- app_assoc. cbn [app].
  rewrite split_on_app by (by apply Forall_b64_not).
  reflexivity.
Qed.

Lemma verify_variant_nul ty tag version m t p salt digest junk :
  type_tag ty = Some tag ->
  verify_variant None
    (string_of_list_ascii (encode_string tag version m t p salt digest)
     +:+ String Ascii.zero junk) = ty.
Proof.
  intros Htag. unfold verify_variant.
  rewrite tag_field_encoded by eauto using type_tag_ok.
  unfold type_tag in Htag.
  repeat case_match; simplify_eq; vm_compute; lia.
Qed.

(** *** No well-formed encoded string has a NUL *)

Lemma split_on_Forall (P : ascii -> Prop) sep s :
  P sep -> Forall (Forall P) (split_on sep s) -> Forall P s.
Proof.
  intros Hsep. induction s as [|c s IH]; [constructor|].
  cbn [split_on]. destruct (Ascii.eqb_spec c sep) as [->|Hc].
  - intros H. inversion H; subst. constructor; [done|by apply IH].
  - destruct (split_on sep s) as [|f fs].
    + intros H. inversion H as [|? ? Hf _]; subst. inversion Hf; subst.
      constructor; [done|]. apply IH. constructor.
    + intros H. inversion H as [|? ? Hf Hfs]; subst. inversion Hf; subst.
      constructor; [done|]. apply IH. by constructor.
Qed.

Lemma uint_of_string_no_nul s d :
  NilEmpty.uint_of_string s = Some d -> Forall no_nul (list_ascii_of_string s).
Proof.
  revert d. induction s as [|c s IH]; intros d; cbn; [constructor|].
  destruct (NilEmpty.uint_of_string s) as [d'|]; [|done].
  intros H. constructor; [|by eapply IH].
  apply uint_of_char_spec in H. unfold no_nul.
  intuition (subst; discriminate).
Qed.

Lemma parse_dec_no_nul s n : parse_dec s = Some n -> Forall no_nul s.
Proof.
  unfold parse_dec, NilZero.uint_of_string.
  destruct (string_of_list_ascii s) as [|c s'] eqn:Hs; [done|].
  destruct (NilEmpty.uint_of_string (String c s')) as [d|] eqn:Hd; [|done].
  intros _. apply uint_of_string_no_nul in Hd.
  by rewrite <- Hs, list_ascii_of_string_of_list_ascii in Hd.
Qed.

Lemma strip_prefix_no_nul p s r :
  strip_prefix p s = Some r -> Forall no_nul p -> Forall no_nul r -> Forall no_nul s.
Proof.
  revert s. induction p as [|a p IH]; intros s; cbn.
  - by intros [= ->].
  - destruct s as [|b s]; [done|]. destruct (Ascii.eqb_spec a b) as [->|]; [|done].
    intros Hs Hp Hr. inversion Hp; subst. constructor; [done|]. by apply IH.
Qed.

Lemma field_no_nul name s n :
  forallb (fun c => negb (Ascii.eqb c Ascii.zero)) (lit name) = true ->
  field name s = Some n -> Forall no_nul s.
Proof.
  intros Hname. unfold field.
  destruct (strip_prefix (lit name) s) as [r|] eqn:Hr; [|done]. cbn.
  intros Hn. eapply strip_prefix_no_nul; [exact Hr| |by eapply parse_dec_no_nul].
  clear -Hname. induction (lit name) as [|c l IH]; [constructor|].
  cbn in Hname. apply andb_prop in Hname as [Hc Hl].
  constructor; [|by apply IH]. unfold no_nul.
  by destruct (Ascii.eqb_spec c Ascii.zero).
Qed.

Lemma b64_decode_ok s l : b64_decode s = Some l -> Forall b64_ok s.
Proof.
  revert l. induction s as [s IH] using (induction_ltof1 _ (@length ascii)).
  unfold ltof in IH. intros l.
  destruct s as [|c0 [|c1 [|c2 [|c3 rest]]]]; cbn.
  - constructor.
  - done.
  - destruct (b64_value c0) eqn:H0; [|done]. destruct (b64_value c1) eqn:H1; [|done].
    intros _. repeat constructor; by eexists.
  - destruct (b64_value c0) eqn:H0; [|done]. destruct (b64_value c1) eqn:H1; [|done].
    destruct (b64_value c2) eqn:H2; [|done].
    intros _. repeat constructor; by eexists.
  - destruct (b64_value c0) eqn:H0; [|done]. destruct (b64_value c1) eqn:H1; [|done].
    destruct (b64_value c2) eqn:H2; [|done]. destruct (b64_value c3) eqn:H3; [|done].
    destruct (b64_decode rest) as [tl|] eqn:Hrest; [|done].
    intros _. repeat (constructor; [by eexists|]).
    eapply IH; [|exact Hrest]. cbn. lia.
Qed.

Lemma b64_ok_no_nul s : Forall b64_ok s -> Forall no_nul s.
Proof. apply Forall_b64_not. reflexivity. Qed.

Lemma tag_type_no_nul tag ty : tag_type tag = Some ty -> Forall no_nul tag.
Proof.
  unfold tag_type.
  assert (H : forall name : string,
             string_of_list_ascii tag = name ->
             forallb (fun c => negb (Ascii.eqb c Ascii.zero)) (list_ascii_of_string name)
             = true ->
             Forall no_nul tag).
  { intros name <-. rewrite list_ascii_of_string_of_list_ascii.
    clear. induction tag as [|c l IH]; [constructor|].
    cbn. intros [Hc Hl]%andb_prop. constructor; [|by apply IH].
    unfold no_nul. by destruct (Ascii.eqb_spec c Ascii.zero). }
  destruct (String.eqb_spec (string_of_list_ascii tag) "argon2d") as [Hd|_];
    [intros _; by eapply H|].
  destruct (String.eqb_spec (string_of_list_ascii tag) "argon2i") as [Hi|_];
    [intros _; by eapply H|].
  destruct (String.eqb_spec (string_of_list_ascii tag) "argon2id") as [Hid|_];
    [intros _; by eapply H|done].
Qed.

(** The decoder accepts no string with a NUL. *)
Lemma decode_string_no_nul s d : decode_string s = Some d -> Forall no_nul s.
Proof.
  unfold decode_string. intros H.
  apply (split_on_Forall no_nul "$"); [done|].
  destruct (split_on "$" s)
    as [|[|? ?] [|tag [|version [|costs [|salt [|digest [|? ?]]]]]]]; try done.
  pose proof (split_on_Forall no_nul "," costs ltac:(done)) as Hcosts.
  destruct (split_on "," costs) as [|m [|t [|p [|]]]]; try done.
  destruct (tag_type tag) eqn:Htag; cbn [mbind option_bind] in H; [|discriminate H].
  destruct (field "v=" version) eqn:Hv; cbn [mbind option_bind] in H; [|discriminate H].
  destruct (field "m=" m) eqn:Hm; cbn [mbind option_bind] in H; [|discriminate H].
  destruct (field "t=" t) eqn:Ht; cbn [mbind option_bind] in H; [|discriminate H].
  destruct (field "p=" p) eqn:Hp; cbn [mbind option_bind] in H; [|discriminate H].
  destruct (b64_decode salt) eqn:Hsalt; cbn [mbind option_bind] in H; [|discriminate H].
  destruct (b64_decode digest) eqn:Hdigest; cbn [mbind option_bind] in H; [|discriminate H].
  assert (Hfield : forall name x n,
             forallb (fun c => negb (Ascii.eqb c Ascii.zero)) (lit name) = true ->
             field name x = Some n -> Forall no_nul x)
    by (intros; by eapply field_no_nul).
  constructor; [constructor|].
  constructor; [by eapply tag_type_no_nul|].
  constructor; [by eapply (Hfield "v=")|].
  constructor.
  { apply Hcosts. constructor; [by eapply (Hfield "m=")|].
    constructor; [by eapply (Hfield "t=")|].
    constructor; [by eapply (Hfield "p=")|constructor]. }
  constructor; [by eapply b64_ok_no_nul, b64_decode_ok|].
  constructor; [by eapply b64_ok_no_nul, b64_decode_ok|constructor].
Qed.

Lemma decode_string_nul (a b : string) :
  decode_string (list_ascii_of_string (a +:+ String Ascii.zero b)) = None.
Proof.
  destruct (decode_string _) as [d|] eqn:Hd; [|done].
  apply decode_string_no_nul in Hd.
  rewrite list_ascii_of_string_app in Hd. apply Forall_app in Hd as [_ Hd].
  cbn in Hd. by inversion Hd.
Qed.

Section TextAfterNul.

Context (kdf : Z -> Z -> Z -> Z -> Z -> list Z -> list Z -> Z -> list Z).

Context (mem_ceiling : Z).

Context (Hkdf : kdf_ok kdf).

(** C5.  A malformed encoded string is not always refused.  The wrapper
    hands [encoded] to the module as a C string (line 129 stores it with a
    final NUL, line 140 passes no length): of the encoded string of a hash,
    followed by a NUL and by anything else, the module receives the encoded
    string alone.  Such a string is malformed, no field of the format can
    hold a NUL and the decoder refuses it as a whole, yet [argon2Verify]
    accepts it with the password of the hash, for every memory-hard
    function. *)
Theorem verify_accepts_text_after_nul params st h hx encoded st' junk vty st1 :
  addressable (hash_st4 params st) ->
  argon2Hash (ref_core kdf mem_ceiling) params st
  = (Ret (JObj [("hash", h); ("hashHex", hx); ("encoded", JStr encoded)]), st') ->
  vty = None
  \/ (exists t ty, vty = Some t /\ hash_type params st = Ret ty
                   /\ wrap32 t = to_int32 ty) ->
  let malformed := encoded +:+ String Ascii.zero junk in
  addressable (verify_st2 (VerifyParams (hp_pass params) (Str malformed) vty) st1) ->
  decode_string (list_ascii_of_string malformed) = None
  /\ (argon2Verify (ref_core kdf mem_ceiling)
                   (VerifyParams (hp_pass params) (Str malformed) vty) st1).1
     = Ret JUndefined.
Proof.
  intros Haddr Hrun Hvty malformed Haddr1.
  split; [apply decode_string_nul|].
  destruct (ref_argon2Hash_inv kdf mem_ceiling Hkdf params st h hx _ st' Haddr Hrun)
    as (ty & tag & Hlen & Hty & Hval & Htag & Hfits & Henc).
  assert (Henc' : encoded = string_of_list_ascii (ref_text kdf params ty tag))
    by congruence.
  clear Henc. subst encoded.
  destruct (verify_type_value (hp_pass params) malformed vty) as (v & Hv & Hint).
  assert (Hint' : to_int32 v = to_int32 ty).
  { rewrite Hint. destruct Hvty as [->|(t & ty' & -> & Hty' & Ht)].
    - unfold malformed, ref_text. by apply verify_variant_nul.
    - rewrite Hty in Hty'. by injection Hty' as <-. }
  rewrite (argon2Verify_call _ _ st1 v Hv).
  unfold verify_st3. rewrite ref_verify_run by done.
  unfold malformed. rewrite c_text_nul.
  rewrite c_text_plain by (by apply ref_text_plain).
  rewrite Hint', ref_verify_code_encoded by done.
  fold (ref_digest kdf params ty).
  rewrite digests_equal_refl. cbn [fst snd res_of err_of error_code].
  by rewrite verify_result_ok.
Qed.

End TextAfterNul.

(** [encoded_nul] is [encoded_i], a NUL and a [!]: it does not decode, and
    ["password"] verifies against it. *)
Lemma verify_accepts_text_after_nul_witness :
  decode_string (list_ascii_of_string encoded_nul) = None
  /\ (argon2Verify core0 (VerifyParams (Str "password") (Str encoded_nul) None)
                   state0).1
     = Ret JUndefined.
Proof.
  apply (verify_accepts_text_after_nul checksum_kdf 4194304 checksum_kdf_ok
           hash_params_i state0
           (JBytes (checksum_kdf 1 19 1 1024 1 (codes "password") (codes "somesalt") 24))
           (JStr "c1c8cfd6dde4ebf2f900070e151c232a31383f464d545b62")
           encoded_i (argon2Hash core0 hash_params_i state0).2 "!" None state0).
  - by vm_compute.
  - vm_compute. reflexivity.
  - by left.
  - by vm_compute.
Defined.
